(** * vehicle-x-zone: the environment's components and the scenario tick

    A shallow embedding of [environ/components.py] and of
    [Scenario.step] from [environ/scenario.py].

    Numbers.  The program computes with IEEE doubles; here a finite double
    is a real number and arithmetic on finite values is exact.  The one
    place where the program relies on non-finite values is the division in
    [Zone.constraint], executed under [np.errstate(divide='ignore')]: its
    results are modelled by [float64], the reals extended with the two
    infinities and NaN.  A zero divisor is taken to be [+0.0].

    Randomness.  [np.random.normal] draws from a global generator; the
    generator is an explicit argument here, a stream of standard normal
    samples with a cursor. *)

From Stdlib Require Import Reals Lra Lia List Bool Arith.
Import ListNotations.

Open Scope R_scope.

(** ** Comparisons on reals as booleans *)

Definition Rltb (x y : R) : bool := if Rlt_dec x y then true else false.
Definition Rleb (x y : R) : bool := if Rle_dec x y then true else false.
Definition Reqb (x y : R) : bool := if Req_dec_T x y then true else false.

(** ** Doubles as produced by a NumPy division *)

Inductive float64 : Type :=
| Fin (r : R)
| PInf
| NInf
| NaN.

(** [a / b] for a NumPy scalar [b] with division warnings silenced:
    a zero divisor gives an infinity of the sign of [a], or NaN for [0/0]. *)
Definition np_div (a b : R) : float64 :=
  if Req_dec_T b 0 then
    if Rlt_dec 0 a then PInf
    else if Rlt_dec a 0 then NInf
    else NaN
  else Fin (a / b).

(** [x >= 0] *)
Definition ge0 (x : float64) : bool :=
  match x with
  | Fin r => Rleb 0 r
  | PInf => true
  | NInf => false
  | NaN => false
  end.

(** [x < y] *)
Definition flt (x y : float64) : bool :=
  match x, y with
  | NaN, _ | _, NaN => false
  | Fin a, Fin b => Rltb a b
  | Fin _, PInf => true
  | Fin _, NInf => false
  | PInf, _ => false
  | NInf, NInf => false
  | NInf, _ => true
  end.

(** The builtin [min] over an iterable: the first smallest item; an empty
    iterable raises [ValueError], here [None]. *)
Fixpoint min_from (m : float64) (l : list float64) : float64 :=
  match l with
  | [] => m
  | x :: l' => min_from (if flt x m then x else m) l'
  end.

Definition py_min (l : list float64) : option float64 :=
  match l with
  | [] => None
  | x :: l' => Some (min_from x l')
  end.

(** [x - r] and [k * x] for a finite [r] and a finite [k] *)
Definition fsub (x : float64) (r : R) : float64 :=
  match x with
  | Fin c => Fin (c - r)
  | other => other
  end.

Definition fscale (k : R) (x : float64) : float64 :=
  match x with
  | Fin c => Fin (k * c)
  | PInf => if Rlt_dec 0 k then PInf else if Rlt_dec k 0 then NInf else NaN
  | NInf => if Rlt_dec 0 k then NInf else if Rlt_dec k 0 then PInf else NaN
  | NaN => NaN
  end.

(** [np.clip(x, lo, hi)], that is [minimum(maximum(x, lo), hi)], for finite
    bounds.  NaN propagates. *)
Definition np_clip (x : float64) (lo hi : R) : float64 :=
  match x with
  | Fin c => Fin (Rmin (Rmax c lo) hi)
  | PInf => Fin hi
  | NInf => Fin (Rmin lo hi)
  | NaN => NaN
  end.

(** ** Vector3 *)

Module Vector3.

(** Modelled from the spec: [environ/utils.py] (class [Vector3]) is not
    part of the sources at hand.  Three scalar components with
    componentwise addition and subtraction, multiplication by a scalar,
    the Euclidean norm as magnitude, and [t] giving the components in
    order. *)
Record t : Type := mk { x : R; y : R; z : R }.

Definition add (p q : t) : t := mk (x p + x q) (y p + y q) (z p + z q).
Definition sub (p q : t) : t := mk (x p - x q) (y p - y q) (z p - z q).
Definition scale (p : t) (k : R) : t := mk (x p * k) (y p * k) (z p * k).
Definition magnitude (p : t) : R := sqrt (x p * x p + y p * y p + z p * z p).
Definition components (p : t) : list R := [x p; y p; z p].
Definition zero : t := mk 0 0 0.

(** Modelled from the spec: unary minus, and [normalized], the vector
    divided by its magnitude (left undefined by the source at the zero
    vector; only used here on non-zero vectors). *)
Definition neg (p : t) : t := mk (- x p) (- y p) (- z p).
Definition normalized (p : t) : t := mk (x p / magnitude p) (y p / magnitude p) (z p / magnitude p).

End Vector3.

Abbreviation Vec := Vector3.t.

(** ** The rotation built by [spinner] *)

Definition Matrix3 : Type := (Vec * Vec * Vec)%type.

Definition row1 (m : Matrix3) : Vec := fst (fst m).
Definition row2 (m : Matrix3) : Vec := snd (fst m).
Definition row3 (m : Matrix3) : Vec := snd m.

Definition col1 (m : Matrix3) : Vec :=
  Vector3.mk (Vector3.x (row1 m)) (Vector3.x (row2 m)) (Vector3.x (row3 m)).
Definition col2 (m : Matrix3) : Vec :=
  Vector3.mk (Vector3.y (row1 m)) (Vector3.y (row2 m)) (Vector3.y (row3 m)).
Definition col3 (m : Matrix3) : Vec :=
  Vector3.mk (Vector3.z (row1 m)) (Vector3.z (row2 m)) (Vector3.z (row3 m)).

Definition dot (p q : Vec) : R :=
  Vector3.x p * Vector3.x q + Vector3.y p * Vector3.y q + Vector3.z p * Vector3.z q.

(** [v @ m] for a row vector [v] *)
Definition vecmat (p : Vec) (m : Matrix3) : Vec :=
  Vector3.mk (dot p (col1 m)) (dot p (col2 m)) (dot p (col3 m)).

(** [m @ n] *)
Definition matmul (m n : Matrix3) : Matrix3 :=
  (vecmat (row1 m) n, vecmat (row2 m) n, vecmat (row3 m) n).

Definition spinner (alpha beta gamma : R) : Matrix3 :=
  let mx : Matrix3 :=
    (Vector3.mk 1 0 0,
     Vector3.mk 0 (cos alpha) (- sin alpha),
     Vector3.mk 0 (sin alpha) (cos alpha)) in
  let my : Matrix3 :=
    (Vector3.mk (cos beta) 0 (sin beta),
     Vector3.mk 0 1 0,
     Vector3.mk (- sin beta) 0 (cos beta)) in
  let mz : Matrix3 :=
    (Vector3.mk (cos gamma) (- sin gamma) 0,
     Vector3.mk (sin gamma) (cos gamma) 0,
     Vector3.mk 0 0 1) in
  matmul (matmul mz my) mx.

(** ** The random source *)

Record Rng : Type := mkRng { samples : nat -> R; cursor : nat }.

(** [np.random.normal(0.0, scale, size=3)] *)
Definition normal3 (scale : R) (g : Rng) : (R * R * R) * Rng :=
  let n := cursor g in
  ((0 + scale * samples g n,
    0 + scale * samples g (S n),
    0 + scale * samples g (S (S n))),
   mkRng (samples g) (S (S (S n)))).

(** The jitter shared by [Vehicle.move] and [Human.move]:
    [direction.t @ spinner(alpha, beta, gamma)] for three fresh draws. *)
Definition jitter (direction : Vec) (scale : R) (g : Rng) : Vec * Rng :=
  let '((alpha, beta, gamma), g') := normal3 scale g in
  (vecmat direction (spinner alpha beta gamma), g').

(** ** Exceptions *)

Inductive exn : Type :=
| ValueError      (* [min()] of an empty sequence *)
| IndexError      (* list index out of range *)
| NotANumber.     (* a NaN would enter the vehicle state; see [Vehicle.move] *)

(** ** Zone *)

Module Zone.

Record t : Type := mk {
  lo_x : R; hi_x : R;
  lo_y : R; hi_y : R;
  lo_z : R; hi_z : R
}.

(** The assertions of [__init__]. *)
Definition wf (zn : t) : Prop :=
  0 <= lo_x zn /\ 0 <= hi_x zn /\
  0 <= lo_y zn /\ 0 <= hi_y zn /\
  0 <= lo_z zn /\ 0 <= hi_z zn.

Definition constraints_x (zn : t) (d : Vec) : list float64 :=
  [np_div (- lo_x zn) (Vector3.x d); np_div (hi_x zn) (Vector3.x d)].
Definition constraints_y (zn : t) (d : Vec) : list float64 :=
  [np_div (- lo_y zn) (Vector3.y d); np_div (hi_y zn) (Vector3.y d)].
Definition constraints_z (zn : t) (d : Vec) : list float64 :=
  [np_div (- lo_z zn) (Vector3.z d); np_div (hi_z zn) (Vector3.z d)].

(** The tuple [constraints] of the method. *)
Definition constraints (zn : t) (d : Vec) : list float64 :=
  constraints_x zn d ++ constraints_y zn d ++ constraints_z zn d.

(** [None] stands for the [ValueError] of [min] on an empty generator. *)
Definition constraint (zn : t) (d : Vec) : option float64 :=
  py_min (filter ge0 (constraints zn d)).

(** The box [[-lo_x, hi_x] x [-lo_y, hi_y] x [-lo_z, hi_z]]. *)
Definition inside (zn : t) (p : Vec) : Prop :=
  - lo_x zn <= Vector3.x p <= hi_x zn /\
  - lo_y zn <= Vector3.y p <= hi_y zn /\
  - lo_z zn <= Vector3.z p <= hi_z zn.

Definition on_face (zn : t) (p : Vec) : Prop :=
  Vector3.x p = - lo_x zn \/ Vector3.x p = hi_x zn \/
  Vector3.y p = - lo_y zn \/ Vector3.y p = hi_y zn \/
  Vector3.z p = - lo_z zn \/ Vector3.z p = hi_z zn.

Definition on_surface (zn : t) (p : Vec) : Prop :=
  inside zn p /\ on_face zn p.

End Zone.

(** ** The result of a computation that may raise *)

Inductive result (A : Type) : Type :=
| Ok (a : A)
| Raise (e : exn).

Arguments Ok {A} a.
Arguments Raise {A} e.

Definition bind {A B : Type} (r : result A) (k : A -> result B) : result B :=
  match r with
  | Ok a => k a
  | Raise e => Raise e
  end.

Notation "' p <- r ;; k" := (bind r (fun p => k))
  (at level 61, p pattern, r at next level, right associativity).

(** ** Vehicle *)

Module Vehicle.

Record t : Type := mk {
  v : R;
  a : R;
  priority : R;
  tick : R;
  odometer : R;
  direction : Vec;
  position : Vec;
  speed : R;
  offline : bool
}.

(** The assertions of [__init__]; the four attributes are private and
    never reassigned. *)
Definition wf (veh : t) : Prop :=
  0 < v veh /\ 0 < a veh /\ 0 < priority veh /\ 0 < tick veh.

Definition boundary (veh : t) : R := v veh * tick veh.

(** [__init__]; [None] stands for the [AssertionError] of a failed
    assertion. *)
Definition init (v a priority tick : R) : option t :=
  if Rltb 0 v && Rltb 0 a && Rltb 0 priority && Rltb 0 tick
  then Some (mk v a priority tick 0.0 Vector3.zero Vector3.zero 0 false)
  else None.

(** Lines 96 to 107 of [move]: the distance moved and the final speed,
    given the zone's constraint.  A NaN acceleration would poison the
    whole state; that outcome is reported as [NotANumber] (it cannot
    arise for a well-formed vehicle, see [kinematics_defined]). *)
Definition kinematics (veh : t) (constraint : float64) : result (R * R) :=
  let vi := speed veh in
  let a_raw := fscale (2 / tick veh ^ 2) (fsub constraint (vi * tick veh)) in
  match np_clip a_raw (- Rmin (vi / tick veh) (a veh)) (a veh) with
  | Fin acc =>
      if Rltb 0 acc && Rltb (Rabs (v veh - vi) / acc) (tick veh) then
        let t := Rabs (v veh - vi) / acc in
        let d1 := vi * t + 1 / 2 * acc * t ^ 2 in
        let d2 := v veh * (tick veh - t) in
        Ok (d1 + d2, v veh)
      else
        let d := vi * tick veh + 1 / 2 * acc * tick veh ^ 2 in
        let vf := vi + acc * tick veh in
        Ok (d, Rmax vf 0)
  | _ => Raise NotANumber
  end.

Definition move (veh : t) (zone : Zone.t) (randomness : R) (g : Rng)
  : result (t * R * Rng) :=
  let '(rotated, g') := jitter (direction veh) (tick veh * randomness) g in
  match Zone.constraint zone rotated with
  | None => Raise ValueError
  | Some constraint =>
      ' (moved, vf) <- kinematics veh constraint ;;
      Ok (mk (v veh) (a veh) (priority veh) (tick veh)
             (odometer veh + moved)
             rotated
             (Vector3.add (position veh) (Vector3.scale rotated moved))
             vf
             (offline veh),
          moved, g')
  end.

Definition switch_off (veh : t) : t :=
  mk (v veh) (a veh) (priority veh) (tick veh) (odometer veh)
     (direction veh) (position veh) (speed veh) true.

End Vehicle.

(** ** Human *)

Module Human.

Record t : Type := mk {
  v : R;
  tick : R;
  position : Vec;
  direction : Vec
}.

(** [__init__]: no assertion. *)
Definition init (v tick : R) : t := mk v tick Vector3.zero Vector3.zero.

Definition move (h : t) (randomness : R) (g : Rng) : t * Rng :=
  let '(rotated, g') := jitter (direction h) (tick h * randomness) g in
  (mk (v h) (tick h)
      (Vector3.add (position h)
         (Vector3.scale (Vector3.scale rotated (tick h)) (v h)))
      rotated,
   g').

End Human.

(** ** Scenario *)

Module Scenario.

Record t : Type := mk {
  vehicles : list Vehicle.t;
  humans : list Human.t;
  tick : R;
  elapsed : nat
}.

(** An entry of an observation list: a float, or the Python boolean
    [feared]. *)
Inductive obsval : Type :=
| F (r : R)
| B (b : bool).

(** What [step] yields: observation, reward, done. *)
Definition Yield : Type := (list obsval * R * bool)%type.

Definition zeros (n : nat) : list obsval := repeat (F 0) n.

(** Truth value of a float in a condition. *)
Definition truthy (r : R) : bool := negb (Reqb r 0).

(** *** Phase 1: everything steps forward *)

(** The loop over [zip(self.vehicles, zones)]: the vehicles as they are
    after the loop, with the list [rewards] and the random source.  The
    pairing stops at the shorter of the two sequences. *)
Fixpoint advance (vs : list Vehicle.t) (zones : list Zone.t) (g : Rng)
  : result (list Vehicle.t * list R * Rng) :=
  match vs, zones with
  | vehicle :: vs', zone :: zones' =>
      if Vehicle.offline vehicle then
        ' (vs'', rewards, g') <- advance vs' zones' g ;;
        Ok (vehicle :: vs'', 0 :: rewards, g')
      else
        ' (vehicle', moved, g1) <- Vehicle.move vehicle zone 0.05 g ;;
        ' (vs'', rewards, g') <- advance vs' zones' g1 ;;
        Ok (vehicle' :: vs'', moved * Vehicle.priority vehicle' :: rewards, g')
  | _, _ => Ok (vs, [], g)
  end.

(** The loop over [self.humans]. *)
Fixpoint wander (hs : list Human.t) (g : Rng) : list Human.t * Rng :=
  match hs with
  | [] => ([], g)
  | human :: hs' =>
      let '(human', g1) := Human.move human 0.5 g in
      let '(hs'', g') := wander hs' g1 in
      (human' :: hs'', g')
  end.

(** *** Phase 2: observations, rewards, termination *)

(** [self.vehicles[:i] + self.vehicles[i + 1:]] *)
Definition others (i : nat) (vs : list Vehicle.t) : list Vehicle.t :=
  firstn i vs ++ skipn (S i) vs.

(** The locals that the two scans of one vehicle update, together with the
    list [offline] shared by the whole phase. *)
Record Scan : Type := mkScan {
  obs : list obsval;
  reward : R;
  crashed : bool;
  warning : R;
  offline : list nat
}.

Definition vehicle_info (vehicle other : Vehicle.t) : list obsval :=
  map F (Vector3.components (Vector3.sub (Vehicle.position other) (Vehicle.position vehicle))
         ++ Vector3.components (Vehicle.direction other)
         ++ [Vehicle.speed other; Vehicle.priority other]).

(** The body of the loop over the other vehicles. *)
Definition see_vehicle (i : nat) (vehicle : Vehicle.t) (st : Scan) (other : Vehicle.t) : Scan :=
  if Vehicle.offline other then
    mkScan (obs st ++ zeros 8) (reward st) (crashed st) (warning st) (offline st)
  else
    let displacement := Vector3.sub (Vehicle.position other) (Vehicle.position vehicle) in
    let obs' := obs st ++ vehicle_info vehicle other in
    if truthy (warning st) || crashed st then
      mkScan obs' (reward st) (crashed st) (warning st) (offline st)
    else
      let distance := Vector3.magnitude displacement in
      if Rltb distance 1 then
        mkScan obs' (reward st) true (warning st) (offline st ++ [i])
      else if Rltb distance 3
              && Rltb (Vehicle.priority vehicle) (Vehicle.priority other)
              && Rltb 1 (Vehicle.speed vehicle) then
        mkScan obs' (reward st) (crashed st)
               (Vehicle.speed vehicle / Vehicle.v vehicle) (offline st)
      else if Rltb distance 10
              && Rltb 5 (Vehicle.speed vehicle)
              && Rltb 5 (Vehicle.speed other) then
        mkScan obs' (reward st * (0.9 + distance * 0.01)) (crashed st)
               (warning st) (offline st)
      else
        mkScan obs' (reward st) (crashed st) (warning st) (offline st).

Definition feared (vehicle : Vehicle.t) (human : Human.t) : bool :=
  Rltb (Vector3.magnitude (Vector3.sub (Human.position human) (Vehicle.position vehicle))) 3
  && Rltb 1 (Vehicle.speed vehicle).

Definition human_info (vehicle : Vehicle.t) (human : Human.t) : list obsval :=
  map F (Vector3.components (Vector3.sub (Human.position human) (Vehicle.position vehicle)))
  ++ [B (feared vehicle human)].

(** The body of the loop over the humans. *)
Definition see_human (i : nat) (vehicle : Vehicle.t) (st : Scan) (human : Human.t) : Scan :=
  let displacement := Vector3.sub (Human.position human) (Vehicle.position vehicle) in
  let obs' := obs st ++ human_info vehicle human in
  if truthy (warning st) || crashed st then
    mkScan obs' (reward st) (crashed st) (warning st) (offline st)
  else
    let distance := Vector3.magnitude displacement in
    if Rltb distance 1 then
      mkScan obs' (reward st) true (warning st) (offline st ++ [i])
    else if Rltb distance 3 && Rltb 1 (Vehicle.speed vehicle) then
      mkScan obs' (reward st) (crashed st)
             (Vehicle.speed vehicle / Vehicle.v vehicle) (offline st)
    else if Rltb distance 10 && Rltb 5 (Vehicle.speed vehicle) then
      mkScan obs' (reward st * (0.9 + distance * 0.01)) (crashed st)
             (warning st) (offline st)
    else
      mkScan obs' (reward st) (crashed st) (warning st) (offline st).

(** [vehicle.odometer >= 20] *)
Definition finished (vehicle : Vehicle.t) : bool := Rleb 20 (Vehicle.odometer vehicle).

(** The locals of a vehicle that is not offline, before the scans. *)
Definition scan_init (i : nat) (vehicle : Vehicle.t) (base : R) (off : list nat) : Scan :=
  mkScan (map F (Vector3.components (Vehicle.direction vehicle) ++ [Vehicle.speed vehicle]))
         (if finished vehicle then 5.0 * Vehicle.priority vehicle else base)
         false
         0.0
         (if finished vehicle then off ++ [i] else off).

(** The locals after the scan of the other vehicles, and after both scans. *)
Definition scan_vehicles (vs : list Vehicle.t) (i : nat) (vehicle : Vehicle.t)
  (base : R) (off : list nat) : Scan :=
  fold_left (see_vehicle i vehicle) (others i vs) (scan_init i vehicle base off).

Definition scan (vs : list Vehicle.t) (hs : list Human.t) (i : nat) (vehicle : Vehicle.t)
  (base : R) (off : list nat) : Scan :=
  fold_left (see_human i vehicle) hs (scan_vehicles vs i vehicle base off).

(** The final [if crashed ... elif warning ... else] of the loop body;
    [done] is the local set by the odometer test. *)
Definition verdict (st : Scan) (done : bool) : Yield :=
  if crashed st then (obs st, -5.0, true)
  else if truthy (warning st) then (obs st, - warning st, false)
  else (obs st, reward st, done).

(** One iteration of the loop over [enumerate(self.vehicles)]: the tuple
    yielded and the list [offline] afterwards ([off] before).  [rewards[i]] raises
    [IndexError] when phase 1 recorded no reward for index [i]. *)
Definition observe (vs : list Vehicle.t) (hs : list Human.t) (rewards : list R)
  (i : nat) (vehicle : Vehicle.t) (off : list nat) : result (Yield * list nat) :=
  if Vehicle.offline vehicle then
    let dim := (4 + 8 * (length vs - 1) + 4 * length hs)%nat in
    match nth_error rewards i with
    | None => Raise IndexError
    | Some base => Ok ((zeros dim, base, true), off)
    end
  else
    match nth_error rewards i with
    | None => Raise IndexError
    | Some base =>
        let st := scan vs hs i vehicle base off in
        Ok (verdict st (finished vehicle), offline st)
    end.

(** The loop over [enumerate(self.vehicles)] from index [i] on, [todo]
    being the vehicles not yet visited: the tuples yielded, in order, and
    either the final list [offline] or the exception that ended the
    generator. *)
Fixpoint observe_from (vs : list Vehicle.t) (hs : list Human.t) (rewards : list R)
  (i : nat) (todo : list Vehicle.t) (off : list nat)
  : list Yield * result (list nat) :=
  match todo with
  | [] => ([], Ok off)
  | vehicle :: todo' =>
      match observe vs hs rewards i vehicle off with
      | Raise e => ([], Raise e)
      | Ok (y, off') =>
          let '(ys, r) := observe_from vs hs rewards (S i) todo' off' in
          (y :: ys, r)
      end
  end.

(** *** Phase 3: the late update *)

(** [self.vehicles[i].offline = True]; every index in [offline] comes from
    the enumeration of phase 2 and is in range. *)
Fixpoint switch_off (i : nat) (vs : list Vehicle.t) : list Vehicle.t :=
  match vs, i with
  | [], _ => []
  | vehicle :: vs', O => Vehicle.switch_off vehicle :: vs'
  | vehicle :: vs', S i' => vehicle :: switch_off i' vs'
  end.

Definition late_update (off : list nat) (vs : list Vehicle.t) : list Vehicle.t :=
  fold_left (fun vs i => switch_off i vs) off vs.

(** *** The generator [step], run to exhaustion

    The tuples yielded, and either the scenario and random source left
    behind or the exception that ended the generator. *)
Definition step (s : t) (zones : list Zone.t) (g : Rng)
  : list Yield * result (t * Rng) :=
  match advance (vehicles s) zones g with
  | Raise e => ([], Raise e)
  | Ok (vs1, rewards, g1) =>
      let '(hs1, g2) := wander (humans s) g1 in
      let '(ys, r) := observe_from vs1 hs1 rewards 0 vs1 [] in
      (ys,
       ' off <- r ;;
       Ok (mk (late_update off vs1) hs1 (tick s) (S (elapsed s)), g2))
  end.

(** Successive ticks, one list of zones per tick; stops at the first tick
    that raises. *)
Fixpoint run (s : t) (ticks : list (list Zone.t)) (g : Rng)
  : list (list Yield) * result (t * Rng) :=
  match ticks with
  | [] => ([], Ok (s, g))
  | zones :: ticks' =>
      match step s zones g with
      | (ys, Raise e) => ([ys], Raise e)
      | (ys, Ok (s', g')) =>
          let '(yss, r) := run s' ticks' g' in
          (ys :: yss, r)
      end
  end.

(** *** The generator [reset], run to exhaustion *)

(** The values that [reset] draws for the agent of each index.
    [Spot] ([environ/utils.py]) is not part of the sources at hand and the
    draws come from NumPy's global generator, so the values drawn are
    inputs here: [Spot.normal(10, 1)], [np.random.uniform(1, 3)] and
    [np.random.normal(7, 1)] for a vehicle, [Spot.uniform(0, 7)] and
    [Spot.uniform(0, 1)] for a human. *)
Record Draws : Type := mkDraws {
  start : nat -> Vec;
  drawn_priority : nat -> R;
  drawn_speed : nat -> R;
  human_position : nat -> Vec;
  human_direction : nat -> Vec
}.

(** The body of the loop that builds the vehicles. *)
Definition fresh_vehicle (tick : R) (d : Draws) (k : nat) : option Vehicle.t :=
  match Vehicle.init 14 7 (drawn_priority d k) tick with
  | None => None
  | Some vehicle =>
      Some (Vehicle.mk (Vehicle.v vehicle) (Vehicle.a vehicle) (Vehicle.priority vehicle)
              (Vehicle.tick vehicle) (Vehicle.odometer vehicle)
              (Vector3.neg (Vector3.normalized (start d k)))
              (start d k)
              (drawn_speed d k)
              (Vehicle.offline vehicle))
  end.

(** The loop [for _ in range(vehicles)], from index [k] on. *)
Fixpoint fresh_vehicles (tick : R) (d : Draws) (k n : nat) : option (list Vehicle.t) :=
  match n with
  | O => Some []
  | S n' =>
      match fresh_vehicle tick d k with
      | None => None
      | Some vehicle =>
          match fresh_vehicles tick d (S k) n' with
          | None => None
          | Some vs => Some (vehicle :: vs)
          end
      end
  end.

(** The body of the loop that builds the humans. *)
Definition fresh_human (tick : R) (d : Draws) (k : nat) : Human.t :=
  let human := Human.init 1 tick in
  Human.mk (Human.v human) (Human.tick human) (human_position d k) (human_direction d k).

(** The observation built for one vehicle by the last loop of [reset]. *)
Definition first_sight (vs : list Vehicle.t) (hs : list Human.t) (i : nat)
  (vehicle : Vehicle.t) : list obsval :=
  let obs := map F (Vector3.components (Vehicle.direction vehicle) ++ [Vehicle.speed vehicle]) in
  let obs := fold_left (fun obs other => obs ++ vehicle_info vehicle other) (others i vs) obs in
  fold_left (fun obs human => obs ++ human_info vehicle human) hs obs.

Fixpoint first_sights (vs : list Vehicle.t) (hs : list Human.t) (i : nat)
  (todo : list Vehicle.t) : list (list obsval) :=
  match todo with
  | [] => []
  | vehicle :: todo' => first_sight vs hs i vehicle :: first_sights vs hs (S i) todo'
  end.

(** The observations yielded and the scenario left behind; [None] stands
    for the [AssertionError] of [Vehicle.__init__].  The former vehicles
    and humans are cleared. *)
Definition reset (s : t) (vehicles humans : nat) (d : Draws)
  : option (list (list obsval) * t) :=
  match fresh_vehicles (tick s) d 0 vehicles with
  | None => None
  | Some vs =>
      let hs := map (fresh_human (tick s) d) (seq 0 humans) in
      Some (first_sights vs hs 0 vs, mk vs hs (tick s) 0)
  end.

End Scenario.

(** * Notions used in the statements *)

(** The three factors of [spinner]. *)
Definition rot_x (alpha : R) : Matrix3 :=
  (Vector3.mk 1 0 0,
   Vector3.mk 0 (cos alpha) (- sin alpha),
   Vector3.mk 0 (sin alpha) (cos alpha)).

Definition rot_y (beta : R) : Matrix3 :=
  (Vector3.mk (cos beta) 0 (sin beta),
   Vector3.mk 0 1 0,
   Vector3.mk (- sin beta) 0 (cos beta)).

Definition rot_z (gamma : R) : Matrix3 :=
  (Vector3.mk (cos gamma) (- sin gamma) 0,
   Vector3.mk (sin gamma) (cos gamma) 0,
   Vector3.mk 0 0 1).

(** The raw acceleration of the specification,
    [2/tick^2 * (constraint - vi*tick)]. *)
Definition raw_acceleration (tick vi : R) (constraint : float64) : float64 :=
  fscale (2 / tick ^ 2) (fsub constraint (vi * tick)).

(** [r] is [x] clipped to the interval [[lo, hi]]. *)
Definition clipped (x : float64) (lo hi r : R) : Prop :=
  lo <= r <= hi /\
  match x with
  | Fin c => (c < lo -> r = lo) /\ (hi < c -> r = hi) /\ (lo <= c <= hi -> r = c)
  | PInf => r = hi
  | NInf => r = lo
  | NaN => False
  end.

(** A well-formed vehicle with a speed [>= 0]. *)
Definition roadworthy (veh : Vehicle.t) : Prop :=
  Vehicle.wf veh /\ 0 <= Vehicle.speed veh.

(** The observation of a vehicle, field by field, as the specification
    lists it: its own direction and speed; for each other vehicle, in list order,
    eight zeros if that vehicle is offline and otherwise the displacement to
    it, its direction, its speed and its priority; for each human the
    displacement and the flag [feared]. *)
Definition own_fields (vehicle : Vehicle.t) : list Scenario.obsval :=
  [Scenario.F (Vector3.x (Vehicle.direction vehicle));
   Scenario.F (Vector3.y (Vehicle.direction vehicle));
   Scenario.F (Vector3.z (Vehicle.direction vehicle));
   Scenario.F (Vehicle.speed vehicle)].

Definition vehicle_block (vehicle other : Vehicle.t) : list Scenario.obsval :=
  if Vehicle.offline other then
    [Scenario.F 0; Scenario.F 0; Scenario.F 0; Scenario.F 0;
     Scenario.F 0; Scenario.F 0; Scenario.F 0; Scenario.F 0]
  else
    let displacement := Vector3.sub (Vehicle.position other) (Vehicle.position vehicle) in
    [Scenario.F (Vector3.x displacement);
     Scenario.F (Vector3.y displacement);
     Scenario.F (Vector3.z displacement);
     Scenario.F (Vector3.x (Vehicle.direction other));
     Scenario.F (Vector3.y (Vehicle.direction other));
     Scenario.F (Vector3.z (Vehicle.direction other));
     Scenario.F (Vehicle.speed other);
     Scenario.F (Vehicle.priority other)].

(** The eight values seen of a vehicle that is online: the displacement to
    it, its direction, its speed and its priority. *)
Definition online_block (vehicle other : Vehicle.t) : list Scenario.obsval :=
  let displacement := Vector3.sub (Vehicle.position other) (Vehicle.position vehicle) in
  [Scenario.F (Vector3.x displacement);
   Scenario.F (Vector3.y displacement);
   Scenario.F (Vector3.z displacement);
   Scenario.F (Vector3.x (Vehicle.direction other));
   Scenario.F (Vector3.y (Vehicle.direction other));
   Scenario.F (Vector3.z (Vehicle.direction other));
   Scenario.F (Vehicle.speed other);
   Scenario.F (Vehicle.priority other)].

Definition human_block (vehicle : Vehicle.t) (human : Human.t) : list Scenario.obsval :=
  let displacement := Vector3.sub (Human.position human) (Vehicle.position vehicle) in
  [Scenario.F (Vector3.x displacement);
   Scenario.F (Vector3.y displacement);
   Scenario.F (Vector3.z displacement);
   Scenario.B (Rltb (Vector3.magnitude displacement) 3 && Rltb 1 (Vehicle.speed vehicle))].

Definition layout (vs : list Vehicle.t) (hs : list Human.t) (i : nat) (vehicle : Vehicle.t)
  : list Scenario.obsval :=
  own_fields vehicle
  ++ flat_map (vehicle_block vehicle) (Scenario.others i vs)
  ++ flat_map (human_block vehicle) hs.

(** The width [4 + 8*(N-1) + 4*M]. *)
Definition width (n m : nat) : nat := (4 + 8 * (n - 1) + 4 * m)%nat.

(** A scan state with [off] put in front of its list [offline]. *)
Definition shift (off : list nat) (st : Scenario.Scan) : Scenario.Scan :=
  Scenario.mkScan (Scenario.obs st) (Scenario.reward st) (Scenario.crashed st)
    (Scenario.warning st) (off ++ Scenario.offline st).

(** Two scan states that differ at most in their observations. *)
Definition frozen (st st' : Scenario.Scan) : Prop :=
  Scenario.reward st' = Scenario.reward st /\
  Scenario.crashed st' = Scenario.crashed st /\
  Scenario.warning st' = Scenario.warning st /\
  Scenario.offline st' = Scenario.offline st.

(** What the scans maintain, starting from an empty list [offline]:
    the list holds nothing but [i]; it holds [i] exactly when the vehicle
    has finished or crashed; a crashed vehicle has no warning. *)
Definition scan_inv (i : nat) (vehicle : Vehicle.t) (st : Scenario.Scan) : Prop :=
  (forall k, In k (Scenario.offline st) -> k = i) /\
  (In i (Scenario.offline st) <->
   Scenario.finished vehicle = true \/ Scenario.crashed st = true) /\
  (Scenario.crashed st = true -> Scenario.warning st = 0.0).

(** The tuple yielded for the vehicle at index [k], [base] being
    [rewards[k]]. *)
Definition yield_of (vs : list Vehicle.t) (hs : list Human.t) (base : R) (k : nat)
  (vehicle : Vehicle.t) : Scenario.Yield :=
  if Vehicle.offline vehicle
  then (Scenario.zeros (width (length vs) (length hs)), base, true)
  else Scenario.verdict (Scenario.scan vs hs k vehicle base []) (Scenario.finished vehicle).

(** Whether phase 2 puts index [k] in the list [offline]. *)
Definition goes_offline (vs : list Vehicle.t) (hs : list Human.t) (base : R) (k : nat)
  (vehicle : Vehicle.t) : bool :=
  negb (Vehicle.offline vehicle)
  && (Scenario.finished vehicle || Scenario.crashed (Scenario.scan vs hs k vehicle base [])).

Definition marks (vs : list Vehicle.t) (hs : list Human.t) (base : R) (k : nat)
  (vehicle : Vehicle.t) : list nat :=
  if Vehicle.offline vehicle then []
  else Scenario.offline (Scenario.scan vs hs k vehicle base []).

(** What phase 1 does to the vehicle at index [k]. *)
Definition advanced (zones : list Zone.t) (rewards : list R) (k : nat)
  (veh veh1 : Vehicle.t) : Prop :=
  Vehicle.offline veh1 = Vehicle.offline veh /\
  (Vehicle.offline veh = true -> veh1 = veh) /\
  (Vehicle.offline veh = true -> (k < length zones)%nat -> nth_error rewards k = Some 0) /\
  ((length zones <= k)%nat -> veh1 = veh /\ nth_error rewards k = None) /\
  (Vehicle.offline veh = false -> (k < length zones)%nat ->
   exists zone moved g g',
     nth_error zones k = Some zone /\
     Vehicle.move veh zone 0.05 g = Ok (veh1, moved, g') /\
     nth_error rewards k = Some (moved * Vehicle.priority veh1)).

(** Where vehicle [k] sits among the others of vehicle [j]. *)
Definition slot (j k : nat) : nat := if (k <? j)%nat then k else (k - 1)%nat.

(** The outcome of a tick for the vehicle at index [k] once its warning
    is [w]: [final] is the state of its locals after both scans, [init]
    before them. *)
Definition warned_outcome (ys : list Scenario.Yield) (s' : Scenario.t)
  (k : nat) (vehicle : Vehicle.t) (obs : list Scenario.obsval)
  (init final : Scenario.Scan) (w : R) : Prop :=
  Scenario.crashed final = false /\
  Scenario.warning final = w /\
  Scenario.offline final = Scenario.offline init /\
  nth_error ys k = Some (obs, - w, false) /\
  nth_error (Scenario.vehicles s') k =
    Some (if Scenario.finished vehicle then Vehicle.switch_off vehicle else vehicle).

(** A zone all of whose bounds are positive constrains every direction,
    the zero direction included. *)
Definition positive (zn : Zone.t) : Prop :=
  0 < Zone.lo_x zn /\ 0 < Zone.hi_x zn /\
  0 < Zone.lo_y zn /\ 0 < Zone.hi_y zn /\
  0 < Zone.lo_z zn /\ 0 < Zone.hi_z zn.

(** ** Concrete inputs *)

(** The zone of the demo, [Zone((0.7, 0.7), (0.7, 0.7), (0.7, 0.7))]. *)
Definition zone07 : Zone.t := Zone.mk 0.7 0.7 0.7 0.7 0.7 0.7.

(** A random source whose samples are all zero. *)
Definition still : Rng := mkRng (fun _ => 0) 0.

(** [Vehicle(14, 7, 1, 0.1)] at rest at the origin, heading along [x]. *)
Definition test_car : Vehicle.t :=
  Vehicle.mk 14 7 1 0.1 0 (Vector3.mk 1 0 0) Vector3.zero 0 false.

(** The same vehicle at cruise speed. *)
Definition fast_car : Vehicle.t :=
  Vehicle.mk 14 7 1 0.1 0 (Vector3.mk 1 0 0) Vector3.zero 14 false.

(** A vehicle as [Scenario.reset] parameterises it ([v = 14], [a = 7],
    [tick = 0.1]) with the zero direction that [__init__] gives, and a
    human at rest. *)
Definition car (priority odometer speed : R) (position : Vec) (offline : bool) : Vehicle.t :=
  Vehicle.mk 14 7 priority 0.1 odometer Vector3.zero position speed offline.

Definition walker (position : Vec) : Human.t :=
  Human.mk 1 0.1 position Vector3.zero.

(** Two cars half a unit apart and a human further away. *)
Definition pair_scene : Scenario.t :=
  Scenario.mk [car 1 0 14 Vector3.zero false; car 2 0 14 (Vector3.mk 0.5 0 0) false]
              [walker (Vector3.mk 5 0 0)] 0.1 0.

(** A car about to finish, two units from a first human and half a unit
    from a second. *)
Definition solo_scene : Scenario.t :=
  Scenario.mk [car 1 19.9 14 Vector3.zero false]
              [walker (Vector3.mk 2 0 0); walker (Vector3.mk 0.5 0 0)] 0.1 0.

(** A car with a human forty units away. *)
Definition far_scene : Scenario.t :=
  Scenario.mk [car 1 0 14 Vector3.zero false] [walker (Vector3.mk 40 0 0)] 0.1 0.

(** A vehicle already offline in front of one that is not. *)
Definition wreck_scene : Scenario.t :=
  Scenario.mk [car 1 21 0 Vector3.zero true; car 1 0 14 (Vector3.mk 5 0 0) false] [] 0.1 0.

(** ** Notions of the further properties *)

(** Contact: an online other vehicle or a human closer than one unit. *)
Definition contact (vs : list Vehicle.t) (hs : list Human.t) (k : nat) (vehicle : Vehicle.t)
  : Prop :=
  (exists other, In other (Scenario.others k vs) /\ Vehicle.offline other = false /\
     Vector3.magnitude (Vector3.sub (Vehicle.position other) (Vehicle.position vehicle)) < 1) \/
  (exists human, In human hs /\
     Vector3.magnitude (Vector3.sub (Human.position human) (Vehicle.position vehicle)) < 1).

(** The attributes fixed at construction. *)
Definition same_make (veh veh' : Vehicle.t) : Prop :=
  Vehicle.v veh' = Vehicle.v veh /\
  Vehicle.a veh' = Vehicle.a veh /\
  Vehicle.priority veh' = Vehicle.priority veh /\
  Vehicle.tick veh' = Vehicle.tick veh.

(** The vehicle that [reset] builds at index [k]. *)
Definition fresh (tick : R) (d : Scenario.Draws) (k : nat) : Vehicle.t :=
  Vehicle.mk 14 7 (Scenario.drawn_priority d k) tick 0.0
    (Vector3.neg (Vector3.normalized (Scenario.start d k)))
    (Scenario.start d k)
    (Scenario.drawn_speed d k)
    false.

(** The draws of a reset of two vehicles and one human. *)
Definition test_draws : Scenario.Draws :=
  Scenario.mkDraws (fun k => Vector3.mk (10 + INR k) 0 0) (fun _ => 2) (fun _ => 7)
                   (fun _ => Vector3.mk 1 2 3) (fun _ => Vector3.mk 0 1 0).

(** The vehicles that phase 1 moves: those not offline. *)
Definition online (vs : list Vehicle.t) : list Vehicle.t :=
  filter (fun veh => negb (Vehicle.offline veh)) vs.

(** * Properties *)

(** ** Tactics and basic facts about the comparisons *)

Lemma Rltb_true (x y : R) : Rltb x y = true <-> x < y.
Proof. unfold Rltb; destruct (Rlt_dec x y); split; intros; try lra; congruence. Qed.

Lemma Rltb_false (x y : R) : Rltb x y = false <-> y <= x.
Proof. unfold Rltb; destruct (Rlt_dec x y); split; intros; try lra; congruence. Qed.

Lemma Rleb_true (x y : R) : Rleb x y = true <-> x <= y.
Proof. unfold Rleb; destruct (Rle_dec x y); split; intros; try lra; congruence. Qed.

Lemma Rleb_false (x y : R) : Rleb x y = false <-> y < x.
Proof. unfold Rleb; destruct (Rle_dec x y); split; intros; try lra; congruence. Qed.

Lemma truthy_true (r : R) : Scenario.truthy r = true <-> r <> 0.
Proof.
  unfold Scenario.truthy, Reqb; destruct (Req_dec_T r 0); simpl; split; intros; congruence.
Qed.

Lemma truthy_zero : Scenario.truthy 0.0 = false.
Proof.
  unfold Scenario.truthy, Reqb; destruct (Req_dec_T 0.0 0); simpl; [reflexivity | lra].
Qed.

(** ** The builtin [min] on a list without NaN *)

Lemma flt_irrefl (x : float64) : flt x x = false.
Proof. destruct x; simpl; try reflexivity. apply Rltb_false; lra. Qed.

Lemma flt_chain (x m r : float64) :
  m <> NaN -> flt x m = false -> flt m r = false -> flt x r = false.
Proof.
  destruct x, m, r; simpl; intros Hm H1 H2; try reflexivity; try congruence.
  apply Rltb_false in H1, H2. apply Rltb_false. lra.
Qed.

Lemma flt_true_weaken (x m : float64) : flt x m = true -> flt m x = false.
Proof.
  destruct x, m; simpl; intros H; try reflexivity; try congruence.
  apply Rltb_true in H. apply Rltb_false. lra.
Qed.

Lemma min_from_spec (l : list float64) :
  forall m, (forall x, In x (m :: l) -> x <> NaN) ->
    In (min_from m l) (m :: l) /\
    (forall x, In x (m :: l) -> flt x (min_from m l) = false).
Proof.
  induction l as [| y l IH]; intros m Hnan; simpl min_from.
  - split; [left; reflexivity |].
    intros x [<- | []]; apply flt_irrefl.
  - set (m' := if flt y m then y else m).
    assert (Hm' : m' = y \/ m' = m) by (unfold m'; destruct (flt y m); auto).
    assert (Hnan' : forall x, In x (m' :: l) -> x <> NaN).
    { intros x [<- | Hx]; [| apply Hnan; simpl; auto].
      destruct Hm' as [-> | ->]; apply Hnan; simpl; auto. }
    destruct (IH m' Hnan') as (Hin & Hle).
    assert (Hm : flt m m' = false /\ flt y m' = false).
    { unfold m'. destruct (flt y m) eqn:E.
      - split; [apply flt_true_weaken; exact E | apply flt_irrefl].
      - split; [apply flt_irrefl | exact E]. }
    split.
    + destruct Hin as [Hin | Hin]; [| simpl; auto].
      rewrite <- Hin. destruct Hm' as [-> | ->]; simpl; auto.
    + intros x [<- | [<- | Hx]].
      * apply flt_chain with (m := m'); [apply Hnan'; simpl; auto | tauto |].
        apply Hle; simpl; auto.
      * apply flt_chain with (m := m'); [apply Hnan'; simpl; auto | tauto |].
        apply Hle; simpl; auto.
      * apply Hle; simpl; auto.
Qed.

Lemma py_min_spec (l : list float64) :
  (forall x, In x l -> x <> NaN) ->
  l <> [] ->
  exists r, py_min l = Some r /\ In r l /\ (forall x, In x l -> flt x r = false).
Proof.
  intros Hnan Hne. destruct l as [| m l]; [congruence |].
  exists (min_from m l). split; [reflexivity |].
  apply min_from_spec; exact Hnan.
Qed.

Lemma py_min_none (l : list float64) : py_min l = None <-> l = [].
Proof. destruct l; simpl; split; intros; congruence. Qed.

(** On a list without NaN the smallest value is unique, whatever its
    position. *)
Lemma least_unique (l : list float64) (r r' : float64) :
  In r l -> In r' l -> r <> NaN -> r' <> NaN ->
  (forall x, In x l -> flt x r = false) ->
  (forall x, In x l -> flt x r' = false) ->
  r = r'.
Proof.
  intros Hr Hr' Hn Hn' Hle Hle'.
  specialize (Hle r' Hr'). specialize (Hle' r Hr).
  destruct r, r'; simpl in *; try congruence.
  apply Rltb_false in Hle, Hle'. f_equal. lra.
Qed.

Lemma ge0_not_nan (x : float64) : ge0 x = true -> x <> NaN.
Proof. destruct x; simpl; congruence. Qed.

Lemma filter_ge0_not_nan (l : list float64) (x : float64) :
  In x (filter ge0 l) -> x <> NaN.
Proof. intros H. apply filter_In in H. apply ge0_not_nan, H. Qed.

(** ** Zone.constraint *)

Lemma np_div_nonzero (a b : R) : b <> 0 -> np_div a b = Fin (a / b).
Proof. intros H. unfold np_div. destruct (Req_dec_T b 0); [contradiction | reflexivity]. Qed.

Lemma np_div_fin_inv (a b c : R) : np_div a b = Fin c -> b <> 0 /\ c * b = a.
Proof.
  unfold np_div. destruct (Req_dec_T b 0) as [E | E].
  - destruct (Rlt_dec 0 a); [discriminate |]. destruct (Rlt_dec a 0); discriminate.
  - intros H. injection H as <-. split; [exact E | field; exact E].
Qed.

(** A zero component never yields a finite ratio. *)
Lemma np_div_zero (a : R) :
  np_div a 0 = PInf \/ np_div a 0 = NInf \/ np_div a 0 = NaN.
Proof.
  unfold np_div. destruct (Req_dec_T 0 0) as [_ | E]; [| contradiction E; reflexivity].
  destruct (Rlt_dec 0 a); auto. destruct (Rlt_dec a 0); auto.
Qed.

(** Along an axis with a non-zero component one of the two ratios is finite
    and non-negative. *)
Lemma axis_candidate (lo hi dk : R) :
  0 <= lo -> 0 <= hi -> dk <> 0 ->
  exists q, In (Fin q) (filter ge0 [np_div (- lo) dk; np_div hi dk]) /\ 0 <= q.
Proof.
  intros Hlo Hhi Hd. rewrite !np_div_nonzero by exact Hd.
  destruct (Rlt_dec 0 dk) as [Hpos | Hneg].
  - exists (hi / dk).
    assert (Hq : 0 <= hi / dk).
    { apply Rmult_le_pos; [lra |]. left. apply Rinv_0_lt_compat. exact Hpos. }
    split; [| exact Hq].
    apply filter_In. split; [simpl; auto |]. simpl. apply Rleb_true. exact Hq.
  - exists (- lo / dk).
    assert (Hq : 0 <= - lo / dk).
    { assert (H : - lo / dk = lo * / (- dk)) by (field; exact Hd).
      rewrite H. apply Rmult_le_pos; [lra |]. left. apply Rinv_0_lt_compat. lra. }
    split; [| exact Hq].
    apply filter_In. split; [simpl; auto |]. simpl. apply Rleb_true. exact Hq.
Qed.

(** If nothing non-negative among the two ratios of an axis is below [c],
    then [c] units along the direction stay between the two bounds. *)
Lemma axis_inside (lo hi dk c : R) :
  0 <= lo -> 0 <= hi -> 0 <= c ->
  (forall x, In x (filter ge0 [np_div (- lo) dk; np_div hi dk]) -> flt x (Fin c) = false) ->
  - lo <= 0 + dk * c <= hi.
Proof.
  intros Hlo Hhi Hc Hmin.
  destruct (Req_dec_T dk 0) as [-> | Hd]; [lra |].
  rewrite !np_div_nonzero in Hmin by exact Hd.
  destruct (Rlt_dec 0 dk) as [Hpos | Hneg].
  - assert (Hq : 0 <= hi / dk).
    { apply Rmult_le_pos; [lra |]. left. apply Rinv_0_lt_compat. exact Hpos. }
    assert (Hle : flt (Fin (hi / dk)) (Fin c) = false).
    { apply Hmin. apply filter_In. split; [simpl; auto |]. apply Rleb_true. exact Hq. }
    simpl in Hle. apply Rltb_false in Hle.
    assert (E : hi / dk * dk = hi) by (field; exact Hd).
    nra.
  - assert (Hq : 0 <= - lo / dk).
    { assert (H : - lo / dk = lo * / (- dk)) by (field; exact Hd).
      rewrite H. apply Rmult_le_pos; [lra |]. left. apply Rinv_0_lt_compat. lra. }
    assert (Hle : flt (Fin (- lo / dk)) (Fin c) = false).
    { apply Hmin. apply filter_In. split; [simpl; auto |]. apply Rleb_true. exact Hq. }
    simpl in Hle. apply Rltb_false in Hle.
    assert (E : - lo / dk * dk = - lo) by (field; exact Hd).
    nra.
Qed.

Lemma constraints_in (zn : Zone.t) (d : Vec) (x : float64) :
  In x (filter ge0 (Zone.constraints zn d)) <->
  In x (filter ge0 (Zone.constraints_x zn d)) \/
  In x (filter ge0 (Zone.constraints_y zn d)) \/
  In x (filter ge0 (Zone.constraints_z zn d)).
Proof.
  unfold Zone.constraints. rewrite !filter_app, !in_app_iff. tauto.
Qed.

(** With a non-zero component in the direction, [constraint] returns a
    finite non-negative distance, the least of the non-negative ratios. *)
Lemma constraint_finite (zn : Zone.t) (d : Vec) :
  Zone.wf zn ->
  Vector3.x d <> 0 \/ Vector3.y d <> 0 \/ Vector3.z d <> 0 ->
  exists c, Zone.constraint zn d = Some (Fin c) /\ 0 <= c /\
            In (Fin c) (filter ge0 (Zone.constraints zn d)) /\
            (forall x, In x (filter ge0 (Zone.constraints zn d)) -> flt x (Fin c) = false).
Proof.
  intros (Hlx & Hhx & Hly & Hhy & Hlz & Hhz) Hd.
  assert (Hq : exists q, In (Fin q) (filter ge0 (Zone.constraints zn d)) /\ 0 <= q).
  { destruct Hd as [Hd | [Hd | Hd]].
    - destruct (axis_candidate _ _ _ Hlx Hhx Hd) as (q & Hin & Hq).
      exists q. split; [apply constraints_in; auto | exact Hq].
    - destruct (axis_candidate _ _ _ Hly Hhy Hd) as (q & Hin & Hq).
      exists q. split; [apply constraints_in; auto | exact Hq].
    - destruct (axis_candidate _ _ _ Hlz Hhz Hd) as (q & Hin & Hq).
      exists q. split; [apply constraints_in; auto | exact Hq]. }
  destruct Hq as (q & Hqin & Hq).
  destruct (py_min_spec (filter ge0 (Zone.constraints zn d))) as (r & Hr & Hin & Hle).
  { intros x. apply filter_ge0_not_nan. }
  { intros E. rewrite E in Hqin. destruct Hqin. }
  assert (Hge : ge0 r = true) by (apply filter_In in Hin; apply Hin).
  specialize (Hle _ Hqin) as Hrq.
  destruct r as [c | | |]; simpl in Hge, Hrq; try discriminate.
  exists c. unfold Zone.constraint. rewrite Hr.
  split; [reflexivity |]. split; [apply Rleb_true; exact Hge |]. split; assumption.
Qed.

Lemma unit_nonzero (d : Vec) :
  Vector3.magnitude d = 1 ->
  Vector3.x d <> 0 \/ Vector3.y d <> 0 \/ Vector3.z d <> 0.
Proof.
  intros Hmag.
  destruct (Req_dec_T (Vector3.x d) 0) as [Ex | Ex]; [| auto].
  destruct (Req_dec_T (Vector3.y d) 0) as [Ey | Ey]; [| auto].
  destruct (Req_dec_T (Vector3.z d) 0) as [Ez | Ez]; [| auto].
  exfalso. unfold Vector3.magnitude in Hmag. rewrite Ex, Ey, Ez in Hmag.
  replace (0 * 0 + 0 * 0 + 0 * 0) with 0 in Hmag by ring.
  rewrite sqrt_0 in Hmag. lra.
Qed.

Lemma constraints_face (zn : Zone.t) (d : Vec) (c : R) :
  In (Fin c) (Zone.constraints zn d) ->
  Zone.on_face zn (Vector3.add Vector3.zero (Vector3.scale d c)).
Proof.
  unfold Zone.constraints, Zone.constraints_x, Zone.constraints_y, Zone.constraints_z,
    Zone.on_face.
  simpl. intros H.
  repeat (destruct H as [H | H]; [apply np_div_fin_inv in H; destruct H as (_ & H) |]);
    try (destruct H); lra.
Qed.

(** In a NaN-free list [l], the least item is also what [min] finds in any
    part [l'] of [l] that contains it. *)
Lemma py_min_part (l l' : list float64) (r : float64) :
  (forall x, In x l' -> In x l) ->
  (forall x, In x l -> x <> NaN) ->
  In r l' ->
  (forall x, In x l -> flt x r = false) ->
  py_min l' = Some r.
Proof.
  intros Hsub Hnan Hr Hle.
  destruct (py_min_spec l') as (r' & Hmin & Hin' & Hle').
  - intros x Hx. apply Hnan, Hsub, Hx.
  - intros E. rewrite E in Hr. destruct Hr.
  - rewrite Hmin. f_equal.
    apply least_unique with (l := l'); auto.
Qed.

Lemma zero_axis_no_fin (lo hi : R) (c : R) :
  ~ In (Fin c) (filter ge0 [np_div (- lo) 0; np_div hi 0]).
Proof.
  intros H. apply filter_In in H. destruct H as (H & _).
  destruct H as [H | [H | []]].
  - destruct (np_div_zero (- lo)) as [E | [E | E]]; congruence.
  - destruct (np_div_zero hi) as [E | [E | E]]; congruence.
Qed.

(** C2: for a zone with non-negative bounds and a direction of unit length,
    [Zone.constraint] returns a finite value [c >= 0], and the point
    [origin + direction * c] lies on the surface of the box
    [[-lo_x, hi_x] x [-lo_y, hi_y] x [-lo_z, hi_z]]: inside the box and on
    one of its six face planes. *)
Theorem constraint_reaches_surface (zn : Zone.t) (d : Vec) :
  Zone.wf zn ->
  Vector3.magnitude d = 1 ->
  exists c, Zone.constraint zn d = Some (Fin c) /\ 0 <= c /\
            Zone.on_surface zn (Vector3.add Vector3.zero (Vector3.scale d c)).
Proof.
  intros Hwf Hunit.
  destruct (constraint_finite zn d Hwf (unit_nonzero d Hunit)) as (c & Hc & Hpos & Hin & Hle).
  exists c. split; [exact Hc |]. split; [exact Hpos |].
  destruct Hwf as (Hlx & Hhx & Hly & Hhy & Hlz & Hhz).
  split.
  - unfold Zone.inside. simpl. repeat split.
    all: try (apply (axis_inside (Zone.lo_x zn) (Zone.hi_x zn)); auto;
              intros x Hx; apply Hle, constraints_in; auto).
    all: try (apply (axis_inside (Zone.lo_y zn) (Zone.hi_y zn)); auto;
              intros x Hx; apply Hle, constraints_in; auto).
    all: try (apply (axis_inside (Zone.lo_z zn) (Zone.hi_z zn)); auto;
              intros x Hx; apply Hle, constraints_in; auto).
  - apply constraints_face. apply filter_In in Hin. apply Hin.
Qed.

Lemma constraint_reaches_surface_witness :
  exists c,
    Zone.constraint (Zone.mk 0.7 0.7 0.7 0.7 0.7 0.7) (Vector3.mk 1 0 0) = Some (Fin c) /\
    0 <= c /\
    Zone.on_surface (Zone.mk 0.7 0.7 0.7 0.7 0.7 0.7)
      (Vector3.add Vector3.zero (Vector3.scale (Vector3.mk 1 0 0) c)).
Proof.
  apply constraint_reaches_surface.
  - unfold Zone.wf; simpl; lra.
  - unfold Vector3.magnitude; simpl.
    replace (1 * 1 + 0 * 0 + 0 * 0) with 1 by ring. apply sqrt_1.
Defined.

(** C9: for a zone with non-negative bounds and a direction with a non-zero
    component, [Zone.constraint] does not raise: it returns a finite value.
    A division by a zero component gives an infinity or NaN, never an
    error and never a finite ratio, and the axis of a zero component
    contributes nothing: the result is the least non-negative ratio of the
    other two axes.  The only failure of [constraint], for any zone and
    direction, is the [ValueError] of [min] when no ratio is
    non-negative. *)
Theorem constraint_total (zn : Zone.t) (d : Vec) :
  Zone.wf zn ->
  Vector3.x d <> 0 \/ Vector3.y d <> 0 \/ Vector3.z d <> 0 ->
  (exists c, Zone.constraint zn d = Some (Fin c)) /\
  (forall a, np_div a 0 = PInf \/ np_div a 0 = NInf \/ np_div a 0 = NaN) /\
  (Vector3.x d = 0 ->
   Zone.constraint zn d =
   py_min (filter ge0 (Zone.constraints_y zn d ++ Zone.constraints_z zn d))) /\
  (Vector3.y d = 0 ->
   Zone.constraint zn d =
   py_min (filter ge0 (Zone.constraints_x zn d ++ Zone.constraints_z zn d))) /\
  (Vector3.z d = 0 ->
   Zone.constraint zn d =
   py_min (filter ge0 (Zone.constraints_x zn d ++ Zone.constraints_y zn d))) /\
  (forall zn' d', Zone.constraint zn' d' = None <->
                  forall q, In q (Zone.constraints zn' d') -> ge0 q = false).
Proof.
  intros Hwf Hd.
  destruct (constraint_finite zn d Hwf Hd) as (c & Hc & Hpos & Hin & Hle).
  assert (Hnan : forall x, In x (filter ge0 (Zone.constraints zn d)) -> x <> NaN)
    by (intros x; apply filter_ge0_not_nan).
  apply constraints_in in Hin as Hin3.
  split; [exists c; exact Hc |].
  split; [exact np_div_zero |].
  split; [| split; [| split]].
  - intros E. rewrite Hc. symmetry.
    apply py_min_part with (l := filter ge0 (Zone.constraints zn d)); auto.
    + intros x. rewrite filter_app, in_app_iff, constraints_in. tauto.
    + rewrite filter_app, in_app_iff.
      destruct Hin3 as [H | H]; [| exact H].
      exfalso. unfold Zone.constraints_x in H. rewrite E in H.
      exact (zero_axis_no_fin _ _ _ H).
  - intros E. rewrite Hc. symmetry.
    apply py_min_part with (l := filter ge0 (Zone.constraints zn d)); auto.
    + intros x. rewrite filter_app, in_app_iff, constraints_in. tauto.
    + rewrite filter_app, in_app_iff.
      destruct Hin3 as [H | [H | H]]; [auto | | auto].
      exfalso. unfold Zone.constraints_y in H. rewrite E in H.
      exact (zero_axis_no_fin _ _ _ H).
  - intros E. rewrite Hc. symmetry.
    apply py_min_part with (l := filter ge0 (Zone.constraints zn d)); auto.
    + intros x. rewrite filter_app, in_app_iff, constraints_in. tauto.
    + rewrite filter_app, in_app_iff.
      destruct Hin3 as [H | [H | H]]; [auto | auto |].
      exfalso. unfold Zone.constraints_z in H. rewrite E in H.
      exact (zero_axis_no_fin _ _ _ H).
  - intros zn' d'. unfold Zone.constraint. rewrite py_min_none. split.
    + intros E q Hq. destruct (ge0 q) eqn:G; [| reflexivity].
      assert (H : In q (filter ge0 (Zone.constraints zn' d'))) by (apply filter_In; auto).
      rewrite E in H. destruct H.
    + intros H. destruct (filter ge0 (Zone.constraints zn' d')) as [| q l] eqn:E; [reflexivity |].
      assert (Hq : In q (filter ge0 (Zone.constraints zn' d'))) by (rewrite E; simpl; auto).
      apply filter_In in Hq. destruct Hq as (Hq & G). rewrite (H q Hq) in G. discriminate.
Qed.

Lemma constraint_total_witness :
  (exists c, Zone.constraint (Zone.mk 0.7 0.7 0 0 0.7 0.7) (Vector3.mk 0 0 (-1)) = Some (Fin c)).
Proof.
  apply (constraint_total (Zone.mk 0.7 0.7 0 0 0.7 0.7) (Vector3.mk 0 0 (-1))).
  - unfold Zone.wf; simpl; lra.
  - simpl. right. right. lra.
Defined.

(** ** Vehicle.move *)

Lemma constraint_ge0 (zn : Zone.t) (d : Vec) (c : float64) :
  Zone.constraint zn d = Some c -> ge0 c = true.
Proof.
  unfold Zone.constraint. intros H.
  destruct (py_min_spec (filter ge0 (Zone.constraints zn d))) as (r & Hr & Hin & _).
  - intros x. apply filter_ge0_not_nan.
  - intros E. rewrite E in H. discriminate.
  - rewrite Hr in H. injection H as <-. apply filter_In in Hin. apply Hin.
Qed.

Lemma raw_acceleration_fin (tick vi c : R) :
  raw_acceleration tick vi (Fin c) = Fin (2 / tick ^ 2 * (c - vi * tick)).
Proof. reflexivity. Qed.

Lemma two_over_sqr_pos (tick : R) : 0 < tick -> 0 < 2 / tick ^ 2.
Proof.
  intros H. apply Rdiv_lt_0_compat; [lra |]. apply pow_lt. exact H.
Qed.

Lemma lower_bound_nonpos (vi tick a : R) :
  0 <= vi -> 0 < tick -> 0 < a -> - Rmin (vi / tick) a <= 0.
Proof.
  intros Hvi Htick Ha.
  assert (0 <= vi / tick).
  { apply Rmult_le_pos; [exact Hvi |]. left. apply Rinv_0_lt_compat. exact Htick. }
  unfold Rmin. destruct (Rle_dec (vi / tick) a); lra.
Qed.

Lemma Rmin_Rmax_clip (x lo hi : R) :
  lo <= hi ->
  lo <= Rmin (Rmax x lo) hi <= hi /\
  (x < lo -> Rmin (Rmax x lo) hi = lo) /\
  (hi < x -> Rmin (Rmax x lo) hi = hi) /\
  (lo <= x <= hi -> Rmin (Rmax x lo) hi = x).
Proof.
  intros H. unfold Rmin, Rmax.
  destruct (Rle_dec x lo); destruct (Rle_dec _ hi); repeat split; intros; lra.
Qed.

(** For a well-formed vehicle and a constraint that passed the [>= 0]
    filter, the clipped acceleration is a real number: no NaN arises. *)
Lemma np_clip_clipped (veh : Vehicle.t) (constraint : float64) :
  Vehicle.wf veh -> 0 <= Vehicle.speed veh -> ge0 constraint = true ->
  exists acc,
    np_clip (raw_acceleration (Vehicle.tick veh) (Vehicle.speed veh) constraint)
            (- Rmin (Vehicle.speed veh / Vehicle.tick veh) (Vehicle.a veh))
            (Vehicle.a veh) = Fin acc /\
    clipped (raw_acceleration (Vehicle.tick veh) (Vehicle.speed veh) constraint)
            (- Rmin (Vehicle.speed veh / Vehicle.tick veh) (Vehicle.a veh))
            (Vehicle.a veh) acc.
Proof.
  intros (Hv & Ha & Hp & Ht) Hvi Hge.
  pose proof (two_over_sqr_pos _ Ht) as Hk.
  pose proof (lower_bound_nonpos _ _ _ Hvi Ht Ha) as Hlo.
  unfold raw_acceleration.
  destruct constraint as [c | | |]; cbn [ge0] in Hge; try discriminate;
    cbn [fsub fscale np_clip].
  - eexists. split; [reflexivity |]. unfold clipped.
    apply Rmin_Rmax_clip. lra.
  - destruct (Rlt_dec 0 (2 / Vehicle.tick veh ^ 2)) as [_ | N]; [| contradiction].
    cbn [np_clip]. eexists. split; [reflexivity |]. unfold clipped. repeat split; lra.
Qed.

Lemma kinematics_defined (veh : Vehicle.t) (constraint : float64) :
  Vehicle.wf veh -> 0 <= Vehicle.speed veh -> ge0 constraint = true ->
  exists moved vf, Vehicle.kinematics veh constraint = Ok (moved, vf).
Proof.
  intros Hwf Hvi Hge.
  destruct (np_clip_clipped veh constraint Hwf Hvi Hge) as (acc & Hclip & _).
  unfold Vehicle.kinematics. unfold raw_acceleration in Hclip. rewrite Hclip.
  destruct (_ && _); eexists; eexists; reflexivity.
Qed.

(** [move] fails exactly when [constraint] does; otherwise the outcome is
    that of [kinematics] at the clipped acceleration. *)
Lemma move_unfold (veh : Vehicle.t) (zone : Zone.t) (randomness : R) (g : Rng) :
  Vehicle.wf veh -> 0 <= Vehicle.speed veh ->
  let j := jitter (Vehicle.direction veh) (Vehicle.tick veh * randomness) g in
  match Zone.constraint zone (fst j) with
  | None => Vehicle.move veh zone randomness g = Raise ValueError
  | Some constraint =>
      exists acc,
        clipped (raw_acceleration (Vehicle.tick veh) (Vehicle.speed veh) constraint)
                (- Rmin (Vehicle.speed veh / Vehicle.tick veh) (Vehicle.a veh))
                (Vehicle.a veh) acc /\
        let fast := Rltb 0 acc
                    && Rltb (Rabs (Vehicle.v veh - Vehicle.speed veh) / acc) (Vehicle.tick veh) in
        let t := Rabs (Vehicle.v veh - Vehicle.speed veh) / acc in
        let moved :=
          if fast
          then Vehicle.speed veh * t + 1 / 2 * acc * t ^ 2 + Vehicle.v veh * (Vehicle.tick veh - t)
          else Vehicle.speed veh * Vehicle.tick veh + 1 / 2 * acc * Vehicle.tick veh ^ 2 in
        let vf :=
          if fast then Vehicle.v veh
          else Rmax (Vehicle.speed veh + acc * Vehicle.tick veh) 0 in
        Vehicle.move veh zone randomness g =
        Ok (Vehicle.mk (Vehicle.v veh) (Vehicle.a veh) (Vehicle.priority veh) (Vehicle.tick veh)
              (Vehicle.odometer veh + moved) (fst j)
              (Vector3.add (Vehicle.position veh) (Vector3.scale (fst j) moved))
              vf (Vehicle.offline veh),
            moved, snd j)
  end.
Proof.
  intros Hwf Hvi j. unfold Vehicle.move. fold j.
  destruct j as (rotated, g'). cbn [fst snd].
  destruct (Zone.constraint zone rotated) as [constraint |] eqn:Hc; [| reflexivity].
  apply constraint_ge0 in Hc.
  destruct (np_clip_clipped veh constraint Hwf Hvi Hc) as (acc & Hclip & Hspec).
  exists acc. split; [exact Hspec |].
  unfold Vehicle.kinematics. unfold raw_acceleration in Hclip. rewrite Hclip.
  destruct (Rltb 0 acc && _); reflexivity.
Qed.

(** C1: for a vehicle with current speed [vi >= 0] and any zone,
    [Vehicle.move] takes the zone constraint of the rotated direction,
    clips [a_raw = 2/tick^2 * (constraint - vi*tick)] to
    [[-min(vi/tick, a), a]] giving [a_eff], and then: if [a_eff > 0] and
    [t = |v - vi| / a_eff < tick], the distance returned is
    [(vi*t + 1/2*a_eff*t^2) + v*(tick - t)] and the final speed is [v];
    otherwise the distance is [vi*tick + 1/2*a_eff*tick^2] and the final
    speed is [max(vi + a_eff*tick, 0)].  The constraint is a number
    [c >= 0] or [+inf]; for [+inf] the raw acceleration is [+inf] and
    [a_eff = a].  When the zone has no constraint to give, [move] raises
    the [ValueError] of [Zone.constraint]. *)
Theorem move_formula (veh : Vehicle.t) (zone : Zone.t) (randomness : R) (g : Rng) :
  Vehicle.wf veh ->
  0 <= Vehicle.speed veh ->
  let vi := Vehicle.speed veh in
  let v := Vehicle.v veh in
  let a := Vehicle.a veh in
  let tick := Vehicle.tick veh in
  let rotated := fst (jitter (Vehicle.direction veh) (tick * randomness) g) in
  match Zone.constraint zone rotated with
  | None => Vehicle.move veh zone randomness g = Raise ValueError
  | Some constraint =>
      exists a_eff moved veh' g',
        Vehicle.move veh zone randomness g = Ok (veh', moved, g') /\
        Vehicle.direction veh' = rotated /\
        - Rmin (vi / tick) a <= a_eff <= a /\
        match constraint with
        | Fin c =>
            let a_raw := 2 / tick ^ 2 * (c - vi * tick) in
            0 <= c /\
            (a_raw < - Rmin (vi / tick) a -> a_eff = - Rmin (vi / tick) a) /\
            (a < a_raw -> a_eff = a) /\
            (- Rmin (vi / tick) a <= a_raw <= a -> a_eff = a_raw)
        | PInf => a_eff = a
        | NInf | NaN => False
        end /\
        (0 < a_eff /\ Rabs (v - vi) / a_eff < tick ->
         let t := Rabs (v - vi) / a_eff in
         moved = (vi * t + 1 / 2 * a_eff * t ^ 2) + v * (tick - t) /\
         Vehicle.speed veh' = v) /\
        (~ (0 < a_eff /\ Rabs (v - vi) / a_eff < tick) ->
         moved = vi * tick + 1 / 2 * a_eff * tick ^ 2 /\
         Vehicle.speed veh' = Rmax (vi + a_eff * tick) 0)
  end.
Proof.
  intros Hwf Hvi vi v a tick rotated.
  pose proof (move_unfold veh zone randomness g Hwf Hvi) as H. cbv zeta in H.
  fold tick vi v a in H. fold rotated in H.
  destruct (Zone.constraint zone rotated) as [constraint |] eqn:Hc; [| exact H].
  apply constraint_ge0 in Hc.
  destruct H as (acc & Hclip & Hmove).
  exists acc. eexists. eexists. eexists.
  split; [exact Hmove |]. split; [reflexivity |].
  split; [exact (proj1 Hclip) |].
  split.
  { destruct Hclip as (_ & Hclip).
    destruct constraint as [c | | |]; cbn [ge0] in Hc; try discriminate.
    - rewrite raw_acceleration_fin in Hclip. cbv zeta.
      split; [apply Rleb_true; exact Hc | exact Hclip].
    - unfold raw_acceleration in Hclip. cbn [fsub fscale] in Hclip.
      destruct Hwf as (_ & _ & _ & Ht).
      pose proof (two_over_sqr_pos _ Ht) as Hk. fold tick in Hk.
      destruct (Rlt_dec 0 (2 / tick ^ 2)) as [_ | N]; [exact Hclip | contradiction]. }
  cbn [Vehicle.speed].
  destruct (Rltb 0 acc) eqn:E1; cbn [andb].
  - destruct (Rltb (Rabs (v - vi) / acc) tick) eqn:E2.
    + split; [intros _; split; reflexivity |].
      intros N. exfalso. apply N. split; apply Rltb_true; assumption.
    + split; [| intros _; split; reflexivity].
      intros (_ & N). apply Rltb_true in N. congruence.
  - split; [| intros _; split; reflexivity].
    intros (N & _). apply Rltb_true in N. congruence.
Qed.

(** Neither branch of the kinematics gives a negative distance or a
    negative speed, provided the acceleration is not below [-vi/tick]. *)
Lemma kinematic_bounds (v a tick vi acc : R) :
  0 < v -> 0 < tick -> 0 <= vi ->
  - Rmin (vi / tick) a <= acc ->
  let fast := Rltb 0 acc && Rltb (Rabs (v - vi) / acc) tick in
  let t := Rabs (v - vi) / acc in
  0 <= (if fast then vi * t + 1 / 2 * acc * t ^ 2 + v * (tick - t)
        else vi * tick + 1 / 2 * acc * tick ^ 2) /\
  0 <= (if fast then v else Rmax (vi + acc * tick) 0).
Proof.
  intros Hv Ht Hvi Hlo fast t. unfold fast.
  assert (Hacc : - vi <= acc * tick).
  { assert (Hm : Rmin (vi / tick) a <= vi / tick) by apply Rmin_l.
    assert (E : vi / tick * tick = vi) by (field; lra).
    nra. }
  destruct (Rltb 0 acc) eqn:E1; cbn [andb].
  - apply Rltb_true in E1.
    destruct (Rltb (Rabs (v - vi) / acc) tick) eqn:E2.
    + apply Rltb_true in E2. fold t in E2.
      assert (Ht0 : 0 <= t).
      { unfold t. apply Rmult_le_pos; [apply Rabs_pos |].
        left. apply Rinv_0_lt_compat. exact E1. }
      assert (0 <= vi * t) by nra.
      assert (0 <= acc * t ^ 2) by nra.
      assert (0 <= v * (tick - t)) by nra.
      split; lra.
    + split; [nra | apply Rmax_r].
  - split; [nra | apply Rmax_r].
Qed.

(** C3: for a vehicle with speed [>= 0] and any zone, a call of
    [Vehicle.move] that returns leaves the speed [>= 0] and the odometer
    at least what it was, the distance returned being non-negative.  The
    only other outcome is the [ValueError] of a zone without constraint,
    raised before speed and odometer are touched. *)
Theorem move_keeps_invariants (veh : Vehicle.t) (zone : Zone.t) (randomness : R) (g : Rng) :
  Vehicle.wf veh ->
  0 <= Vehicle.speed veh ->
  match Vehicle.move veh zone randomness g with
  | Ok (veh', moved, _) =>
      0 <= Vehicle.speed veh' /\
      Vehicle.odometer veh <= Vehicle.odometer veh' /\
      Vehicle.odometer veh' = Vehicle.odometer veh + moved /\
      0 <= moved
  | Raise e =>
      e = ValueError /\
      Zone.constraint zone
        (fst (jitter (Vehicle.direction veh) (Vehicle.tick veh * randomness) g)) = None
  end.
Proof.
  intros Hwf Hvi.
  pose proof (move_unfold veh zone randomness g Hwf Hvi) as H. cbv zeta in H.
  destruct (Zone.constraint zone _) as [constraint |]; [| rewrite H; auto].
  destruct H as (acc & Hclip & ->). cbn [Vehicle.speed Vehicle.odometer].
  destruct Hwf as (Hv & Ha & Hp & Ht).
  destruct Hclip as ((Hlo & Hhi) & _).
  destruct (kinematic_bounds _ _ _ _ _ Hv Ht Hvi Hlo) as (Hd & Hs).
  repeat split; try assumption. lra.
Qed.

(** A vehicle that moved is still roadworthy; a roadworthy vehicle fails to
    move only if the zone has no constraint to give. *)

Lemma move_roadworthy (veh : Vehicle.t) (zone : Zone.t) (randomness : R) (g : Rng) :
  roadworthy veh ->
  match Vehicle.move veh zone randomness g with
  | Ok (veh', moved, _) =>
      roadworthy veh' /\ 0 <= moved /\
      Vehicle.odometer veh' = Vehicle.odometer veh + moved /\
      Vehicle.direction veh' =
        fst (jitter (Vehicle.direction veh) (Vehicle.tick veh * randomness) g)
  | Raise e =>
      Zone.constraint zone
        (fst (jitter (Vehicle.direction veh) (Vehicle.tick veh * randomness) g)) = None
  end.
Proof.
  intros (Hwf & Hvi).
  pose proof (move_unfold veh zone randomness g Hwf Hvi) as H. cbv zeta in H.
  destruct (Zone.constraint zone _) as [constraint |]; [| rewrite H; auto].
  destruct H as (acc & Hclip & ->).
  cbn [Vehicle.speed Vehicle.odometer Vehicle.direction].
  pose proof Hwf as (Hv & Ha & Hp & Ht).
  destruct Hclip as ((Hlo & Hhi) & _).
  destruct (kinematic_bounds _ _ _ _ _ Hv Ht Hvi Hlo) as (Hd & Hs).
  split; [split; [exact Hwf | exact Hs] |].
  split; [exact Hd |]. split; reflexivity.
Qed.

(** ** The scans of phase 2 *)

Section Scans.

Variable i : nat.
Variable vehicle : Vehicle.t.

Lemma see_vehicle_obs (st : Scenario.Scan) (other : Vehicle.t) :
  Scenario.obs (Scenario.see_vehicle i vehicle st other) =
  Scenario.obs st ++ vehicle_block vehicle other.
Proof.
  unfold Scenario.see_vehicle, vehicle_block.
  destruct (Vehicle.offline other); [reflexivity |].
  destruct (_ || _); [reflexivity |].
  destruct (Rltb _ 1); [reflexivity |].
  destruct (_ && _); [reflexivity |].
  destruct (_ && _); reflexivity.
Qed.

Lemma see_human_obs (st : Scenario.Scan) (human : Human.t) :
  Scenario.obs (Scenario.see_human i vehicle st human) =
  Scenario.obs st ++ human_block vehicle human.
Proof.
  unfold Scenario.see_human.
  destruct (_ || _); [reflexivity |].
  destruct (Rltb _ 1); [reflexivity |].
  destruct (_ && _); [reflexivity |].
  destruct (_ && _); reflexivity.
Qed.

Lemma see_vehicles_obs (os : list Vehicle.t) :
  forall st, Scenario.obs (fold_left (Scenario.see_vehicle i vehicle) os st) =
             Scenario.obs st ++ flat_map (vehicle_block vehicle) os.
Proof.
  induction os as [| o os IH]; intros st; simpl.
  - symmetry. apply app_nil_r.
  - rewrite IH, see_vehicle_obs, <- app_assoc. reflexivity.
Qed.

Lemma see_humans_obs (hs : list Human.t) :
  forall st, Scenario.obs (fold_left (Scenario.see_human i vehicle) hs st) =
             Scenario.obs st ++ flat_map (human_block vehicle) hs.
Proof.
  induction hs as [| h hs IH]; intros st; simpl.
  - symmetry. apply app_nil_r.
  - rewrite IH, see_human_obs, <- app_assoc. reflexivity.
Qed.

(** The list [offline] only grows at its end, so what was in it before a
    scan can be put back in front afterwards. *)
Lemma see_vehicle_shift (off : list nat) (st : Scenario.Scan) (other : Vehicle.t) :
  Scenario.see_vehicle i vehicle (shift off st) other =
  shift off (Scenario.see_vehicle i vehicle st other).
Proof.
  unfold Scenario.see_vehicle, shift; simpl.
  destruct (Vehicle.offline other); [reflexivity |].
  destruct (_ || _); [reflexivity |].
  destruct (Rltb _ 1); [simpl; rewrite app_assoc; reflexivity |].
  destruct (_ && _); [reflexivity |].
  destruct (_ && _); reflexivity.
Qed.

Lemma see_human_shift (off : list nat) (st : Scenario.Scan) (human : Human.t) :
  Scenario.see_human i vehicle (shift off st) human =
  shift off (Scenario.see_human i vehicle st human).
Proof.
  unfold Scenario.see_human, shift; simpl.
  destruct (_ || _); [reflexivity |].
  destruct (Rltb _ 1); [simpl; rewrite app_assoc; reflexivity |].
  destruct (_ && _); [reflexivity |].
  destruct (_ && _); reflexivity.
Qed.

Lemma see_vehicles_shift (off : list nat) (os : list Vehicle.t) :
  forall st, fold_left (Scenario.see_vehicle i vehicle) os (shift off st) =
             shift off (fold_left (Scenario.see_vehicle i vehicle) os st).
Proof.
  induction os as [| o os IH]; intros st; simpl; [reflexivity |].
  rewrite see_vehicle_shift. apply IH.
Qed.

Lemma see_humans_shift (off : list nat) (hs : list Human.t) :
  forall st, fold_left (Scenario.see_human i vehicle) hs (shift off st) =
             shift off (fold_left (Scenario.see_human i vehicle) hs st).
Proof.
  induction hs as [| h hs IH]; intros st; simpl; [reflexivity |].
  rewrite see_human_shift. apply IH.
Qed.

Lemma scan_init_shift (base : R) (off : list nat) :
  Scenario.scan_init i vehicle base off = shift off (Scenario.scan_init i vehicle base []).
Proof.
  unfold Scenario.scan_init, shift; simpl.
  destruct (Scenario.finished vehicle); simpl; [reflexivity |].
  rewrite app_nil_r. reflexivity.
Qed.

Lemma scan_shift (vs : list Vehicle.t) (hs : list Human.t) (base : R) (off : list nat) :
  Scenario.scan vs hs i vehicle base off = shift off (Scenario.scan vs hs i vehicle base []).
Proof.
  unfold Scenario.scan, Scenario.scan_vehicles.
  rewrite scan_init_shift, see_vehicles_shift, see_humans_shift. reflexivity.
Qed.

(** Once [warning] is non-zero or [crashed] is set, the rest of the scans
    only appends observations. *)
Lemma see_vehicle_frozen (st : Scenario.Scan) (other : Vehicle.t) :
  Scenario.truthy (Scenario.warning st) || Scenario.crashed st = true ->
  frozen st (Scenario.see_vehicle i vehicle st other).
Proof.
  intros H. unfold Scenario.see_vehicle, frozen.
  destruct (Vehicle.offline other); [simpl; auto |].
  rewrite H. simpl. auto.
Qed.

Lemma see_human_frozen (st : Scenario.Scan) (human : Human.t) :
  Scenario.truthy (Scenario.warning st) || Scenario.crashed st = true ->
  frozen st (Scenario.see_human i vehicle st human).
Proof.
  intros H. unfold Scenario.see_human, frozen. rewrite H. simpl. auto.
Qed.

Lemma frozen_stop (st st' : Scenario.Scan) :
  frozen st st' ->
  Scenario.truthy (Scenario.warning st) || Scenario.crashed st = true ->
  Scenario.truthy (Scenario.warning st') || Scenario.crashed st' = true.
Proof. intros (_ & -> & -> & _) H. exact H. Qed.

Lemma frozen_trans (st1 st2 st3 : Scenario.Scan) :
  frozen st1 st2 -> frozen st2 st3 -> frozen st1 st3.
Proof.
  unfold frozen. intros (A1 & A2 & A3 & A4) (B1 & B2 & B3 & B4).
  repeat split; congruence.
Qed.

Lemma see_vehicles_frozen (os : list Vehicle.t) :
  forall st, Scenario.truthy (Scenario.warning st) || Scenario.crashed st = true ->
             frozen st (fold_left (Scenario.see_vehicle i vehicle) os st).
Proof.
  induction os as [| o os IH]; intros st H; simpl.
  - unfold frozen; auto.
  - pose proof (see_vehicle_frozen st o H) as F1.
    eapply frozen_trans; [exact F1 |]. apply IH. eapply frozen_stop; eauto.
Qed.

Lemma see_humans_frozen (hs : list Human.t) :
  forall st, Scenario.truthy (Scenario.warning st) || Scenario.crashed st = true ->
             frozen st (fold_left (Scenario.see_human i vehicle) hs st).
Proof.
  induction hs as [| h hs IH]; intros st H; simpl.
  - unfold frozen; auto.
  - pose proof (see_human_frozen st h H) as F1.
    eapply frozen_trans; [exact F1 |]. apply IH. eapply frozen_stop; eauto.
Qed.

Lemma scan_init_inv (base : R) : scan_inv i vehicle (Scenario.scan_init i vehicle base []).
Proof.
  unfold scan_inv, Scenario.scan_init; simpl.
  destruct (Scenario.finished vehicle); simpl; repeat split; intros; try tauto;
    try discriminate; intuition congruence.
Qed.

Lemma crashed_inv (st : Scenario.Scan) (obs' : list Scenario.obsval) :
  scan_inv i vehicle st ->
  Scenario.truthy (Scenario.warning st) || Scenario.crashed st = false ->
  scan_inv i vehicle (Scenario.mkScan obs' (Scenario.reward st) true (Scenario.warning st)
              (Scenario.offline st ++ [i])).
Proof.
  intros (H1 & H2 & H3) Hstop. apply orb_false_elim in Hstop. destruct Hstop as (Hw & _).
  unfold scan_inv; simpl. repeat split.
  - intros k Hk. apply in_app_iff in Hk. destruct Hk as [Hk | [Hk | []]]; auto.
  - auto.
  - intros _. apply in_app_iff. right. simpl. auto.
  - intros _. unfold Scenario.truthy, Reqb in Hw.
    destruct (Req_dec_T (Scenario.warning st) 0); [lra | discriminate].
Qed.

Lemma warned_inv (st : Scenario.Scan) (obs' : list Scenario.obsval) (w : R) :
  scan_inv i vehicle st ->
  Scenario.truthy (Scenario.warning st) || Scenario.crashed st = false ->
  scan_inv i vehicle (Scenario.mkScan obs' (Scenario.reward st) (Scenario.crashed st) w
              (Scenario.offline st)).
Proof.
  intros (H1 & H2 & H3) Hstop. apply orb_false_elim in Hstop. destruct Hstop as (_ & Hc).
  unfold scan_inv; simpl. repeat split; auto; try apply H2.
  intros E. congruence.
Qed.

Lemma same_inv (st : Scenario.Scan) (obs' : list Scenario.obsval) (r : R) :
  scan_inv i vehicle st ->
  scan_inv i vehicle (Scenario.mkScan obs' r (Scenario.crashed st) (Scenario.warning st)
              (Scenario.offline st)).
Proof. intros H. exact H. Qed.

Lemma see_vehicle_inv (st : Scenario.Scan) (other : Vehicle.t) :
  scan_inv i vehicle st -> scan_inv i vehicle (Scenario.see_vehicle i vehicle st other).
Proof.
  intros H. unfold Scenario.see_vehicle.
  destruct (Vehicle.offline other); [apply same_inv; exact H |].
  destruct (_ || _) eqn:Hstop; [apply same_inv; exact H |].
  destruct (Rltb _ 1); [apply crashed_inv; assumption |].
  destruct (_ && _); [apply warned_inv; assumption |].
  destruct (_ && _); apply same_inv; exact H.
Qed.

Lemma see_human_inv (st : Scenario.Scan) (human : Human.t) :
  scan_inv i vehicle st -> scan_inv i vehicle (Scenario.see_human i vehicle st human).
Proof.
  intros H. unfold Scenario.see_human.
  destruct (_ || _) eqn:Hstop; [apply same_inv; exact H |].
  destruct (Rltb _ 1); [apply crashed_inv; assumption |].
  destruct (_ && _); [apply warned_inv; assumption |].
  destruct (_ && _); apply same_inv; exact H.
Qed.

Lemma see_vehicles_inv (os : list Vehicle.t) :
  forall st, scan_inv i vehicle st -> scan_inv i vehicle (fold_left (Scenario.see_vehicle i vehicle) os st).
Proof.
  induction os as [| o os IH]; intros st H; simpl; [exact H |].
  apply IH, see_vehicle_inv, H.
Qed.

Lemma see_humans_inv (hs : list Human.t) :
  forall st, scan_inv i vehicle st -> scan_inv i vehicle (fold_left (Scenario.see_human i vehicle) hs st).
Proof.
  induction hs as [| h hs IH]; intros st H; simpl; [exact H |].
  apply IH, see_human_inv, H.
Qed.

Lemma scan_inv_holds (vs : list Vehicle.t) (hs : list Human.t) (base : R) :
  scan_inv i vehicle (Scenario.scan vs hs i vehicle base []).
Proof.
  unfold Scenario.scan, Scenario.scan_vehicles.
  apply see_humans_inv, see_vehicles_inv, scan_init_inv.
Qed.

Lemma scan_obs (vs : list Vehicle.t) (hs : list Human.t) (base : R) (off : list nat) :
  Scenario.obs (Scenario.scan vs hs i vehicle base off) = layout vs hs i vehicle.
Proof.
  unfold Scenario.scan, Scenario.scan_vehicles, layout.
  rewrite see_humans_obs, see_vehicles_obs, <- app_assoc. reflexivity.
Qed.

End Scans.

(** ** One iteration of phase 2 *)

Lemma verdict_shift (off : list nat) (st : Scenario.Scan) (done : bool) :
  Scenario.verdict (shift off st) done = Scenario.verdict st done.
Proof. reflexivity. Qed.

Lemma observe_eq (vs : list Vehicle.t) (hs : list Human.t) (rewards : list R)
  (k : nat) (vehicle : Vehicle.t) (off : list nat) :
  Scenario.observe vs hs rewards k vehicle off =
  match nth_error rewards k with
  | None => Raise IndexError
  | Some base => Ok (yield_of vs hs base k vehicle, off ++ marks vs hs base k vehicle)
  end.
Proof.
  unfold Scenario.observe, yield_of, marks, width.
  destruct (Vehicle.offline vehicle); destruct (nth_error rewards k) as [base |];
    try reflexivity.
  - rewrite app_nil_r. reflexivity.
  - rewrite scan_shift, verdict_shift. reflexivity.
Qed.

Lemma marks_only (vs : list Vehicle.t) (hs : list Human.t) (base : R) (k : nat)
  (vehicle : Vehicle.t) (x : nat) :
  In x (marks vs hs base k vehicle) <-> x = k /\ goes_offline vs hs base k vehicle = true.
Proof.
  unfold marks, goes_offline.
  destruct (Vehicle.offline vehicle); simpl; [intuition discriminate |].
  destruct (scan_inv_holds k vehicle vs hs base) as (H1 & H2 & _).
  rewrite orb_true_iff. split.
  - intros H. pose proof (H1 _ H) as ->. split; [reflexivity |]. apply H2, H.
  - intros (-> & H). apply H2, H.
Qed.

(** ** The loop of phase 2 *)

Lemma observe_from_nth (vs : list Vehicle.t) (hs : list Human.t) (rewards : list R) :
  forall todo i off ys r,
    Scenario.observe_from vs hs rewards i todo off = (ys, r) ->
    forall k y, nth_error ys k = Some y ->
      exists vehicle base,
        nth_error todo k = Some vehicle /\
        nth_error rewards (i + k) = Some base /\
        y = yield_of vs hs base (i + k) vehicle.
Proof.
  induction todo as [| vehicle todo IH]; intros i off ys r H k y Hk; simpl in H.
  - injection H as <- <-. destruct k; discriminate.
  - rewrite observe_eq in H.
    destruct (nth_error rewards i) as [base |] eqn:Hb.
    + destruct (Scenario.observe_from vs hs rewards (S i) todo _) as (ys', r') eqn:E.
      injection H as <- <-.
      destruct k as [| k]; simpl in Hk.
      * injection Hk as <-. exists vehicle, base.
        rewrite Nat.add_0_r. auto.
      * destruct (IH _ _ _ _ E k y Hk) as (veh & b & A1 & A2 & A3).
        exists veh, b. rewrite Nat.add_succ_r. auto.
    + injection H as <- <-. destruct k; discriminate.
Qed.

Lemma observe_from_ok (vs : list Vehicle.t) (hs : list Human.t) (rewards : list R) :
  forall todo i off ys off',
    Scenario.observe_from vs hs rewards i todo off = (ys, Ok off') ->
    length ys = length todo /\
    (forall k vehicle, nth_error todo k = Some vehicle ->
       exists base, nth_error rewards (i + k) = Some base /\
                    nth_error ys k = Some (yield_of vs hs base (i + k) vehicle)) /\
    (forall x, In x off' <->
       In x off \/
       exists k vehicle base,
         nth_error todo k = Some vehicle /\
         nth_error rewards (i + k) = Some base /\
         x = (i + k)%nat /\
         goes_offline vs hs base (i + k) vehicle = true).
Proof.
  induction todo as [| vehicle todo IH]; intros i off ys off' H; simpl in H.
  - injection H as <- <-. split; [reflexivity |]. split.
    + intros k veh Hk. destruct k; discriminate.
    + intros x. split; [auto |].
      intros [Hx | (k & veh & base & Hk & _)]; [exact Hx |]. destruct k; discriminate.
  - rewrite observe_eq in H.
    destruct (nth_error rewards i) as [base |] eqn:Hb; [| discriminate].
    destruct (Scenario.observe_from vs hs rewards (S i) todo _) as (ys', r') eqn:E.
    injection H as <- ->.
    destruct (IH _ _ _ _ E) as (Hlen & Hnth & Hoff).
    split; [simpl; congruence |]. split.
    + intros k veh Hk. destruct k as [| k]; simpl in Hk.
      * injection Hk as <-. exists base. rewrite Nat.add_0_r. auto.
      * destruct (Hnth k veh Hk) as (b & A1 & A2).
        exists b. rewrite Nat.add_succ_r. auto.
    + intros x. rewrite Hoff, in_app_iff, marks_only. split.
      * intros [[Hx | (-> & Hg)] | (k & veh & b & A1 & A2 & A3 & A4)].
        -- auto.
        -- right. exists 0%nat, vehicle, base. rewrite Nat.add_0_r. auto.
        -- right. exists (S k), veh, b. rewrite Nat.add_succ_r. auto.
      * intros [Hx | (k & veh & b & A1 & A2 & A3 & A4)]; [auto |].
        destruct k as [| k]; simpl in A1.
        -- injection A1 as <-. rewrite Nat.add_0_r in *.
           left. right. split; [exact A3 |]. congruence.
        -- right. exists k, veh, b. rewrite Nat.add_succ_r in *. auto.
Qed.

(** The loop raises exactly when it reaches an index without a reward, after
    the tuples of all the vehicles before it. *)
Lemma observe_from_raise (vs : list Vehicle.t) (hs : list Human.t) (rewards : list R) :
  forall todo i off ys e,
    Scenario.observe_from vs hs rewards i todo off = (ys, Raise e) ->
    e = IndexError /\
    (length ys < length todo)%nat /\
    nth_error rewards (i + length ys) = None.
Proof.
  induction todo as [| vehicle todo IH]; intros i off ys e H; simpl in H.
  - discriminate.
  - rewrite observe_eq in H.
    destruct (nth_error rewards i) as [base |] eqn:Hb.
    + destruct (Scenario.observe_from vs hs rewards (S i) todo _) as (ys', r') eqn:E.
      injection H as <- ->.
      destruct (IH _ _ _ _ E) as (A1 & A2 & A3).
      split; [exact A1 |]. simpl. split; [lia |].
      rewrite Nat.add_succ_r. exact A3.
    + injection H as <- <-. simpl. split; [reflexivity |]. split; [lia |].
      rewrite Nat.add_0_r. exact Hb.
Qed.

Lemma observe_from_enough (vs : list Vehicle.t) (hs : list Human.t) (rewards : list R) :
  forall todo i off,
    (i + length todo <= length rewards)%nat ->
    exists ys off', Scenario.observe_from vs hs rewards i todo off = (ys, Ok off').
Proof.
  intros todo i off Hlen.
  destruct (Scenario.observe_from vs hs rewards i todo off) as (ys, [off' | e]) eqn:E.
  - eauto.
  - exfalso. destruct (observe_from_raise _ _ _ _ _ _ _ _ E) as (_ & A2 & A3).
    apply nth_error_None in A3. lia.
Qed.

(** ** The late update *)

Lemma switch_off_nth (j : nat) :
  forall (vs : list Vehicle.t) (k : nat),
    nth_error (Scenario.switch_off j vs) k =
    option_map (fun veh => if Nat.eqb k j then Vehicle.switch_off veh else veh)
               (nth_error vs k).
Proof.
  induction j as [| j IH]; intros [| veh vs] k; simpl.
  - destruct k; reflexivity.
  - destruct k as [| k]; simpl; [reflexivity |].
    destruct (nth_error vs k); reflexivity.
  - destruct k; reflexivity.
  - destruct k as [| k]; simpl; [reflexivity |]. apply IH.
Qed.

Lemma switch_off_twice (veh : Vehicle.t) :
  Vehicle.switch_off (Vehicle.switch_off veh) = Vehicle.switch_off veh.
Proof. reflexivity. Qed.

Lemma late_update_nth (off : list nat) :
  forall (vs : list Vehicle.t) (k : nat),
    nth_error (Scenario.late_update off vs) k =
    option_map (fun veh => if existsb (Nat.eqb k) off then Vehicle.switch_off veh else veh)
               (nth_error vs k).
Proof.
  unfold Scenario.late_update.
  induction off as [| j off IH]; intros vs k; simpl.
  - destruct (nth_error vs k); reflexivity.
  - rewrite IH, switch_off_nth.
    destruct (nth_error vs k) as [veh |]; simpl; [| reflexivity].
    destruct (Nat.eqb k j); simpl; [| reflexivity].
    destruct (existsb (Nat.eqb k) off); reflexivity.
Qed.

Lemma existsb_eqb_In (k : nat) (off : list nat) :
  existsb (Nat.eqb k) off = true <-> In k off.
Proof.
  rewrite existsb_exists. split.
  - intros (x & Hx & E). apply Nat.eqb_eq in E. congruence.
  - intros H. exists k. split; [exact H | apply Nat.eqb_refl].
Qed.

(** ** Phase 1 *)

Lemma move_fields (veh veh' : Vehicle.t) (zone : Zone.t) (randomness moved : R) (g g' : Rng) :
  Vehicle.move veh zone randomness g = Ok (veh', moved, g') ->
  Vehicle.offline veh' = Vehicle.offline veh /\
  Vehicle.v veh' = Vehicle.v veh /\
  Vehicle.a veh' = Vehicle.a veh /\
  Vehicle.priority veh' = Vehicle.priority veh /\
  Vehicle.tick veh' = Vehicle.tick veh /\
  Vehicle.odometer veh' = Vehicle.odometer veh + moved /\
  Vehicle.position veh' =
    Vector3.add (Vehicle.position veh) (Vector3.scale (Vehicle.direction veh') moved) /\
  Vehicle.direction veh' =
    fst (jitter (Vehicle.direction veh) (Vehicle.tick veh * randomness) g).
Proof.
  unfold Vehicle.move.
  destruct (jitter _ _ _) as (rotated, g1).
  destruct (Zone.constraint zone rotated) as [c |]; [| discriminate].
  destruct (Vehicle.kinematics veh c) as [(m, vf) | e]; simpl; [| discriminate].
  intros H. injection H as <- <- <-. simpl. repeat split; reflexivity.
Qed.

Lemma advance_spec :
  forall (vs : list Vehicle.t) (zones : list Zone.t) (g : Rng) vs1 rewards g1,
    Scenario.advance vs zones g = Ok (vs1, rewards, g1) ->
    length vs1 = length vs /\
    length rewards = Nat.min (length vs) (length zones) /\
    (forall k veh, nth_error vs k = Some veh ->
       exists veh1, nth_error vs1 k = Some veh1 /\ advanced zones rewards k veh veh1).
Proof.
  induction vs as [| vehicle vs IH]; intros zones g vs1 rewards g1 H.
  - simpl in H. injection H as <- <- <-. simpl. repeat split; auto.
    intros k veh Hk. destruct k; discriminate.
  - destruct zones as [| zone zones].
    + simpl in H. injection H as <- <- <-. simpl. repeat split; auto.
      intros k veh Hk. exists veh. split; [exact Hk |].
      unfold advanced. simpl. repeat split; auto; try (intros; lia).
      destruct k; reflexivity.
    + simpl in H.
      destruct (Vehicle.offline vehicle) eqn:Hoff.
      * destruct (Scenario.advance vs zones g) as [((vs', rs'), g') | e] eqn:E;
          simpl in H; [| discriminate].
        injection H as <- <- <-.
        destruct (IH _ _ _ _ _ E) as (A1 & A2 & A3).
        simpl. repeat split; try congruence.
        intros k veh Hk. destruct k as [| k]; simpl in Hk.
        -- injection Hk as <-. exists vehicle. split; [reflexivity |].
           unfold advanced. simpl. repeat split; auto; try (intros; lia).
           intros; congruence.
        -- destruct (A3 k veh Hk) as (veh1 & B1 & B2 & B3 & B4 & B5 & B6).
           exists veh1. split; [exact B1 |].
           unfold advanced. simpl. repeat split; auto.
           ++ intros H1 H2. apply B4; [exact H1 | lia].
           ++ apply B5. lia.
           ++ apply B5. lia.
           ++ intros H1 H2. apply B6; [exact H1 | lia].
      * destruct (Vehicle.move vehicle zone 0.05 g) as [((veh', moved), g1') | e] eqn:M;
          simpl in H; [| discriminate].
        destruct (Scenario.advance vs zones g1') as [((vs', rs'), g') | e] eqn:E;
          simpl in H; [| discriminate].
        injection H as <- <- <-.
        destruct (IH _ _ _ _ _ E) as (A1 & A2 & A3).
        simpl. repeat split; try congruence.
        intros k veh Hk. destruct k as [| k]; simpl in Hk.
        -- injection Hk as <-. exists veh'. split; [reflexivity |].
           pose proof (move_fields _ _ _ _ _ _ _ M) as (F1 & _).
           unfold advanced. simpl. repeat split; auto; try (intros; lia);
             try (intros; congruence).
           intros _ _. exists zone, moved, g, g1'. auto.
        -- destruct (A3 k veh Hk) as (veh1 & B1 & B2 & B3 & B4 & B5 & B6).
           exists veh1. split; [exact B1 |].
           unfold advanced. simpl. repeat split; auto.
           ++ intros H1 H2. apply B4; [exact H1 | lia].
           ++ apply B5. lia.
           ++ apply B5. lia.
           ++ intros H1 H2. apply B6; [exact H1 | lia].
Qed.

Lemma wander_length (hs : list Human.t) :
  forall g, length (fst (Scenario.wander hs g)) = length hs.
Proof.
  induction hs as [| h hs IH]; intros g; [reflexivity |].
  cbn [Scenario.wander].
  destruct (Human.move h 0.5 g) as (h', g1).
  specialize (IH g1). destruct (Scenario.wander hs g1) as (hs', g').
  cbn [fst length] in *. congruence.
Qed.

(** ** The whole tick *)

Lemma step_unfold (s : Scenario.t) (zones : list Zone.t) (g : Rng) :
  Scenario.step s zones g =
  match Scenario.advance (Scenario.vehicles s) zones g with
  | Raise e => ([], Raise e)
  | Ok (vs1, rewards, g1) =>
      let hs1 := fst (Scenario.wander (Scenario.humans s) g1) in
      let g2 := snd (Scenario.wander (Scenario.humans s) g1) in
      let ys := fst (Scenario.observe_from vs1 hs1 rewards 0 vs1 []) in
      match snd (Scenario.observe_from vs1 hs1 rewards 0 vs1 []) with
      | Raise e => (ys, Raise e)
      | Ok off =>
          (ys, Ok (Scenario.mk (Scenario.late_update off vs1) hs1 (Scenario.tick s)
                     (S (Scenario.elapsed s)), g2))
      end
  end.
Proof.
  unfold Scenario.step.
  destruct (Scenario.advance _ _ _) as [((vs1, rewards), g1) | e]; [| reflexivity].
  destruct (Scenario.wander _ _) as (hs1, g2). simpl.
  destruct (Scenario.observe_from _ _ _ _ _ _) as (ys, [off | e]); reflexivity.
Qed.

(** A tick that completes: what it yields for each vehicle and what it
    leaves of it, in terms of the state after phase 1. *)
Lemma step_ok (s s' : Scenario.t) (zones : list Zone.t) (g g' : Rng) (ys : list Scenario.Yield) :
  Scenario.step s zones g = (ys, Ok (s', g')) ->
  exists vs1 rewards g1,
    Scenario.advance (Scenario.vehicles s) zones g = Ok (vs1, rewards, g1) /\
    Scenario.humans s' = fst (Scenario.wander (Scenario.humans s) g1) /\
    length ys = length vs1 /\
    forall k veh, nth_error vs1 k = Some veh ->
      exists base,
        nth_error rewards k = Some base /\
        nth_error ys k = Some (yield_of vs1 (Scenario.humans s') base k veh) /\
        nth_error (Scenario.vehicles s') k =
          Some (if goes_offline vs1 (Scenario.humans s') base k veh
                then Vehicle.switch_off veh else veh).
Proof.
  rewrite step_unfold.
  destruct (Scenario.advance _ _ _) as [((vs1, rewards), g1) | e]; [| discriminate].
  cbv zeta.
  set (hs1 := fst (Scenario.wander (Scenario.humans s) g1)).
  destruct (Scenario.observe_from vs1 hs1 rewards 0 vs1 []) as (ys0, [off | e]) eqn:E;
    simpl; [| discriminate].
  intros H. injection H as <- <- <-. simpl.
  exists vs1, rewards, g1. split; [reflexivity |]. split; [reflexivity |].
  destruct (observe_from_ok _ _ _ _ _ _ _ _ E) as (Hlen & Hnth & Hoff).
  split; [exact Hlen |].
  intros k veh Hk. destruct (Hnth k veh Hk) as (base & B1 & B2). simpl in B1, B2.
  exists base. split; [exact B1 |]. split; [exact B2 |].
  rewrite late_update_nth, Hk. simpl. f_equal.
  destruct (goes_offline vs1 hs1 base k veh) eqn:G.
  - assert (Hin : In k off).
    { apply Hoff. right. exists k, veh, base. simpl. auto. }
    apply existsb_eqb_In in Hin. rewrite Hin. reflexivity.
  - destruct (existsb (Nat.eqb k) off) eqn:Ex; [| reflexivity].
    apply existsb_eqb_In in Ex. apply Hoff in Ex.
    destruct Ex as [[] | (k' & veh' & base' & C1 & C2 & C3 & C4)].
    simpl in C2, C3, C4. subst k'. congruence.
Qed.

(** ** Observations *)

Lemma vehicle_block_length (vehicle other : Vehicle.t) :
  length (vehicle_block vehicle other) = 8%nat.
Proof. unfold vehicle_block. destruct (Vehicle.offline other); reflexivity. Qed.

Lemma human_block_length (vehicle : Vehicle.t) (human : Human.t) :
  length (human_block vehicle human) = 4%nat.
Proof. reflexivity. Qed.

Lemma flat_map_length_const {A B : Type} (f : A -> list B) (n : nat) (l : list A) :
  (forall a, length (f a) = n) -> length (flat_map f l) = (n * length l)%nat.
Proof.
  intros H. induction l as [| a l IH]; simpl; [lia |].
  rewrite length_app, H, IH. lia.
Qed.

Lemma others_length (k : nat) (vs : list Vehicle.t) :
  (k < length vs)%nat -> length (Scenario.others k vs) = (length vs - 1)%nat.
Proof.
  intros H. unfold Scenario.others.
  rewrite length_app, length_firstn, length_skipn. lia.
Qed.

Lemma layout_length (vs : list Vehicle.t) (hs : list Human.t) (k : nat) (vehicle : Vehicle.t) :
  (k < length vs)%nat ->
  length (layout vs hs k vehicle) = (4 + 8 * (length vs - 1) + 4 * length hs)%nat.
Proof.
  intros H. unfold layout. rewrite !length_app.
  rewrite (flat_map_length_const _ 8) by apply vehicle_block_length.
  rewrite (flat_map_length_const _ 4) by apply human_block_length.
  rewrite others_length by exact H. reflexivity.
Qed.

Lemma verdict_obs (st : Scenario.Scan) (done : bool) :
  fst (fst (Scenario.verdict st done)) = Scenario.obs st.
Proof.
  unfold Scenario.verdict.
  destruct (Scenario.crashed st); [reflexivity |].
  destruct (Scenario.truthy _); reflexivity.
Qed.

Lemma yield_of_obs (vs : list Vehicle.t) (hs : list Human.t) (base : R) (k : nat)
  (vehicle : Vehicle.t) :
  fst (fst (yield_of vs hs base k vehicle)) =
  if Vehicle.offline vehicle
  then repeat (Scenario.F 0) (4 + 8 * (length vs - 1) + 4 * length hs)
  else layout vs hs k vehicle.
Proof.
  unfold yield_of. destruct (Vehicle.offline vehicle); [reflexivity |].
  rewrite verdict_obs. apply scan_obs.
Qed.

(** Every tuple that [step] yields, whether or not the generator later
    raises, is the one computed for the vehicle of the same index in the
    state left by phase 1. *)
Lemma step_yield (s : Scenario.t) (zones : list Zone.t) (g : Rng) (k : nat) (y : Scenario.Yield) :
  nth_error (fst (Scenario.step s zones g)) k = Some y ->
  exists vs1 rewards g1 vehicle base,
    Scenario.advance (Scenario.vehicles s) zones g = Ok (vs1, rewards, g1) /\
    nth_error vs1 k = Some vehicle /\
    nth_error rewards k = Some base /\
    y = yield_of vs1 (fst (Scenario.wander (Scenario.humans s) g1)) base k vehicle.
Proof.
  rewrite step_unfold.
  destruct (Scenario.advance _ _ _) as [((vs1, rewards), g1) | e];
    [| destruct k; discriminate].
  cbv zeta.
  set (hs1 := fst (Scenario.wander (Scenario.humans s) g1)).
  destruct (Scenario.observe_from vs1 hs1 rewards 0 vs1 []) as (ys, r) eqn:E.
  intros H.
  assert (Hk : nth_error ys k = Some y) by (destruct r; exact H).
  destruct (observe_from_nth _ _ _ _ _ _ _ _ E k y Hk) as (vehicle & base & A1 & A2 & A3).
  exists vs1, rewards, g1, vehicle, base. auto.
Qed.

(** C4: in a scenario of N vehicles and M humans every tuple yielded by
    [step] carries an observation of length [4 + 8*(N-1) + 4*M].  For a
    vehicle that is already offline the observation is that many zeros;
    otherwise it is, in this order, the vehicle's own direction and speed,
    then for each other vehicle in list order eight zeros (offline) or
    displacement, direction, speed and priority, then for each human the
    displacement and the flag [feared] (all read in the state after the
    moves of phase 1). *)
Theorem step_observation_layout (s : Scenario.t) (zones : list Zone.t) (g : Rng)
  (k : nat) (y : Scenario.Yield) :
  nth_error (fst (Scenario.step s zones g)) k = Some y ->
  length (fst (fst y)) =
    (4 + 8 * (length (Scenario.vehicles s) - 1) + 4 * length (Scenario.humans s))%nat /\
  exists vs1 rewards g1 vehicle,
    Scenario.advance (Scenario.vehicles s) zones g = Ok (vs1, rewards, g1) /\
    nth_error vs1 k = Some vehicle /\
    fst (fst y) =
      if Vehicle.offline vehicle
      then repeat (Scenario.F 0)
             (4 + 8 * (length (Scenario.vehicles s) - 1) + 4 * length (Scenario.humans s))
      else layout vs1 (fst (Scenario.wander (Scenario.humans s) g1)) k vehicle.
Proof.
  intros H.
  destruct (step_yield s zones g k y H) as (vs1 & rewards & g1 & vehicle & base & A1 & A2 & A3 & ->).
  destruct (advance_spec _ _ _ _ _ _ A1) as (Hlen & _ & _).
  pose proof (wander_length (Scenario.humans s) g1) as Hh.
  assert (Hk : (k < length vs1)%nat) by (apply nth_error_Some; congruence).
  rewrite yield_of_obs, Hlen, Hh.
  split.
  - destruct (Vehicle.offline vehicle).
    + apply repeat_length.
    + rewrite layout_length by exact Hk. rewrite Hlen, Hh. reflexivity.
  - exists vs1, rewards, g1, vehicle. auto.
Qed.

(** C7: for a vehicle that is not offline when phase 2 reaches it, the
    tuple yielded is [(obs, -5.0, true)] if the scans set [crashed];
    otherwise [(obs, -warning, false)] if [warning] is non-zero; otherwise
    [(obs, reward, done)], where [done] is true exactly when the odometer
    test [odometer >= 20] succeeded. *)
Theorem yield_precedence (s : Scenario.t) (zones : list Zone.t) (g : Rng)
  (k : nat) (y : Scenario.Yield) :
  nth_error (fst (Scenario.step s zones g)) k = Some y ->
  exists vs1 rewards g1 vehicle base,
    Scenario.advance (Scenario.vehicles s) zones g = Ok (vs1, rewards, g1) /\
    nth_error vs1 k = Some vehicle /\
    nth_error rewards k = Some base /\
    (Vehicle.offline vehicle = false ->
     let st := Scenario.scan vs1 (fst (Scenario.wander (Scenario.humans s) g1))
                 k vehicle base [] in
     (Scenario.crashed st = true -> y = (Scenario.obs st, -5.0, true)) /\
     (Scenario.crashed st = false -> Scenario.warning st <> 0 ->
      y = (Scenario.obs st, - Scenario.warning st, false)) /\
     (Scenario.crashed st = false -> Scenario.warning st = 0 ->
      exists done, y = (Scenario.obs st, Scenario.reward st, done) /\
                   (done = true <-> 20 <= Vehicle.odometer vehicle))).
Proof.
  intros H.
  destruct (step_yield s zones g k y H) as (vs1 & rewards & g1 & vehicle & base & A1 & A2 & A3 & ->).
  exists vs1, rewards, g1, vehicle, base.
  split; [exact A1 |]. split; [exact A2 |]. split; [exact A3 |].
  intros Hoff st. unfold yield_of. rewrite Hoff. fold st. unfold Scenario.verdict.
  split; [| split].
  - intros ->. reflexivity.
  - intros -> Hw. apply truthy_true in Hw. rewrite Hw. reflexivity.
  - intros -> Hw.
    assert (Ht : Scenario.truthy (Scenario.warning st) = false).
    { destruct (Scenario.truthy _) eqn:E; [| reflexivity].
      apply truthy_true in E. contradiction. }
    rewrite Ht. exists (Scenario.finished vehicle). split; [reflexivity |].
    unfold Scenario.finished. apply Rleb_true.
Qed.

(** ** Too few zones *)

(** C5, as amended: when the zone source yields fewer zones than there are
    vehicles, phase 1 leaves the vehicles without a zone as they are and
    records no reward for them; phase 2 then yields the tuples of the
    vehicles that had a zone and raises [IndexError] at the first vehicle
    without one, so the generator ends with an exception and the late
    update is not run.  (If phase 1 itself raises, nothing is yielded.) *)
Theorem short_zones_raise (s : Scenario.t) (zones : list Zone.t) (g : Rng) :
  (length zones < length (Scenario.vehicles s))%nat ->
  match Scenario.advance (Scenario.vehicles s) zones g with
  | Raise e => Scenario.step s zones g = ([], Raise e)
  | Ok (vs1, rewards, g1) =>
      (forall k veh, nth_error (Scenario.vehicles s) k = Some veh ->
                     (length zones <= k)%nat ->
                     nth_error vs1 k = Some veh /\ nth_error rewards k = None) /\
      exists ys, Scenario.step s zones g = (ys, Raise IndexError) /\
                 length ys = length zones
  end.
Proof.
  intros Hshort. rewrite step_unfold.
  destruct (Scenario.advance _ _ _) as [((vs1, rewards), g1) | e] eqn:A; [| reflexivity].
  destruct (advance_spec _ _ _ _ _ _ A) as (Hlen & Hrew & Hadv).
  split.
  - intros k veh Hk Hge. destruct (Hadv k veh Hk) as (veh1 & B1 & _ & _ & _ & B2 & _).
    destruct (B2 Hge) as (-> & B3). auto.
  - cbv zeta.
    set (hs1 := fst (Scenario.wander (Scenario.humans s) g1)).
    destruct (Scenario.observe_from vs1 hs1 rewards 0 vs1 []) as (ys, [off | e]) eqn:E; simpl.
    + exfalso. destruct (observe_from_ok _ _ _ _ _ _ _ _ E) as (_ & Hnth & _).
      destruct (nth_error vs1 (length zones)) as [veh |] eqn:N.
      * destruct (Hnth _ _ N) as (base & B & _). simpl in B.
        assert (length zones < length rewards)%nat by (apply nth_error_Some; congruence).
        lia.
      * apply nth_error_None in N. lia.
    + destruct (observe_from_raise _ _ _ _ _ _ _ _ E) as (-> & Hlt & Hnone).
      exists ys. split; [reflexivity |].
      simpl in Hnone. apply nth_error_None in Hnone.
      assert (Hle : (length ys <= length rewards)%nat).
      { destruct (Nat.le_gt_cases (length ys) (length rewards)) as [L | L]; [exact L |].
        exfalso.
        destruct (nth_error ys (length rewards)) as [y |] eqn:N.
        - destruct (observe_from_nth _ _ _ _ _ _ _ _ E _ _ N) as (veh & base & _ & B & _).
          simpl in B.
          assert (length rewards < length rewards)%nat by (apply nth_error_Some; congruence).
          lia.
        - apply nth_error_None in N. lia. }
      lia.
Qed.

(** ** Offline vehicles *)

Lemma switch_off_length (j : nat) :
  forall vs, length (Scenario.switch_off j vs) = length vs.
Proof.
  induction j as [| j IH]; intros [| veh vs]; simpl; auto.
Qed.

Lemma late_update_length (off : list nat) :
  forall vs, length (Scenario.late_update off vs) = length vs.
Proof.
  unfold Scenario.late_update.
  induction off as [| j off IH]; intros vs; simpl; [reflexivity |].
  rewrite IH. apply switch_off_length.
Qed.

Lemma step_lengths (s s' : Scenario.t) (zones : list Zone.t) (g g' : Rng)
  (ys : list Scenario.Yield) :
  Scenario.step s zones g = (ys, Ok (s', g')) ->
  length (Scenario.vehicles s') = length (Scenario.vehicles s) /\
  length (Scenario.humans s') = length (Scenario.humans s) /\
  length ys = length (Scenario.vehicles s).
Proof.
  intros H. pose proof H as H0. rewrite step_unfold in H.
  destruct (Scenario.advance _ _ _) as [((vs1, rewards), g1) | e] eqn:A; [| discriminate].
  destruct (advance_spec _ _ _ _ _ _ A) as (Hlen & _ & _).
  cbv zeta in H.
  destruct (snd (Scenario.observe_from _ _ _ _ _ _)) as [off | e] eqn:E; [| discriminate].
  injection H as Hys <- <-. simpl.
  rewrite late_update_length, wander_length.
  destruct (step_ok _ _ _ _ _ _ H0) as (vs1' & rewards' & g1' & A' & _ & L & _).
  rewrite A in A'. injection A' as <- <- <-.
  repeat split; congruence.
Qed.

Lemma skipn_repeat {A : Type} (a : A) (m n : nat) :
  skipn m (repeat a n) = repeat a (n - m).
Proof.
  revert n. induction m as [| m IH]; intros n; simpl.
  - rewrite Nat.sub_0_r. reflexivity.
  - destruct n as [| n]; simpl; [reflexivity | apply IH].
Qed.

Lemma firstn_repeat {A : Type} (a : A) (m n : nat) :
  (m <= n)%nat -> firstn m (repeat a n) = repeat a m.
Proof.
  revert n. induction m as [| m IH]; intros n H; simpl; [reflexivity |].
  destruct n as [| n]; [lia |]. simpl. f_equal. apply IH. lia.
Qed.

(** The block of the [idx]-th item in a concatenation of blocks of equal
    length. *)
Lemma flat_map_block {A B : Type} (f : A -> list B) (n : nat) :
  (forall a, length (f a) = n) ->
  forall (l : list A) (idx : nat) (a : A) (rest : list B),
    nth_error l idx = Some a ->
    firstn n (skipn (n * idx) (flat_map f l ++ rest)) = f a.
Proof.
  intros Hn. induction l as [| b l IH]; intros idx a rest H.
  - destruct idx; discriminate.
  - destruct idx as [| idx]; simpl in H.
    + injection H as ->. rewrite Nat.mul_0_r. simpl.
      rewrite <- app_assoc, <- (Hn a). rewrite firstn_app, Nat.sub_diag, firstn_all.
      simpl. apply app_nil_r.
    + simpl flat_map. rewrite <- app_assoc.
      replace (n * S idx)%nat with (length (f b) + n * idx)%nat by (rewrite Hn; lia).
      rewrite skipn_app, Nat.add_comm, Nat.add_sub.
      rewrite (skipn_all2 (f b)) by lia. simpl. apply IH, H.
Qed.

Lemma others_nth (vs : list Vehicle.t) (j k : nat) :
  j <> k -> (j < length vs)%nat ->
  nth_error (Scenario.others j vs) (slot j k) = nth_error vs k.
Proof.
  intros Hjk Hj. unfold Scenario.others, slot.
  destruct (k <? j)%nat eqn:E.
  - apply Nat.ltb_lt in E.
    rewrite nth_error_app1 by (rewrite length_firstn; lia).
    rewrite nth_error_firstn.
    apply Nat.ltb_lt in E. rewrite E. reflexivity.
  - apply Nat.ltb_ge in E.
    rewrite nth_error_app2 by (rewrite length_firstn; lia).
    rewrite length_firstn, Nat.min_l by lia.
    rewrite nth_error_skipn. f_equal. lia.
Qed.

Lemma layout_block (vs : list Vehicle.t) (hs : list Human.t) (j k : nat)
  (vehicle other : Vehicle.t) :
  j <> k -> (j < length vs)%nat -> nth_error vs k = Some other ->
  firstn 8 (skipn (4 + 8 * slot j k) (layout vs hs j vehicle)) = vehicle_block vehicle other.
Proof.
  intros Hjk Hj Hk. unfold layout.
  change (4 + 8 * slot j k)%nat with (length (own_fields vehicle) + 8 * slot j k)%nat.
  rewrite skipn_app, Nat.add_comm, Nat.add_sub.
  rewrite (skipn_all2 (own_fields vehicle)) by (cbn [own_fields length]; lia).
  cbn [app].
  apply (flat_map_block (vehicle_block vehicle) 8); [apply vehicle_block_length |].
  rewrite others_nth by assumption. exact Hk.
Qed.

Lemma slot_bound (n j k : nat) :
  j <> k -> (j < n)%nat -> (k < n)%nat -> (slot j k + 2 <= n)%nat.
Proof.
  intros Hjk Hj Hk. unfold slot. destruct (k <? j)%nat eqn:E.
  - apply Nat.ltb_lt in E. lia.
  - apply Nat.ltb_ge in E. lia.
Qed.

(** One completed tick, seen from a vehicle that was offline when it
    began. *)
Lemma step_offline_stays (s s' : Scenario.t) (zones : list Zone.t) (g g' : Rng)
  (ys : list Scenario.Yield) (k : nat) (veh : Vehicle.t) :
  Scenario.step s zones g = (ys, Ok (s', g')) ->
  nth_error (Scenario.vehicles s) k = Some veh ->
  Vehicle.offline veh = true ->
  nth_error (Scenario.vehicles s') k = Some veh /\
  nth_error ys k =
    Some (repeat (Scenario.F 0)
            (4 + 8 * (length (Scenario.vehicles s) - 1) + 4 * length (Scenario.humans s)),
          0, true) /\
  forall j y, j <> k -> nth_error ys j = Some y ->
    firstn 8 (skipn (4 + 8 * slot j k) (fst (fst y))) = repeat (Scenario.F 0) 8.
Proof.
  intros Hstep Hk Hoff.
  destruct (step_lengths _ _ _ _ _ _ Hstep) as (Lv & Lh & Ly).
  destruct (step_ok _ _ _ _ _ _ Hstep) as (vs1 & rewards & g1 & A & Hh & L & Hall).
  destruct (advance_spec _ _ _ _ _ _ A) as (Hlen & _ & Hadv).
  destruct (Hadv k veh Hk) as (veh1 & B1 & _ & B2 & B3 & B4 & _).
  specialize (B2 Hoff). subst veh1.
  destruct (Hall k veh B1) as (base & C1 & C2 & C3).
  assert (Hbase : base = 0).
  { destruct (Nat.le_gt_cases (length zones) k) as [Hge | Hlt].
    - destruct (B4 Hge) as (_ & N). congruence.
    - specialize (B3 Hoff Hlt). congruence. }
  subst base.
  split; [| split].
  - rewrite C3. unfold goes_offline. rewrite Hoff. reflexivity.
  - rewrite C2. unfold yield_of. rewrite Hoff. unfold Scenario.zeros, width.
    rewrite Hlen, Lh. reflexivity.
  - intros j y Hjk Hj.
    assert (Hjlt : (j < length vs1)%nat).
    { rewrite <- L. apply nth_error_Some. congruence. }
    assert (Hklt : (k < length vs1)%nat) by (apply nth_error_Some; congruence).
    destruct (nth_error vs1 j) as [vehj |] eqn:Nj; [| apply nth_error_None in Nj; lia].
    destruct (Hall j vehj Nj) as (bj & D1 & D2 & _).
    rewrite Hj in D2. injection D2 as ->.
    rewrite yield_of_obs.
    destruct (Vehicle.offline vehj).
    + rewrite skipn_repeat. apply firstn_repeat.
      pose proof (slot_bound _ _ _ Hjk Hjlt Hklt). lia.
    + rewrite (layout_block vs1 _ j k vehj veh Hjk Hjlt B1).
      unfold vehicle_block. rewrite Hoff. reflexivity.
Qed.

(** C6: a vehicle whose flag [offline] is true at the start of a call of
    [step] is the same record after any number of completed ticks: the
    flag is still true and the position has not changed.  On each of these
    ticks the vehicle yields a vector of [4 + 8*(N-1) + 4*M] zeros, reward
    [0.0] and [done = true], and in the observation of every other vehicle
    its block of eight entries is eight zeros. *)
Theorem offline_is_permanent (ticks : list (list Zone.t)) :
  forall (s s' : Scenario.t) (g g' : Rng) (yss : list (list Scenario.Yield))
         (k : nat) (veh : Vehicle.t),
    Scenario.run s ticks g = (yss, Ok (s', g')) ->
    nth_error (Scenario.vehicles s) k = Some veh ->
    Vehicle.offline veh = true ->
    nth_error (Scenario.vehicles s') k = Some veh /\
    length yss = length ticks /\
    forall t ys, nth_error yss t = Some ys ->
      nth_error ys k =
        Some (repeat (Scenario.F 0)
                (4 + 8 * (length (Scenario.vehicles s) - 1) + 4 * length (Scenario.humans s)),
              0, true) /\
      forall j y, j <> k -> nth_error ys j = Some y ->
        firstn 8 (skipn (4 + 8 * slot j k) (fst (fst y))) = repeat (Scenario.F 0) 8.
Proof.
  induction ticks as [| zones ticks IH]; intros s s' g g' yss k veh Hrun Hk Hoff.
  - simpl in Hrun. injection Hrun as <- <- <-.
    split; [exact Hk |]. split; [reflexivity |].
    intros t ys Ht. destruct t; discriminate.
  - simpl in Hrun.
    destruct (Scenario.step s zones g) as (ys0, [(s1, g1) | e]) eqn:Hstep; [| discriminate].
    destruct (Scenario.run s1 ticks g1) as (yss1, r1) eqn:Hrest.
    injection Hrun as <- ->.
    destruct (step_offline_stays _ _ _ _ _ _ _ _ Hstep Hk Hoff) as (A1 & A2 & A3).
    destruct (step_lengths _ _ _ _ _ _ Hstep) as (Lv & Lh & _).
    destruct (IH _ _ _ _ _ _ _ Hrest A1 Hoff) as (B1 & B2 & B3).
    split; [exact B1 |]. split; [simpl; congruence |].
    intros t ys Ht. destruct t as [| t]; simpl in Ht.
    + injection Ht as <-. split; [exact A2 | exact A3].
    + rewrite <- Lv, <- Lh. apply B3 with (t := t). exact Ht.
Qed.

(** ** Crashes and warnings *)

Lemma magnitude_sub_sym (p q : Vec) :
  Vector3.magnitude (Vector3.sub p q) = Vector3.magnitude (Vector3.sub q p).
Proof. unfold Vector3.magnitude, Vector3.sub; simpl. f_equal. ring. Qed.

(** The first proximity test of a scan, against an online vehicle closer
    than one unit, sets [crashed]. *)
Lemma first_sight_crash (i : nat) (vehicle other : Vehicle.t) (base : R) :
  Vehicle.offline other = false ->
  Vector3.magnitude (Vector3.sub (Vehicle.position other) (Vehicle.position vehicle)) < 1 ->
  Scenario.crashed
    (Scenario.see_vehicle i vehicle (Scenario.scan_init i vehicle base []) other) = true.
Proof.
  intros Hoff Hd. unfold Scenario.see_vehicle. rewrite Hoff.
  cbn [Scenario.scan_init Scenario.warning Scenario.crashed].
  rewrite truthy_zero. cbn [orb].
  apply Rltb_true in Hd. rewrite Hd. reflexivity.
Qed.

Lemma crashed_verdict (st : Scenario.Scan) (done : bool) :
  Scenario.crashed st = true -> Scenario.verdict st done = (Scenario.obs st, -5.0, true).
Proof. intros H. unfold Scenario.verdict. rewrite H. reflexivity. Qed.

Lemma list_of_two {A : Type} (l : list A) (a b : A) :
  length l = 2%nat -> nth_error l 0 = Some a -> nth_error l 1 = Some b -> l = [a; b].
Proof.
  destruct l as [| x [| y [| z l]]]; simpl; intros H H0 H1; try discriminate.
  congruence.
Qed.

Lemma lone_other_crash (vs : list Vehicle.t) (hs : list Human.t) (i : nat)
  (vehicle other : Vehicle.t) (base : R) :
  Scenario.others i vs = [other] ->
  Vehicle.offline other = false ->
  Vector3.magnitude (Vector3.sub (Vehicle.position other) (Vehicle.position vehicle)) < 1 ->
  Scenario.crashed (Scenario.scan vs hs i vehicle base []) = true.
Proof.
  intros Ho Hoff Hd. unfold Scenario.scan, Scenario.scan_vehicles. rewrite Ho.
  cbn [fold_left].
  pose proof (first_sight_crash i vehicle other base Hoff Hd) as C.
  destruct (see_humans_frozen i vehicle hs
              (Scenario.see_vehicle i vehicle (Scenario.scan_init i vehicle base []) other))
    as (_ & -> & _); [| exact C].
  rewrite C. apply orb_true_r.
Qed.

(** C8: in a scenario of exactly two vehicles, neither offline, whose
    positions after the moves of phase 1 are less than one unit apart, the
    tick yields [(obs, -5.0, true)] for both and leaves both flags
    [offline] true.  During the tick each still sees the other as online:
    the other's block in its observation is the displacement, direction,
    speed and priority, not zeros. *)
Theorem close_pair_crashes (s : Scenario.t) (zones : list Zone.t) (g g1 : Rng)
  (v0 v1 : Vehicle.t) (rewards : list R) :
  Scenario.advance (Scenario.vehicles s) zones g = Ok ([v0; v1], rewards, g1) ->
  (2 <= length zones)%nat ->
  Vehicle.offline v0 = false ->
  Vehicle.offline v1 = false ->
  Vector3.magnitude (Vector3.sub (Vehicle.position v1) (Vehicle.position v0)) < 1 ->
  let hs1 := fst (Scenario.wander (Scenario.humans s) g1) in
  let obs0 := own_fields v0 ++ online_block v0 v1 ++ flat_map (human_block v0) hs1 in
  let obs1 := own_fields v1 ++ online_block v1 v0 ++ flat_map (human_block v1) hs1 in
  exists s' g',
    Scenario.step s zones g = ([(obs0, -5.0, true); (obs1, -5.0, true)], Ok (s', g')) /\
    map Vehicle.offline (Scenario.vehicles s') = [true; true] /\
    Scenario.vehicles s' = [Vehicle.switch_off v0; Vehicle.switch_off v1].
Proof.
  intros A Hz H0 H1 Hd hs1 obs0 obs1.
  destruct (advance_spec _ _ _ _ _ _ A) as (Hlen & Hrew & _).
  simpl in Hlen. rewrite <- Hlen in Hrew. rewrite Nat.min_l in Hrew by exact Hz.
  pose proof (step_unfold s zones g) as U. rewrite A in U. cbv zeta in U. fold hs1 in U.
  destruct (observe_from_enough [v0; v1] hs1 rewards [v0; v1] 0 [])
    as (ys & off & E); [simpl in *; lia |].
  rewrite E in U. cbn [fst snd] in U.
  destruct (step_ok _ _ _ _ _ _ U) as (vs1 & rewards' & g1' & A' & Hh & L & Hall).
  rewrite A in A'. injection A' as <- <- <-.
  cbn [Scenario.humans] in Hh, Hall.
  assert (C0 : forall b, Scenario.crashed (Scenario.scan [v0; v1] hs1 0 v0 b []) = true).
  { intros b. apply lone_other_crash with (other := v1); auto. }
  assert (C1 : forall b, Scenario.crashed (Scenario.scan [v0; v1] hs1 1 v1 b []) = true).
  { intros b. apply lone_other_crash with (other := v0); auto.
    rewrite magnitude_sub_sym. exact Hd. }
  destruct (Hall 0%nat v0 eq_refl) as (b0 & _ & Y0 & S0).
  destruct (Hall 1%nat v1 eq_refl) as (b1 & _ & Y1 & S1).
  unfold goes_offline in S0, S1. rewrite H0, C0 in S0. rewrite H1, C1 in S1.
  rewrite orb_true_r in S0, S1. cbn [negb andb] in S0, S1.
  unfold yield_of in Y0, Y1. rewrite H0 in Y0. rewrite H1 in Y1.
  rewrite crashed_verdict, scan_obs in Y0 by apply C0.
  rewrite crashed_verdict, scan_obs in Y1 by apply C1.
  assert (O0 : layout [v0; v1] hs1 0 v0 = obs0).
  { unfold layout, obs0. cbn [Scenario.others firstn skipn app flat_map].
    unfold vehicle_block. rewrite H1, app_nil_r. reflexivity. }
  assert (O1 : layout [v0; v1] hs1 1 v1 = obs1).
  { unfold layout, obs1. cbn [Scenario.others firstn skipn app flat_map].
    unfold vehicle_block. rewrite H0, app_nil_r. reflexivity. }
  rewrite O0 in Y0. rewrite O1 in Y1.
  pose proof (late_update_length off [v0; v1]) as L2.
  assert (V : Scenario.late_update off [v0; v1] = [Vehicle.switch_off v0; Vehicle.switch_off v1]).
  { apply list_of_two; assumption. }
  eexists. eexists. split; [| split].
  - rewrite U. f_equal. apply list_of_two; assumption.
  - cbn [Scenario.vehicles]. rewrite V. reflexivity.
  - cbn [Scenario.vehicles]. exact V.
Qed.

(** As long as [crashed] is not set, the scans leave the list [offline]
    alone. *)
Lemma see_vehicle_uncrashed (i : nat) (vehicle : Vehicle.t) (st : Scenario.Scan)
  (other : Vehicle.t) :
  Scenario.crashed (Scenario.see_vehicle i vehicle st other) = false ->
  Scenario.crashed st = false /\
  Scenario.offline (Scenario.see_vehicle i vehicle st other) = Scenario.offline st.
Proof.
  unfold Scenario.see_vehicle.
  destruct (Vehicle.offline other); [simpl; auto |].
  destruct (_ || _); [simpl; auto |].
  destruct (Rltb _ 1); [simpl; discriminate |].
  destruct (_ && _); [simpl; auto |].
  destruct (_ && _); simpl; auto.
Qed.

Lemma see_human_uncrashed (i : nat) (vehicle : Vehicle.t) (st : Scenario.Scan)
  (human : Human.t) :
  Scenario.crashed (Scenario.see_human i vehicle st human) = false ->
  Scenario.crashed st = false /\
  Scenario.offline (Scenario.see_human i vehicle st human) = Scenario.offline st.
Proof.
  unfold Scenario.see_human.
  destruct (_ || _); [simpl; auto |].
  destruct (Rltb _ 1); [simpl; discriminate |].
  destruct (_ && _); [simpl; auto |].
  destruct (_ && _); simpl; auto.
Qed.

Lemma see_vehicles_uncrashed (i : nat) (vehicle : Vehicle.t) (os : list Vehicle.t) :
  forall st,
    Scenario.crashed (fold_left (Scenario.see_vehicle i vehicle) os st) = false ->
    Scenario.crashed st = false /\
    Scenario.offline (fold_left (Scenario.see_vehicle i vehicle) os st) = Scenario.offline st.
Proof.
  induction os as [| o os IH]; intros st H; simpl in *; [auto |].
  destruct (IH _ H) as (H1 & H2).
  destruct (see_vehicle_uncrashed _ _ _ _ H1) as (H3 & H4).
  split; [exact H3 | congruence].
Qed.

Lemma see_humans_uncrashed (i : nat) (vehicle : Vehicle.t) (hs : list Human.t) :
  forall st,
    Scenario.crashed (fold_left (Scenario.see_human i vehicle) hs st) = false ->
    Scenario.crashed st = false /\
    Scenario.offline (fold_left (Scenario.see_human i vehicle) hs st) = Scenario.offline st.
Proof.
  induction hs as [| h hs IH]; intros st H; simpl in *; [auto |].
  destruct (IH _ H) as (H1 & H2).
  destruct (see_human_uncrashed _ _ _ _ H1) as (H3 & H4).
  split; [exact H3 | congruence].
Qed.

Lemma uncrashed_of_warning (i : nat) (vehicle : Vehicle.t) (st : Scenario.Scan) :
  scan_inv i vehicle st -> Scenario.warning st <> 0 -> Scenario.crashed st = false.
Proof.
  intros (_ & _ & H) Hw. destruct (Scenario.crashed st); [| reflexivity].
  exfalso. apply Hw. rewrite H by reflexivity. lra.
Qed.

Lemma warned_outcome_intro (s s' : Scenario.t) (zones : list Zone.t) (g g' g1 : Rng)
  (ys : list Scenario.Yield) (vs1 : list Vehicle.t) (rewards : list R)
  (k : nat) (vehicle : Vehicle.t) (base : R) (st : Scenario.Scan) :
  Scenario.step s zones g = (ys, Ok (s', g')) ->
  Scenario.advance (Scenario.vehicles s) zones g = Ok (vs1, rewards, g1) ->
  nth_error vs1 k = Some vehicle ->
  nth_error rewards k = Some base ->
  Vehicle.offline vehicle = false ->
  Scenario.offline st = Scenario.offline (Scenario.scan_init k vehicle base []) ->
  frozen st (Scenario.scan vs1 (Scenario.humans s') k vehicle base []) ->
  Scenario.crashed st = false ->
  Scenario.warning st <> 0 ->
  warned_outcome ys s' k vehicle (layout vs1 (Scenario.humans s') k vehicle)
    (Scenario.scan_init k vehicle base [])
    (Scenario.scan vs1 (Scenario.humans s') k vehicle base [])
    (Scenario.warning st).
Proof.
  intros Hstep A Hk Hb Hoff Hinit (F1 & F2 & F3 & F4) Hc Hw.
  destruct (step_ok _ _ _ _ _ _ Hstep) as (vs1' & rewards' & g1' & A' & Hh & L & Hall).
  rewrite A in A'. injection A' as <- <- <-.
  destruct (Hall k vehicle Hk) as (base' & B1 & B2 & B3).
  rewrite Hb in B1. injection B1 as <-.
  unfold warned_outcome.
  split; [congruence |]. split; [exact F3 |]. split; [congruence |]. split.
  - rewrite B2. f_equal. unfold yield_of. rewrite Hoff.
    unfold Scenario.verdict. rewrite F2, Hc, F3.
    apply truthy_true in Hw. rewrite Hw. rewrite scan_obs. reflexivity.
  - rewrite B3. unfold goes_offline. rewrite Hoff, F2, Hc, orb_false_r. reflexivity.
Qed.

(** C10, as amended: in a completed tick, once the scan of a vehicle that
    is not offline has set [warning] to a non-zero value, whether against
    another vehicle or against a human, nothing later in the scans changes
    [crashed], [warning] or the list [offline], whatever the distance of
    the agents scanned afterwards, humans included: the vehicle yields
    [(obs, -warning, false)] and no crash is recorded for it.  After the
    tick it is offline exactly if the odometer test [odometer >= 20]
    queued it before the scans; otherwise it remains online. *)
Theorem warning_masks_crash (s s' : Scenario.t) (zones : list Zone.t) (g g' : Rng)
  (ys : list Scenario.Yield) :
  Scenario.step s zones g = (ys, Ok (s', g')) ->
  exists vs1 rewards g1,
    Scenario.advance (Scenario.vehicles s) zones g = Ok (vs1, rewards, g1) /\
    forall k vehicle base,
      nth_error vs1 k = Some vehicle ->
      nth_error rewards k = Some base ->
      Vehicle.offline vehicle = false ->
      let hs1 := Scenario.humans s' in
      let init := Scenario.scan_init k vehicle base [] in
      let mid := Scenario.scan_vehicles vs1 k vehicle base [] in
      let final := Scenario.scan vs1 hs1 k vehicle base [] in
      (forall seen rest, Scenario.others k vs1 = seen ++ rest ->
         let st := fold_left (Scenario.see_vehicle k vehicle) seen init in
         Scenario.warning st <> 0 ->
         warned_outcome ys s' k vehicle (layout vs1 hs1 k vehicle) init final
           (Scenario.warning st)) /\
      (forall seen rest, hs1 = seen ++ rest ->
         let st := fold_left (Scenario.see_human k vehicle) seen mid in
         Scenario.warning st <> 0 ->
         warned_outcome ys s' k vehicle (layout vs1 hs1 k vehicle) init final
           (Scenario.warning st)).
Proof.
  intros Hstep.
  destruct (step_ok _ _ _ _ _ _ Hstep) as (vs1 & rewards & g1 & A & Hh & L & Hall).
  exists vs1, rewards, g1. split; [exact A |].
  intros k vehicle base Hk Hb Hoff hs1 init mid final.
  pose proof (scan_init_inv k vehicle base) as Iinit. fold init in Iinit.
  split.
  - intros seen rest Hsplit st Hw.
    assert (Ist : scan_inv k vehicle st) by (apply see_vehicles_inv; exact Iinit).
    pose proof (uncrashed_of_warning _ _ _ Ist Hw) as Hc.
    destruct (see_vehicles_uncrashed k vehicle seen init Hc) as (_ & Ho).
    assert (Hstop : Scenario.truthy (Scenario.warning st) || Scenario.crashed st = true).
    { apply truthy_true in Hw. rewrite Hw. reflexivity. }
    apply warned_outcome_intro with (s := s) (zones := zones) (g := g) (g' := g')
      (g1 := g1) (rewards := rewards); auto.
    unfold Scenario.scan, Scenario.scan_vehicles. rewrite Hsplit, fold_left_app.
    fold init. fold st.
    eapply frozen_trans.
    + apply see_vehicles_frozen. exact Hstop.
    + apply see_humans_frozen. eapply frozen_stop; [| exact Hstop].
      apply see_vehicles_frozen. exact Hstop.
  - intros seen rest Hsplit st Hw.
    assert (Imid : scan_inv k vehicle mid) by (apply see_vehicles_inv; exact Iinit).
    assert (Ist : scan_inv k vehicle st) by (apply see_humans_inv; exact Imid).
    pose proof (uncrashed_of_warning _ _ _ Ist Hw) as Hc.
    destruct (see_humans_uncrashed k vehicle seen mid Hc) as (Hcm & Ho).
    destruct (see_vehicles_uncrashed k vehicle (Scenario.others k vs1) init Hcm) as (_ & Ho').
    assert (Hstop : Scenario.truthy (Scenario.warning st) || Scenario.crashed st = true).
    { apply truthy_true in Hw. rewrite Hw. reflexivity. }
    apply warned_outcome_intro with (s := s) (zones := zones) (g := g) (g' := g')
      (g1 := g1) (rewards := rewards); auto.
    + unfold st. rewrite Ho. exact Ho'.
    + unfold Scenario.scan. fold mid. fold hs1. rewrite Hsplit, fold_left_app. fold st.
      apply see_humans_frozen. exact Hstop.
Qed.

(** ** Ticks that complete *)

Lemma positive_wf (zn : Zone.t) : positive zn -> Zone.wf zn.
Proof. unfold positive, Zone.wf. intros H. repeat split; lra. Qed.

Lemma constraint_positive (zn : Zone.t) (d : Vec) :
  positive zn -> exists c, Zone.constraint zn d = Some c.
Proof.
  intros Hp.
  destruct (Req_dec_T (Vector3.x d) 0) as [Ex | Ex].
  - unfold Zone.constraint.
    destruct (py_min (filter ge0 (Zone.constraints zn d))) as [c |] eqn:E; [eauto |].
    exfalso. apply py_min_none in E.
    assert (Hin : In PInf (filter ge0 (Zone.constraints zn d))).
    { apply constraints_in. left. unfold Zone.constraints_x. rewrite Ex.
      apply filter_In. split; [| reflexivity].
      right. left. unfold np_div.
      destruct (Req_dec_T 0 0) as [_ | N]; [| contradiction N; reflexivity].
      destruct Hp as (_ & Hhi & _).
      destruct (Rlt_dec 0 (Zone.hi_x zn)); [reflexivity | contradiction]. }
    rewrite E in Hin. destruct Hin.
  - destruct (constraint_finite zn d (positive_wf zn Hp)) as (c & Hc & _); eauto.
Qed.

Lemma move_total (veh : Vehicle.t) (zone : Zone.t) (randomness : R) (g : Rng) :
  roadworthy veh -> positive zone ->
  exists veh' moved g', Vehicle.move veh zone randomness g = Ok (veh', moved, g').
Proof.
  intros Hr Hp. pose proof (move_roadworthy veh zone randomness g Hr) as H.
  destruct (Vehicle.move veh zone randomness g) as [((veh', moved), g') | e]; [eauto |].
  destruct (constraint_positive zone
              (fst (jitter (Vehicle.direction veh) (Vehicle.tick veh * randomness) g)) Hp)
    as (c & Hc).
  congruence.
Qed.

Lemma advance_total :
  forall (vs : list Vehicle.t) (zones : list Zone.t) (g : Rng),
    Forall roadworthy vs -> Forall positive zones ->
    exists vs1 rewards g1,
      Scenario.advance vs zones g = Ok (vs1, rewards, g1) /\ Forall roadworthy vs1.
Proof.
  induction vs as [| vehicle vs IH]; intros zones g Hvs Hzs.
  - exists [], [], g. split; [destruct zones; reflexivity | constructor].
  - destruct zones as [| zone zones].
    + exists (vehicle :: vs), [], g. split; [reflexivity | exact Hvs].
    + inversion Hvs as [| ? ? Hv Hvs']; subst. inversion Hzs as [| ? ? Hz Hzs']; subst.
      cbn [Scenario.advance].
      destruct (Vehicle.offline vehicle).
      * destruct (IH zones g Hvs' Hzs') as (vs1 & rewards & g1 & -> & Hr).
        cbn [bind]. eexists. eexists. eexists. split; [reflexivity |].
        constructor; assumption.
      * pose proof (move_roadworthy vehicle zone 0.05 g Hv) as Hm.
        destruct (move_total vehicle zone 0.05 g Hv Hz) as (veh' & moved & g' & M).
        rewrite M in Hm. rewrite M. cbn [bind].
        destruct (IH zones g' Hvs' Hzs') as (vs1 & rewards & g1 & -> & Hr).
        cbn [bind]. eexists. eexists. eexists. split; [reflexivity |].
        constructor; [apply Hm | assumption].
Qed.

Lemma switch_off_roadworthy (veh : Vehicle.t) :
  roadworthy veh -> roadworthy (Vehicle.switch_off veh).
Proof. intros H. exact H. Qed.

Lemma late_update_roadworthy (off : list nat) :
  forall vs, Forall roadworthy vs -> Forall roadworthy (Scenario.late_update off vs).
Proof.
  unfold Scenario.late_update.
  induction off as [| j off IH]; intros vs H; simpl; [exact H |].
  apply IH. clear IH. revert vs H.
  induction j as [| j IHj]; intros [| veh vs] H; simpl; try exact H.
  - inversion H; subst. constructor; [apply switch_off_roadworthy |]; assumption.
  - inversion H; subst. constructor; [| apply IHj]; assumption.
Qed.

(** With a positive zone for every vehicle, a tick of roadworthy vehicles
    runs to completion and leaves them roadworthy. *)
Lemma step_total (s : Scenario.t) (zones : list Zone.t) (g : Rng) :
  Forall roadworthy (Scenario.vehicles s) ->
  Forall positive zones ->
  (length (Scenario.vehicles s) <= length zones)%nat ->
  exists ys s' g',
    Scenario.step s zones g = (ys, Ok (s', g')) /\
    Forall roadworthy (Scenario.vehicles s').
Proof.
  intros Hvs Hzs Hlen.
  destruct (advance_total _ _ g Hvs Hzs) as (vs1 & rewards & g1 & A & Hr).
  destruct (advance_spec _ _ _ _ _ _ A) as (L1 & L2 & _).
  rewrite step_unfold, A. cbv zeta.
  set (hs1 := fst (Scenario.wander (Scenario.humans s) g1)).
  destruct (observe_from_enough vs1 hs1 rewards vs1 0 []) as (ys & off & E); [lia |].
  rewrite E. cbn [fst snd].
  eexists. eexists. eexists. split; [reflexivity |].
  cbn [Scenario.vehicles]. apply late_update_roadworthy, Hr.
Qed.

Lemma run_total (ticks : list (list Zone.t)) :
  forall (s : Scenario.t) (g : Rng),
    Forall roadworthy (Scenario.vehicles s) ->
    Forall (fun zones => Forall positive zones /\
                         (length (Scenario.vehicles s) <= length zones)%nat) ticks ->
    exists yss s' g', Scenario.run s ticks g = (yss, Ok (s', g')).
Proof.
  induction ticks as [| zones ticks IH]; intros s g Hvs Hticks.
  - exists [], s, g. reflexivity.
  - inversion Hticks as [| ? ? (Hz & Hl) Hrest]; subst.
    destruct (step_total s zones g Hvs Hz Hl) as (ys & s1 & g1 & Hstep & Hr).
    destruct (step_lengths _ _ _ _ _ _ Hstep) as (Lv & _ & _).
    destruct (IH s1 g1 Hr) as (yss & s' & g' & Hrun).
    { rewrite Lv. exact Hrest. }
    cbn [Scenario.run]. rewrite Hstep, Hrun. eauto.
Qed.

(** ** Concrete runs *)

Lemma vec_eq (p q : Vec) :
  Vector3.x p = Vector3.x q -> Vector3.y p = Vector3.y q -> Vector3.z p = Vector3.z q ->
  p = q.
Proof. destruct p, q; simpl; intros -> -> ->; reflexivity. Qed.

Lemma spinner_0 : spinner 0 0 0 =
  (Vector3.mk 1 0 0, Vector3.mk 0 1 0, Vector3.mk 0 0 1).
Proof.
  unfold spinner, matmul, vecmat, dot, col1, col2, col3, row1, row2, row3.
  cbn [fst snd Vector3.x Vector3.y Vector3.z].
  rewrite cos_0, sin_0.
  repeat (f_equal; try ring).
Qed.

(** With all samples zero the jitter leaves a direction as it is. *)
Lemma jitter_zero_samples (d : Vec) (scale : R) (g : Rng) :
  (forall n, samples g n = 0) ->
  fst (jitter d scale g) = d.
Proof.
  intros Hs. unfold jitter, normal3. cbn [fst]. rewrite !Hs.
  replace (0 + scale * 0) with 0 by ring. rewrite spinner_0.
  apply vec_eq; unfold vecmat, dot, col1, col2, col3, row1, row2, row3;
    cbn [fst snd Vector3.x Vector3.y Vector3.z]; ring.
Qed.

(** The zero direction stays zero whatever the samples. *)
Lemma jitter_zero_direction (scale : R) (g : Rng) :
  fst (jitter Vector3.zero scale g) = Vector3.zero.
Proof.
  unfold jitter, normal3. cbn [fst].
  apply vec_eq; unfold vecmat, dot, Vector3.zero;
    cbn [Vector3.x Vector3.y Vector3.z]; ring.
Qed.

Lemma np_div_pos_zero (a : R) : 0 < a -> np_div a 0 = PInf.
Proof.
  intros H. unfold np_div.
  destruct (Req_dec_T 0 0) as [_ | N]; [| contradiction N; reflexivity].
  destruct (Rlt_dec 0 a); [reflexivity | contradiction].
Qed.

Lemma np_div_neg_zero (a : R) : a < 0 -> np_div a 0 = NInf.
Proof.
  intros H. unfold np_div.
  destruct (Req_dec_T 0 0) as [_ | N]; [| contradiction N; reflexivity].
  destruct (Rlt_dec 0 a); [lra |].
  destruct (Rlt_dec a 0); [reflexivity | contradiction].
Qed.

Lemma zone07_constraint_x :
  Zone.constraint zone07 (Vector3.mk 1 0 0) = Some (Fin (0.7 / 1)).
Proof.
  unfold Zone.constraint, Zone.constraints, Zone.constraints_x, Zone.constraints_y,
    Zone.constraints_z, zone07.
  cbn [Zone.lo_x Zone.hi_x Zone.lo_y Zone.hi_y Zone.lo_z Zone.hi_z
       Vector3.x Vector3.y Vector3.z app].
  rewrite !(np_div_nonzero _ 1) by lra.
  rewrite !(np_div_pos_zero 0.7) by lra.
  rewrite !(np_div_neg_zero (- (0.7))) by lra.
  cbn [filter ge0].
  replace (Rleb 0 (- (0.7) / 1)) with false by (symmetry; apply Rleb_false; lra).
  replace (Rleb 0 (0.7 / 1)) with true by (symmetry; apply Rleb_true; lra).
  reflexivity.
Qed.

Lemma test_car_wf : Vehicle.wf test_car.
Proof. unfold Vehicle.wf, test_car; simpl; lra. Qed.

(** The concrete run described with the testable properties: a vehicle
    with [v = 14], [a = 7], [tick = 0.1], at rest at the origin and heading
    along [x] in the zone of half-width [0.7], the rotation draw being
    [(0, 0, 0)].  The constraint is [0.7], the raw acceleration [140] is
    clipped to [7], and the vehicle moves [0.035] and reaches speed
    [0.7]. *)
Lemma move_formula_witness :
  exists veh' g',
    Vehicle.move test_car zone07 0.05 still = Ok (veh', 0.035, g') /\
    Vehicle.speed veh' = 0.7 /\
    Vehicle.direction veh' = Vector3.mk 1 0 0.
Proof.
  pose proof (move_formula test_car zone07 0.05 still test_car_wf) as H.
  cbv zeta in H.
  rewrite (jitter_zero_samples (Vehicle.direction test_car) _ still) in H
    by reflexivity.
  change (Vehicle.direction test_car) with (Vector3.mk 1 0 0) in H.
  rewrite zone07_constraint_x in H.
  destruct H as (a_eff & moved & veh' & g' & Hm & Hdir & _ & Hclip & _ & Hslow);
    [unfold test_car; simpl; lra |].
  change (Vehicle.speed test_car) with 0 in *.
  change (Vehicle.tick test_car) with 0.1 in *.
  change (Vehicle.a test_car) with 7 in *.
  change (Vehicle.v test_car) with 14 in *.
  cbv zeta in Hclip.
  destruct Hclip as (_ & _ & Hhi & _).
  assert (Ha : a_eff = 7).
  { apply Hhi. 
    assert (E : 2 / 0.1 ^ 2 * (0.7 / 1 - 0 * 0.1) = 140) by (field_simplify; lra).
    rewrite E. lra. }
  subst a_eff.
  destruct Hslow as (Hmoved & Hspeed).
  { intros (_ & Hfast). unfold Rdiv in Hfast.
    replace (14 - 0) with 14 in Hfast by ring.
    rewrite Rabs_pos_eq in Hfast by lra. lra. }
  exists veh', g'. split; [| split].
  - assert (E : moved = 0.035) by (rewrite Hmoved; cbn [pow]; lra).
    rewrite Hm, E. reflexivity.
  - rewrite Hspeed. rewrite Rmax_left by lra. lra.
  - exact Hdir.
Defined.

Lemma move_keeps_invariants_witness :
  match Vehicle.move test_car zone07 0.05 still with
  | Ok (veh', moved, _) =>
      0 <= Vehicle.speed veh' /\
      Vehicle.odometer test_car <= Vehicle.odometer veh' /\
      Vehicle.odometer veh' = Vehicle.odometer test_car + moved /\
      0 <= moved
  | Raise e =>
      e = ValueError /\
      Zone.constraint zone07
        (fst (jitter (Vehicle.direction test_car) (Vehicle.tick test_car * 0.05) still)) = None
  end.
Proof.
  apply (move_keeps_invariants test_car zone07 0.05 still).
  - exact test_car_wf.
  - unfold test_car; simpl; lra.
Defined.

Lemma zone07_positive : positive zone07.
Proof. unfold positive, zone07; simpl; lra. Qed.

Lemma car_roadworthy (priority odometer speed : R) (position : Vec) (offline : bool) :
  0 < priority -> 0 <= speed -> roadworthy (car priority odometer speed position offline).
Proof. intros Hp Hs. unfold roadworthy, Vehicle.wf, car; simpl. lra. Qed.

Lemma pair_scene_roadworthy : Forall roadworthy (Scenario.vehicles pair_scene).
Proof. repeat constructor; simpl; lra. Qed.

Lemma solo_scene_roadworthy : Forall roadworthy (Scenario.vehicles solo_scene).
Proof. repeat constructor; simpl; lra. Qed.

Lemma wreck_scene_roadworthy : Forall roadworthy (Scenario.vehicles wreck_scene).
Proof. repeat constructor; simpl; lra. Qed.

Lemma step_observation_layout_witness :
  exists y,
    nth_error (fst (Scenario.step pair_scene [zone07; zone07] still)) 0 = Some y /\
    length (fst (fst y)) = 16%nat.
Proof.
  destruct (step_total pair_scene [zone07; zone07] still pair_scene_roadworthy)
    as (ys & s' & g' & Hstep & _).
  { repeat constructor; apply zone07_positive. }
  { simpl; lia. }
  destruct (step_lengths _ _ _ _ _ _ Hstep) as (_ & _ & L).
  destruct ys as [| y ys]; [discriminate |].
  exists y.
  assert (H : nth_error (fst (Scenario.step pair_scene [zone07; zone07] still)) 0 = Some y)
    by (rewrite Hstep; reflexivity).
  split; [exact H |].
  exact (proj1 (step_observation_layout pair_scene [zone07; zone07] still 0 y H)).
Defined.

Lemma yield_precedence_witness :
  exists y vs1 rewards g1 vehicle base,
    nth_error (fst (Scenario.step pair_scene [zone07; zone07] still)) 1 = Some y /\
    Scenario.advance (Scenario.vehicles pair_scene) [zone07; zone07] still =
      Ok (vs1, rewards, g1) /\
    nth_error vs1 1 = Some vehicle /\
    nth_error rewards 1 = Some base.
Proof.
  destruct (step_total pair_scene [zone07; zone07] still pair_scene_roadworthy)
    as (ys & s' & g' & Hstep & _).
  { repeat constructor; apply zone07_positive. }
  { simpl; lia. }
  destruct (step_lengths _ _ _ _ _ _ Hstep) as (_ & _ & L).
  destruct ys as [| y0 [| y ys]]; try discriminate.
  assert (H : nth_error (fst (Scenario.step pair_scene [zone07; zone07] still)) 1 = Some y)
    by (rewrite Hstep; reflexivity).
  destruct (yield_precedence pair_scene [zone07; zone07] still 1 y H)
    as (vs1 & rewards & g1 & vehicle & base & A1 & A2 & A3 & _).
  exists y, vs1, rewards, g1, vehicle, base. auto.
Defined.

(** The claim of C5 fails here: the second vehicle gets no zone, and the
    generator, after the tuple of the first, ends with [IndexError]. *)
Lemma short_zones_not_skipped :
  Scenario.step wreck_scene [zone07] still =
  ([(repeat (Scenario.F 0) 12, 0, true)], Raise IndexError).
Proof. reflexivity. Qed.

Lemma short_zones_raise_witness :
  exists ys, Scenario.step wreck_scene [zone07] still = (ys, Raise IndexError) /\
             length ys = 1%nat.
Proof.
  assert (H : (length [zone07] < length (Scenario.vehicles wreck_scene))%nat)
    by (simpl; lia).
  pose proof (short_zones_raise wreck_scene [zone07] still H) as T.
  change (Scenario.advance (Scenario.vehicles wreck_scene) [zone07] still)
    with (@Ok (list Vehicle.t * list R * Rng)
            (Scenario.vehicles wreck_scene, [0], still)) in T.
  exact (proj2 T).
Defined.

Lemma offline_is_permanent_witness :
  exists yss s' g',
    Scenario.run wreck_scene [[zone07; zone07]; [zone07; zone07]] still = (yss, Ok (s', g')) /\
    nth_error (Scenario.vehicles s') 0 = Some (car 1 21 0 Vector3.zero true) /\
    length yss = 2%nat.
Proof.
  destruct (run_total [[zone07; zone07]; [zone07; zone07]] wreck_scene still
              wreck_scene_roadworthy)
    as (yss & s' & g' & Hrun).
  { repeat constructor; simpl; try lia; apply zone07_positive. }
  exists yss, s', g'. split; [exact Hrun |].
  destruct (offline_is_permanent _ _ _ _ _ _ 0%nat (car 1 21 0 Vector3.zero true) Hrun)
    as (A & B & _); [reflexivity | reflexivity |].
  split; [exact A | exact B].
Defined.

(** A vehicle with the zero direction does not change place. *)
Lemma parked_stays (veh veh' : Vehicle.t) (zone : Zone.t) (randomness moved : R) (g g' : Rng) :
  Vehicle.move veh zone randomness g = Ok (veh', moved, g') ->
  Vehicle.direction veh = Vector3.zero ->
  Vehicle.position veh' = Vehicle.position veh /\ Vehicle.direction veh' = Vector3.zero.
Proof.
  intros M Hd.
  destruct (move_fields _ _ _ _ _ _ _ M) as (_ & _ & _ & _ & _ & _ & Hp & Hdir).
  rewrite Hd, jitter_zero_direction in Hdir.
  split; [| exact Hdir].
  rewrite Hp, Hdir. apply vec_eq; simpl; ring.
Qed.

Lemma walker_stays (position : Vec) (randomness : R) (g : Rng) :
  fst (Human.move (walker position) randomness g) = walker position.
Proof.
  unfold Human.move, walker. cbn [Human.direction Human.tick Human.v Human.position].
  pose proof (jitter_zero_direction (0.1 * randomness) g) as J.
  destruct (jitter Vector3.zero (0.1 * randomness) g) as (rotated, g1).
  cbn [fst] in *. subst rotated. f_equal.
  apply vec_eq; simpl; ring.
Qed.

Lemma magnitude_along_x (x : R) :
  0 <= x -> Vector3.magnitude (Vector3.sub (Vector3.mk x 0 0) Vector3.zero) = x.
Proof.
  intros H. unfold Vector3.magnitude, Vector3.sub, Vector3.zero.
  cbn [Vector3.x Vector3.y Vector3.z].
  replace ((x - 0) * (x - 0) + (0 - 0) * (0 - 0) + (0 - 0) * (0 - 0)) with (x * x) by ring.
  apply sqrt_square. exact H.
Qed.

Lemma close_pair_crashes_witness :
  exists s' g' obs0 obs1,
    Scenario.step pair_scene [zone07; zone07] still =
      ([(obs0, -5.0, true); (obs1, -5.0, true)], Ok (s', g')) /\
    map Vehicle.offline (Scenario.vehicles s') = [true; true].
Proof.
  destruct (advance_total (Scenario.vehicles pair_scene) [zone07; zone07] still
              pair_scene_roadworthy)
    as (vs1 & rewards & g1 & A & _).
  { repeat constructor; apply zone07_positive. }
  destruct (advance_spec _ _ _ _ _ _ A) as (L & _ & Hadv).
  destruct vs1 as [| v0 [| v1 [| v2 vs1]]]; try discriminate.
  destruct (Hadv 0%nat _ eq_refl) as (v0' & E0 & F0 & _ & _ & _ & M0).
  destruct (Hadv 1%nat _ eq_refl) as (v1' & E1 & F1 & _ & _ & _ & M1).
  injection E0 as <-. injection E1 as <-.
  destruct M0 as (z0 & m0 & g0 & g0' & _ & M0 & _); [reflexivity | simpl; lia |].
  destruct M1 as (z1 & m1 & g1a & g1' & _ & M1 & _); [reflexivity | simpl; lia |].
  destruct (parked_stays _ _ _ _ _ _ _ M0 eq_refl) as (P0 & _).
  destruct (parked_stays _ _ _ _ _ _ _ M1 eq_refl) as (P1 & _).
  destruct (close_pair_crashes pair_scene [zone07; zone07] still g1 v0 v1 rewards A)
    as (s' & g' & Hstep & Hoff & _).
  - simpl; lia.
  - exact F0.
  - exact F1.
  - rewrite P0, P1. cbn [car Vehicle.position].
    rewrite magnitude_along_x by lra. lra.
  - eexists. eexists. eexists. eexists. split; [exact Hstep | exact Hoff].
Defined.

Lemma warning_masks_crash_witness :
  exists ys s' g' vs1 rewards g1,
    Scenario.step solo_scene [zone07] still = (ys, Ok (s', g')) /\
    Scenario.advance (Scenario.vehicles solo_scene) [zone07] still = Ok (vs1, rewards, g1).
Proof.
  destruct (step_total solo_scene [zone07] still solo_scene_roadworthy)
    as (ys & s' & g' & Hstep & _).
  { repeat constructor; apply zone07_positive. }
  { simpl; lia. }
  destruct (warning_masks_crash solo_scene s' [zone07] still g' ys Hstep)
    as (vs1 & rewards & g1 & A & _).
  exists ys, s', g', vs1, rewards, g1. split; assumption.
Defined.

(** A vehicle at cruise speed [14] with [a = 7] and [tick = 0.1] moves at
    least one unit and keeps a speed of at least [13], whatever the zone. *)
Lemma cruising_bounds (veh veh' : Vehicle.t) (zone : Zone.t) (randomness moved : R)
  (g g' : Rng) :
  Vehicle.v veh = 14 -> Vehicle.a veh = 7 -> Vehicle.tick veh = 0.1 ->
  Vehicle.speed veh = 14 -> 0 < Vehicle.priority veh ->
  Vehicle.move veh zone randomness g = Ok (veh', moved, g') ->
  1 <= moved /\ 13 <= Vehicle.speed veh'.
Proof.
  intros Hv Ha Ht Hs Hp M.
  assert (Hwf : Vehicle.wf veh) by (unfold Vehicle.wf; rewrite Hv, Ha, Ht; lra).
  assert (Hvi : 0 <= Vehicle.speed veh) by (rewrite Hs; lra).
  pose proof (move_unfold veh zone randomness g Hwf Hvi) as H. cbv zeta in H.
  destruct (Zone.constraint zone _) as [c |]; [| congruence].
  destruct H as (acc & ((Hlo & Hhi) & _) & E).
  rewrite E in M. injection M as <- <- <-. cbn [Vehicle.speed].
  rewrite Hv, Ha, Ht, Hs in *.
  assert (Hmin : Rmin (14 / 0.1) 7 = 7) by (apply Rmin_right; lra).
  rewrite Hmin in Hlo.
  replace (14 - 14) with 0 by ring. rewrite Rabs_R0.
  replace (0 / acc) with 0 by (unfold Rdiv; ring).
  destruct (Rltb 0 acc && Rltb 0 0.1); cbn [pow].
  - split; lra.
  - split; [lra |]. eapply Rle_trans; [| apply Rmax_l]. lra.
Qed.

(** The claim of C10 fails here.  The vehicle passes [odometer >= 20] and
    is queued for offline before the scans; the first human, two units
    away, raises a warning, which masks the second human half a unit
    away; the vehicle yields [(obs, -warning, false)] and yet is offline
    after the tick. *)
Lemma warned_vehicle_goes_offline :
  exists obs w s' g',
    Scenario.step solo_scene [zone07] still = ([(obs, - w, false)], Ok (s', g')) /\
    w <> 0 /\
    map Vehicle.offline (Scenario.vehicles solo_scene) = [false] /\
    map Vehicle.offline (Scenario.vehicles s') = [true].
Proof.
  destruct (step_total solo_scene [zone07] still solo_scene_roadworthy)
    as (ys & s' & g' & Hstep & _).
  { repeat constructor; apply zone07_positive. }
  { simpl; lia. }
  destruct (step_lengths _ _ _ _ _ _ Hstep) as (Lv & Lh & Ly).
  destruct (step_ok _ _ _ _ _ _ Hstep) as (vs1 & rewards & g1 & A & Hh & L & Hall).
  destruct (advance_spec _ _ _ _ _ _ A) as (L1 & _ & Hadv).
  destruct vs1 as [| veh [| v2 vs1]]; try discriminate.
  destruct (Hadv 0%nat _ eq_refl) as (veh' & E0 & F0 & _ & _ & _ & M0).
  injection E0 as <-.
  destruct M0 as (z0 & moved & g0 & g0' & _ & M0 & _); [reflexivity | simpl; lia |].
  destruct (parked_stays _ _ _ _ _ _ _ M0 eq_refl) as (P0 & _).
  assert (Hprio : 0 < Vehicle.priority (car 1 19.9 14 Vector3.zero false))
    by (simpl; lra).
  destruct (cruising_bounds (car 1 19.9 14 Vector3.zero false) veh z0 0.05 moved g0 g0'
              eq_refl eq_refl eq_refl eq_refl Hprio M0) as (Hm & Hsp).
  destruct (move_fields _ _ _ _ _ _ _ M0) as (_ & Fv & _ & _ & _ & Fo & _).
  cbn [car Vehicle.position Vehicle.v Vehicle.odometer Vehicle.offline] in P0, Fv, Fo, F0.
  assert (Hfin : Scenario.finished veh = true).
  { unfold Scenario.finished. apply Rleb_true. rewrite Fo. lra. }
  (* the humans have not moved *)
  assert (Hhs : Scenario.humans s' =
                [walker (Vector3.mk 2 0 0); walker (Vector3.mk 0.5 0 0)]).
  { rewrite Hh. cbn [solo_scene Scenario.humans Scenario.wander].
    pose proof (walker_stays (Vector3.mk 2 0 0) 0.5 g1) as W1.
    destruct (Human.move (walker (Vector3.mk 2 0 0)) 0.5 g1) as (h1, g2).
    pose proof (walker_stays (Vector3.mk 0.5 0 0) 0.5 g2) as W2.
    destruct (Human.move (walker (Vector3.mk 0.5 0 0)) 0.5 g2) as (h2, g3).
    cbn [fst] in *. subst h1 h2. reflexivity. }
  destruct (Hall 0%nat veh eq_refl) as (base & B1 & _).
  (* the scan of the first human raises the warning *)
  set (init := Scenario.scan_init 0 veh base []).
  set (st := Scenario.see_human 0 veh init (walker (Vector3.mk 2 0 0))).
  assert (Hst : Scenario.warning st = Vehicle.speed veh / 14 /\
                Scenario.crashed st = false /\
                Scenario.offline st = Scenario.offline init).
  { unfold st, Scenario.see_human, init, Scenario.scan_init.
    cbn [Scenario.warning Scenario.crashed Scenario.offline walker Human.position].
    rewrite truthy_zero. cbn [orb].
    rewrite P0, magnitude_along_x by lra.
    replace (Rltb 2 1) with false by (symmetry; apply Rltb_false; lra).
    replace (Rltb 2 3) with true by (symmetry; apply Rltb_true; lra).
    replace (Rltb 1 (Vehicle.speed veh)) with true by (symmetry; apply Rltb_true; lra).
    cbn [andb Scenario.warning Scenario.crashed Scenario.offline].
    rewrite Fv. auto. }
  destruct Hst as (Hw & Hc & Ho).
  assert (Hne : Scenario.warning st <> 0).
  { rewrite Hw. unfold Rdiv. apply Rmult_integral_contrapositive_currified; [lra |].
    apply Rinv_neq_0_compat. lra. }
  (* the second human, half a unit away, changes nothing *)
  assert (Hfrozen : frozen st (Scenario.scan [veh] (Scenario.humans s') 0 veh base [])).
  { rewrite Hhs. unfold Scenario.scan, Scenario.scan_vehicles, Scenario.others.
    cbn [firstn skipn app fold_left]. fold init. fold st.
    apply see_human_frozen. apply truthy_true in Hne. rewrite Hne. reflexivity. }
  destruct (warned_outcome_intro solo_scene s' [zone07] still g' g1 ys [veh] rewards
              0 veh base st Hstep A eq_refl B1 F0 Ho Hfrozen Hc Hne)
    as (_ & _ & _ & Y & V).
  rewrite Hfin in V.
  destruct ys as [| y [| y2 ys]]; try discriminate.
  cbn [nth_error] in Y. injection Y as ->.
  destruct (Scenario.vehicles s') as [| w1 [| w2 ws]] eqn:Evs; try discriminate.
  cbn [nth_error] in V. injection V as ->.
  exists (layout [veh] (Scenario.humans s') 0 veh), (Scenario.warning st), s', g'.
  split; [exact Hstep |]. split; [exact Hne |]. split; [reflexivity |].
  rewrite Evs. reflexivity.
Qed.

(** * Further properties *)

(** ** The rotation of [spinner] *)

Lemma spinner_factors (alpha beta gamma : R) :
  spinner alpha beta gamma = matmul (matmul (rot_z gamma) (rot_y beta)) (rot_x alpha).
Proof. reflexivity. Qed.

Lemma vecmat_matmul (p : Vec) (m n : Matrix3) :
  vecmat p (matmul m n) = vecmat (vecmat p m) n.
Proof.
  destruct m as ((m1, m2), m3), n as ((n1, n2), n3).
  apply vec_eq;
    cbv [vecmat matmul dot col1 col2 col3 row1 row2 row3 fst snd
         Vector3.x Vector3.y Vector3.z];
    ring.
Qed.

Lemma sin_cos_one (t : R) : sin t * sin t + cos t * cos t = 1.
Proof. pose proof (sin2_cos2 t) as H. unfold Rsqr in H. exact H. Qed.

Lemma rot_x_dot (alpha : R) (p q : Vec) :
  dot (vecmat p (rot_x alpha)) (vecmat q (rot_x alpha)) = dot p q.
Proof.
  unfold vecmat, rot_x, dot, col1, col2, col3, row1, row2, row3.
  cbn [fst snd Vector3.x Vector3.y Vector3.z].
  pose proof (sin_cos_one alpha) as H.
  revert H. generalize (sin alpha) (cos alpha). intros s c H.
  replace (Vector3.x p * Vector3.x q + Vector3.y p * Vector3.y q + Vector3.z p * Vector3.z q)
    with (Vector3.x p * Vector3.x q
          + (Vector3.y p * Vector3.y q + Vector3.z p * Vector3.z q) * (s * s + c * c))
    by (rewrite H; ring).
  ring.
Qed.

Lemma rot_y_dot (beta : R) (p q : Vec) :
  dot (vecmat p (rot_y beta)) (vecmat q (rot_y beta)) = dot p q.
Proof.
  unfold vecmat, rot_y, dot, col1, col2, col3, row1, row2, row3.
  cbn [fst snd Vector3.x Vector3.y Vector3.z].
  pose proof (sin_cos_one beta) as H.
  revert H. generalize (sin beta) (cos beta). intros s c H.
  replace (Vector3.x p * Vector3.x q + Vector3.y p * Vector3.y q + Vector3.z p * Vector3.z q)
    with (Vector3.y p * Vector3.y q
          + (Vector3.x p * Vector3.x q + Vector3.z p * Vector3.z q) * (s * s + c * c))
    by (rewrite H; ring).
  ring.
Qed.

Lemma rot_z_dot (gamma : R) (p q : Vec) :
  dot (vecmat p (rot_z gamma)) (vecmat q (rot_z gamma)) = dot p q.
Proof.
  unfold vecmat, rot_z, dot, col1, col2, col3, row1, row2, row3.
  cbn [fst snd Vector3.x Vector3.y Vector3.z].
  pose proof (sin_cos_one gamma) as H.
  revert H. generalize (sin gamma) (cos gamma). intros s c H.
  replace (Vector3.x p * Vector3.x q + Vector3.y p * Vector3.y q + Vector3.z p * Vector3.z q)
    with (Vector3.z p * Vector3.z q
          + (Vector3.x p * Vector3.x q + Vector3.y p * Vector3.y q) * (s * s + c * c))
    by (rewrite H; ring).
  ring.
Qed.

Lemma spinner_dot (alpha beta gamma : R) (p q : Vec) :
  dot (vecmat p (spinner alpha beta gamma)) (vecmat q (spinner alpha beta gamma)) = dot p q.
Proof.
  rewrite spinner_factors, !vecmat_matmul.
  rewrite rot_x_dot, rot_y_dot, rot_z_dot. reflexivity.
Qed.

Lemma magnitude_dot (p : Vec) : Vector3.magnitude p = sqrt (dot p p).
Proof. reflexivity. Qed.

Lemma jitter_magnitude (d : Vec) (scale : R) (g : Rng) :
  Vector3.magnitude (fst (jitter d scale g)) = Vector3.magnitude d.
Proof.
  unfold jitter, normal3. cbn [fst].
  rewrite !magnitude_dot, spinner_dot. reflexivity.
Qed.

(** X1: [spinner] builds a rotation: applied on the right of row vectors,
    as [move] does, it keeps every dot product, hence every magnitude, and
    its determinant is 1. *)
Theorem spinner_is_rotation (alpha beta gamma : R) :
  (forall p q, dot (vecmat p (spinner alpha beta gamma))
                   (vecmat q (spinner alpha beta gamma)) = dot p q) /\
  (forall p, Vector3.magnitude (vecmat p (spinner alpha beta gamma)) = Vector3.magnitude p) /\
  (let m := spinner alpha beta gamma in
   Vector3.x (row1 m) * (Vector3.y (row2 m) * Vector3.z (row3 m)
                         - Vector3.z (row2 m) * Vector3.y (row3 m))
   - Vector3.y (row1 m) * (Vector3.x (row2 m) * Vector3.z (row3 m)
                           - Vector3.z (row2 m) * Vector3.x (row3 m))
   + Vector3.z (row1 m) * (Vector3.x (row2 m) * Vector3.y (row3 m)
                           - Vector3.y (row2 m) * Vector3.x (row3 m)) = 1).
Proof.
  split; [apply spinner_dot |]. split.
  - intros p. rewrite !magnitude_dot, spinner_dot. reflexivity.
  - cbv beta iota zeta delta
      [spinner vecmat matmul dot col1 col2 col3 row1 row2 row3 fst snd
       Vector3.x Vector3.y Vector3.z].
    pose proof (sin_cos_one alpha) as Ha.
    pose proof (sin_cos_one beta) as Hb.
    pose proof (sin_cos_one gamma) as Hc.
    revert Ha Hb Hc.
    generalize (sin alpha) (cos alpha) (sin beta) (cos beta) (sin gamma) (cos gamma).
    intros sa ca sb cb sc cc Ha Hb Hc.
    transitivity ((sa * sa + ca * ca) * (sb * sb + cb * cb) * (sc * sc + cc * cc));
      [ring | rewrite Ha, Hb, Hc; ring].
Qed.

(** ** Path lengths *)

Lemma dot_self_nonneg (p : Vec) : 0 <= dot p p.
Proof. unfold dot. nra. Qed.

Lemma magnitude_scale (p : Vec) (k : R) :
  Vector3.magnitude (Vector3.scale p k) = Rabs k * Vector3.magnitude p.
Proof.
  rewrite !magnitude_dot.
  replace (dot (Vector3.scale p k) (Vector3.scale p k)) with (Rsqr k * dot p p)
    by (unfold dot, Vector3.scale, Rsqr; cbn [Vector3.x Vector3.y Vector3.z]; ring).
  rewrite sqrt_mult; [| apply Rle_0_sqr | apply dot_self_nonneg].
  rewrite sqrt_Rsqr_abs. reflexivity.
Qed.

Lemma sub_add_cancel (p q : Vec) : Vector3.sub (Vector3.add p q) p = q.
Proof. apply vec_eq; simpl; ring. Qed.

(** X2: a call of [Vehicle.move] that returns has turned the direction
    without changing its magnitude, and has displaced the vehicle by
    [moved] times that magnitude along the new direction: for a unit
    direction the straight-line distance between the old and the new
    position is exactly the distance added to the odometer. *)
Theorem move_path_length (veh veh' : Vehicle.t) (zone : Zone.t) (randomness moved : R)
  (g g' : Rng) :
  Vehicle.wf veh ->
  0 <= Vehicle.speed veh ->
  Vehicle.move veh zone randomness g = Ok (veh', moved, g') ->
  Vector3.magnitude (Vehicle.direction veh') = Vector3.magnitude (Vehicle.direction veh) /\
  Vector3.magnitude (Vector3.sub (Vehicle.position veh') (Vehicle.position veh)) =
    moved * Vector3.magnitude (Vehicle.direction veh) /\
  (Vector3.magnitude (Vehicle.direction veh) = 1 ->
   Vector3.magnitude (Vector3.sub (Vehicle.position veh') (Vehicle.position veh)) =
     Vehicle.odometer veh' - Vehicle.odometer veh).
Proof.
  intros Hwf Hvi M.
  pose proof (move_roadworthy veh zone randomness g (conj Hwf Hvi)) as Hr.
  rewrite M in Hr. destruct Hr as (_ & Hm & Ho & _).
  destruct (move_fields _ _ _ _ _ _ _ M) as (_ & _ & _ & _ & _ & _ & Hp & Hd).
  assert (Hmag : Vector3.magnitude (Vehicle.direction veh') =
                 Vector3.magnitude (Vehicle.direction veh)).
  { rewrite Hd. apply jitter_magnitude. }
  assert (Hlen : Vector3.magnitude (Vector3.sub (Vehicle.position veh') (Vehicle.position veh)) =
                 moved * Vector3.magnitude (Vehicle.direction veh)).
  { rewrite Hp, sub_add_cancel, magnitude_scale, Hmag, Rabs_pos_eq by exact Hm.
    reflexivity. }
  split; [exact Hmag |]. split; [exact Hlen |].
  intros H1. rewrite Hlen, H1, Ho. ring.
Qed.

Lemma move_path_length_witness :
  exists veh' moved g',
    Vehicle.move test_car zone07 0.05 still = Ok (veh', moved, g') /\
    Vector3.magnitude (Vector3.sub (Vehicle.position veh') (Vehicle.position test_car)) =
      Vehicle.odometer veh' - Vehicle.odometer test_car.
Proof.
  destruct (move_total test_car zone07 0.05 still) as (veh' & moved & g' & M).
  { split; [exact test_car_wf | unfold test_car; simpl; lra]. }
  { exact zone07_positive. }
  exists veh', moved, g'. split; [exact M |].
  apply (move_path_length test_car veh' zone07 0.05 moved still g' test_car_wf).
  - unfold test_car; simpl; lra.
  - exact M.
  - unfold Vector3.magnitude, test_car. cbn [Vehicle.direction Vector3.x Vector3.y Vector3.z].
    replace (1 * 1 + 0 * 0 + 0 * 0) with 1 by ring. apply sqrt_1.
Defined.

(** X3: [Human.move] turns the direction without changing its magnitude
    and displaces the human by [|tick * v|] times that magnitude; speed and
    tick are left as they are.  Nothing is asserted about [v] and [tick],
    so the statement holds for every human. *)
Theorem human_step_length (h : Human.t) (randomness : R) (g : Rng) :
  let h' := fst (Human.move h randomness g) in
  Vector3.magnitude (Human.direction h') = Vector3.magnitude (Human.direction h) /\
  Vector3.magnitude (Vector3.sub (Human.position h') (Human.position h)) =
    Rabs (Human.tick h * Human.v h) * Vector3.magnitude (Human.direction h) /\
  Human.v h' = Human.v h /\
  Human.tick h' = Human.tick h.
Proof.
  unfold Human.move.
  pose proof (jitter_magnitude (Human.direction h) (Human.tick h * randomness) g) as J.
  destruct (jitter _ _ _) as (rotated, g1). cbn [fst] in *.
  cbn [Human.direction Human.position Human.v Human.tick].
  split; [exact J |]. split; [| split; reflexivity].
  rewrite sub_add_cancel, !magnitude_scale, J, Rabs_mult. ring.
Qed.

(** ** More on Zone.constraint *)

(** Where a finite ratio comes from: a face [b] and a non-zero component
    [dk] with [c * dk = b]. *)
Lemma candidate_origin (zn : Zone.t) (d : Vec) (c : R) :
  In (Fin c) (Zone.constraints zn d) ->
  (Vector3.x d <> 0 /\ (c * Vector3.x d = - Zone.lo_x zn \/ c * Vector3.x d = Zone.hi_x zn)) \/
  (Vector3.y d <> 0 /\ (c * Vector3.y d = - Zone.lo_y zn \/ c * Vector3.y d = Zone.hi_y zn)) \/
  (Vector3.z d <> 0 /\ (c * Vector3.z d = - Zone.lo_z zn \/ c * Vector3.z d = Zone.hi_z zn)).
Proof.
  unfold Zone.constraints, Zone.constraints_x, Zone.constraints_y, Zone.constraints_z.
  simpl. intros H.
  repeat (destruct H as [H | H]; [apply np_div_fin_inv in H; tauto |]).
  destruct H.
Qed.

Lemma axis_segment (lo hi dk c t : R) :
  0 <= lo -> 0 <= hi -> 0 <= t <= c ->
  - lo <= 0 + dk * c <= hi ->
  - lo <= dk * t <= hi.
Proof.
  intros Hlo Hhi (Ht0 & Htc) (H1 & H2).
  destruct (Rle_dec 0 dk) as [Hd | Hd].
  - assert (0 <= dk * t) by nra. assert (dk * t <= dk * c) by nra. lra.
  - assert (dk * t <= 0) by nra. assert (dk * c <= dk * t) by nra. lra.
Qed.

(** X4: in a zone all of whose bounds are positive, for a direction with a
    non-zero component, [constraint] is exactly the distance at which the
    ray from the origin leaves the box: it is positive, and [t] units along
    the direction stay inside the box if and only if [t <= constraint]. *)
Theorem constraint_is_exit_distance (zn : Zone.t) (d : Vec) :
  positive zn ->
  Vector3.x d <> 0 \/ Vector3.y d <> 0 \/ Vector3.z d <> 0 ->
  exists c, Zone.constraint zn d = Some (Fin c) /\ 0 < c /\
            forall t, 0 <= t -> (Zone.inside zn (Vector3.scale d t) <-> t <= c).
Proof.
  intros Hp Hd.
  pose proof (positive_wf zn Hp) as Hwf.
  destruct (constraint_finite zn d Hwf Hd) as (c & Hc & Hc0 & Hin & Hle).
  pose proof Hp as (Plx & Phx & Ply & Phy & Plz & Phz).
  pose proof Hwf as (Hlx & Hhx & Hly & Hhy & Hlz & Hhz).
  assert (Horigin := candidate_origin zn d c (proj1 (proj1 (filter_In _ _ _) Hin))).
  assert (Hpos : 0 < c).
  { destruct (Req_dec_T c 0) as [-> | N]; [| lra].
    exfalso. destruct Horigin as [(_ & [E | E]) | [(_ & [E | E]) | (_ & [E | E])]]; lra. }
  exists c. split; [exact Hc |]. split; [exact Hpos |].
  intros t Ht. split.
  - intros ((X1 & X2) & (Y1 & Y2) & (Z1 & Z2)). cbn [Vector3.scale Vector3.x Vector3.y Vector3.z] in *.
    destruct (Rle_dec t c) as [L | L]; [exact L | exfalso].
    assert (Hgt : c < t) by lra.
    destruct Horigin as [(_ & [E | E]) | [(_ & [E | E]) | (_ & [E | E])]]; nra.
  - intros Htc. unfold Zone.inside. cbn [Vector3.scale Vector3.x Vector3.y Vector3.z].
    assert (Ax : - Zone.lo_x zn <= 0 + Vector3.x d * c <= Zone.hi_x zn).
    { apply (axis_inside (Zone.lo_x zn) (Zone.hi_x zn)); auto.
      intros q Hq. apply Hle, constraints_in. auto. }
    assert (Ay : - Zone.lo_y zn <= 0 + Vector3.y d * c <= Zone.hi_y zn).
    { apply (axis_inside (Zone.lo_y zn) (Zone.hi_y zn)); auto.
      intros q Hq. apply Hle, constraints_in. auto. }
    assert (Az : - Zone.lo_z zn <= 0 + Vector3.z d * c <= Zone.hi_z zn).
    { apply (axis_inside (Zone.lo_z zn) (Zone.hi_z zn)); auto.
      intros q Hq. apply Hle, constraints_in. auto. }
    repeat split;
      first [ apply (axis_segment (Zone.lo_x zn) (Zone.hi_x zn) _ c); auto; lra
            | apply (axis_segment (Zone.lo_y zn) (Zone.hi_y zn) _ c); auto; lra
            | apply (axis_segment (Zone.lo_z zn) (Zone.hi_z zn) _ c); auto; lra ].
Qed.

Lemma constraint_is_exit_distance_witness :
  exists c, Zone.constraint zone07 (Vector3.mk 1 0 0) = Some (Fin c) /\ 0 < c /\
            forall t, 0 <= t ->
              (Zone.inside zone07 (Vector3.scale (Vector3.mk 1 0 0) t) <-> t <= c).
Proof.
  apply (constraint_is_exit_distance zone07 (Vector3.mk 1 0 0) zone07_positive).
  left. simpl. lra.
Defined.

(** X5: a zero bound stops everything along its axis.  If the direction
    has a non-zero component on an axis one of whose two bounds is zero,
    [constraint] returns [0], whichever way the direction points: also when
    it points away from that face, towards the opposite bound. *)
Theorem constraint_zero_bound (zn : Zone.t) (d : Vec) :
  Zone.wf zn ->
  (Vector3.x d <> 0 /\ (Zone.lo_x zn = 0 \/ Zone.hi_x zn = 0)) \/
  (Vector3.y d <> 0 /\ (Zone.lo_y zn = 0 \/ Zone.hi_y zn = 0)) \/
  (Vector3.z d <> 0 /\ (Zone.lo_z zn = 0 \/ Zone.hi_z zn = 0)) ->
  Zone.constraint zn d = Some (Fin 0).
Proof.
  intros Hwf Hz.
  assert (Hd : Vector3.x d <> 0 \/ Vector3.y d <> 0 \/ Vector3.z d <> 0) by tauto.
  destruct (constraint_finite zn d Hwf Hd) as (c & Hc & Hc0 & Hin & Hle).
  assert (Hq : exists q, q = 0 /\ In (Fin q) (filter ge0 (Zone.constraints zn d))).
  { destruct Hz as [(N & [E | E]) | [(N & [E | E]) | (N & [E | E])]].
    - exists (- Zone.lo_x zn / Vector3.x d). split; [rewrite E; field; exact N |].
      apply constraints_in. left. unfold Zone.constraints_x.
      rewrite !np_div_nonzero by exact N. apply filter_In. split; [simpl; auto |].
      simpl. apply Rleb_true. rewrite E. right. field. exact N.
    - exists (Zone.hi_x zn / Vector3.x d). split; [rewrite E; field; exact N |].
      apply constraints_in. left. unfold Zone.constraints_x.
      rewrite !np_div_nonzero by exact N. apply filter_In. split; [simpl; auto |].
      simpl. apply Rleb_true. rewrite E. right. field. exact N.
    - exists (- Zone.lo_y zn / Vector3.y d). split; [rewrite E; field; exact N |].
      apply constraints_in. right. left. unfold Zone.constraints_y.
      rewrite !np_div_nonzero by exact N. apply filter_In. split; [simpl; auto |].
      simpl. apply Rleb_true. rewrite E. right. field. exact N.
    - exists (Zone.hi_y zn / Vector3.y d). split; [rewrite E; field; exact N |].
      apply constraints_in. right. left. unfold Zone.constraints_y.
      rewrite !np_div_nonzero by exact N. apply filter_In. split; [simpl; auto |].
      simpl. apply Rleb_true. rewrite E. right. field. exact N.
    - exists (- Zone.lo_z zn / Vector3.z d). split; [rewrite E; field; exact N |].
      apply constraints_in. right. right. unfold Zone.constraints_z.
      rewrite !np_div_nonzero by exact N. apply filter_In. split; [simpl; auto |].
      simpl. apply Rleb_true. rewrite E. right. field. exact N.
    - exists (Zone.hi_z zn / Vector3.z d). split; [rewrite E; field; exact N |].
      apply constraints_in. right. right. unfold Zone.constraints_z.
      rewrite !np_div_nonzero by exact N. apply filter_In. split; [simpl; auto |].
      simpl. apply Rleb_true. rewrite E. right. field. exact N. }
  destruct Hq as (q & Hq0 & Hqin).
  specialize (Hle _ Hqin). simpl in Hle. apply Rltb_false in Hle.
  rewrite Hc. do 2 f_equal. lra.
Qed.

(** The box [[0, 5] x [-1, 1] x [-1, 1]], left along [+x]: five units are
    free, and the constraint is zero. *)
Lemma constraint_zero_bound_witness :
  Zone.constraint (Zone.mk 0 5 1 1 1 1) (Vector3.mk 1 0 0) = Some (Fin 0).
Proof.
  apply constraint_zero_bound.
  - unfold Zone.wf; simpl; lra.
  - left. simpl. split; [lra | left; reflexivity].
Defined.

(** X6: the zero direction, which is what [Vehicle.__init__] sets.  In a
    zone all of whose bounds are positive every ratio is infinite and
    [constraint] returns [+inf]; in a zone all of whose bounds are zero
    every ratio is NaN and [constraint] raises the [ValueError] of [min] on
    an empty sequence. *)
Theorem constraint_zero_direction (zn : Zone.t) :
  (positive zn -> Zone.constraint zn Vector3.zero = Some PInf) /\
  (Zone.lo_x zn = 0 -> Zone.hi_x zn = 0 ->
   Zone.lo_y zn = 0 -> Zone.hi_y zn = 0 ->
   Zone.lo_z zn = 0 -> Zone.hi_z zn = 0 ->
   Zone.constraint zn Vector3.zero = None).
Proof.
  unfold Zone.constraint, Zone.constraints, Zone.constraints_x, Zone.constraints_y,
    Zone.constraints_z, Vector3.zero.
  cbn [Vector3.x Vector3.y Vector3.z app].
  split.
  - intros (Plx & Phx & Ply & Phy & Plz & Phz).
    rewrite (np_div_pos_zero (Zone.hi_x zn)), (np_div_pos_zero (Zone.hi_y zn)),
      (np_div_pos_zero (Zone.hi_z zn)) by assumption.
    rewrite (np_div_neg_zero (- Zone.lo_x zn)), (np_div_neg_zero (- Zone.lo_y zn)),
      (np_div_neg_zero (- Zone.lo_z zn)) by lra.
    reflexivity.
  - intros -> -> -> -> -> ->.
    assert (E : np_div 0 0 = NaN).
    { unfold np_div. destruct (Req_dec_T 0 0) as [_ | N]; [| contradiction N; reflexivity].
      destruct (Rlt_dec 0 0); [lra | reflexivity]. }
    replace (- 0) with 0 by ring. rewrite E. reflexivity.
Qed.

Lemma constraint_zero_direction_witness :
  Zone.constraint zone07 Vector3.zero = Some PInf /\
  Zone.constraint (Zone.mk 0 0 0 0 0 0) Vector3.zero = None.
Proof.
  split.
  - apply (constraint_zero_direction zone07), zone07_positive.
  - apply (constraint_zero_direction (Zone.mk 0 0 0 0 0 0)); reflexivity.
Defined.

(** ** More on Vehicle.move *)

(** A move that returned, in terms of the constraint and of the clipped
    acceleration. *)
Lemma move_inversion (veh veh' : Vehicle.t) (zone : Zone.t) (randomness moved : R)
  (g g' : Rng) :
  Vehicle.wf veh -> 0 <= Vehicle.speed veh ->
  Vehicle.move veh zone randomness g = Ok (veh', moved, g') ->
  exists constraint acc,
    Zone.constraint zone
      (fst (jitter (Vehicle.direction veh) (Vehicle.tick veh * randomness) g)) =
      Some constraint /\
    ge0 constraint = true /\
    clipped (raw_acceleration (Vehicle.tick veh) (Vehicle.speed veh) constraint)
            (- Rmin (Vehicle.speed veh / Vehicle.tick veh) (Vehicle.a veh))
            (Vehicle.a veh) acc /\
    let fast := Rltb 0 acc
                && Rltb (Rabs (Vehicle.v veh - Vehicle.speed veh) / acc) (Vehicle.tick veh) in
    let t := Rabs (Vehicle.v veh - Vehicle.speed veh) / acc in
    moved =
      (if fast
       then Vehicle.speed veh * t + 1 / 2 * acc * t ^ 2 + Vehicle.v veh * (Vehicle.tick veh - t)
       else Vehicle.speed veh * Vehicle.tick veh + 1 / 2 * acc * Vehicle.tick veh ^ 2) /\
    Vehicle.speed veh' =
      (if fast then Vehicle.v veh
       else Rmax (Vehicle.speed veh + acc * Vehicle.tick veh) 0).
Proof.
  intros Hwf Hvi M.
  pose proof (move_unfold veh zone randomness g Hwf Hvi) as H. cbv zeta in H.
  destruct (Zone.constraint zone _) as [constraint |] eqn:Hc; [| congruence].
  destruct H as (acc & Hclip & E).
  rewrite E in M. injection M as <- <- <-.
  exists constraint, acc. split; [reflexivity |].
  split; [eapply constraint_ge0; exact Hc |].
  split; [exact Hclip |]. cbn [Vehicle.speed]. split; reflexivity.
Qed.

(** Reaching cruise speed partway through the tick never takes the vehicle
    further than constant acceleration over the whole tick would. *)
Lemma cruise_not_further (v vi acc tick : R) :
  0 < acc -> 0 <= Rabs (v - vi) / acc < tick ->
  let t := Rabs (v - vi) / acc in
  vi * t + 1 / 2 * acc * t ^ 2 + v * (tick - t) <= vi * tick + 1 / 2 * acc * tick ^ 2.
Proof.
  intros Hacc (Ht0 & Htt) t. fold t in Ht0, Htt.
  assert (E : Rabs (v - vi) = acc * t) by (unfold t; field; lra).
  clearbody t. cbn [pow].
  assert (H1 : 0 <= acc * t) by (apply Rmult_le_pos; lra).
  assert (H2 : 0 <= acc * (tick + t)) by (apply Rmult_le_pos; lra).
  unfold Rabs in E. destruct (Rcase_abs (v - vi)) as [N | P].
  - assert (Ev : v = vi - acc * t) by lra. subst v.
    assert (0 <= (tick - t) * (acc * t + 1 / 2 * (acc * (tick + t))))
      by (apply Rmult_le_pos; lra).
    nra.
  - assert (Ev : v = vi + acc * t) by lra. subst v.
    assert (0 <= acc * ((tick - t) * (tick - t))) by (apply Rmult_le_pos; nra).
    nra.
Qed.

Lemma fast_time (v vi acc tick : R) :
  Rltb 0 acc && Rltb (Rabs (v - vi) / acc) tick = true ->
  0 < acc /\ 0 <= Rabs (v - vi) / acc < tick.
Proof.
  intros H. apply andb_true_iff in H. destruct H as (H1 & H2).
  apply Rltb_true in H1, H2. split; [exact H1 |]. split; [| exact H2].
  apply Rmult_le_pos; [apply Rabs_pos |]. left. apply Rinv_0_lt_compat. exact H1.
Qed.

(** X7: when does a vehicle stay within the constraint of its zone?  For a
    finite constraint [c], the distance moved is at most [c] exactly when
    the acceleration needed to stop at the boundary,
    [a_raw = 2/tick^2 * (c - vi*tick)], is not below the lower clipping
    bound [-min(vi/tick, a)]; when it is below, the vehicle overshoots the
    boundary.  When [a_raw] needs no clipping and cruise speed is not
    reached within the tick, the vehicle ends exactly on the boundary. *)
Theorem move_overshoot (veh veh' : Vehicle.t) (zone : Zone.t) (randomness moved c : R)
  (g g' : Rng) :
  Vehicle.wf veh ->
  0 <= Vehicle.speed veh ->
  Zone.constraint zone
    (fst (jitter (Vehicle.direction veh) (Vehicle.tick veh * randomness) g)) = Some (Fin c) ->
  Vehicle.move veh zone randomness g = Ok (veh', moved, g') ->
  let vi := Vehicle.speed veh in
  let tick := Vehicle.tick veh in
  let a_raw := 2 / tick ^ 2 * (c - vi * tick) in
  let lo := - Rmin (vi / tick) (Vehicle.a veh) in
  (moved <= c <-> lo <= a_raw) /\
  (lo <= a_raw <= Vehicle.a veh ->
   a_raw <= 0 \/ tick <= Rabs (Vehicle.v veh - vi) / a_raw ->
   moved = c).
Proof.
  intros Hwf Hvi Hc M vi tick a_raw lo.
  destruct (move_inversion _ _ _ _ _ _ _ Hwf Hvi M)
    as (constraint & acc & Hc' & _ & Hclip & Hmoved & _).
  rewrite Hc in Hc'. injection Hc' as <-.
  rewrite raw_acceleration_fin in Hclip.
  fold vi tick in Hclip, Hmoved. fold a_raw lo in Hclip.
  destruct Hclip as ((L1 & L2) & B1 & B2 & B3).
  pose proof Hwf as (Hv & Ha & Hp & Ht). fold tick in Ht.
  assert (Hlo0 : lo <= 0) by (apply lower_bound_nonpos; assumption).
  assert (Ec : c = vi * tick + 1 / 2 * a_raw * tick ^ 2).
  { unfold a_raw. field. lra. }
  assert (Ht2 : 0 < tick ^ 2) by (apply pow_lt; exact Ht).
  split.
  - split.
    + intros Hle. destruct (Rle_dec lo a_raw) as [L | L]; [exact L | exfalso].
      assert (Eacc : acc = lo) by (apply B1; lra).
      assert (Hnf : Rltb 0 acc = false) by (apply Rltb_false; lra).
      rewrite Hnf in Hmoved. cbn [andb] in Hmoved.
      rewrite Eacc in Hmoved. nra.
    + intros L.
      assert (Hacc : acc <= a_raw).
      { destruct (Rle_dec a_raw (Vehicle.a veh)) as [U | U].
        - rewrite B3 by lra. lra.
        - rewrite B2 by lra. lra. }
      destruct (Rltb 0 acc && Rltb (Rabs (Vehicle.v veh - vi) / acc) tick) eqn:F.
      * destruct (fast_time _ _ _ _ F) as (Hacc0 & Htime).
        pose proof (cruise_not_further (Vehicle.v veh) vi acc tick Hacc0 Htime) as K.
        cbv zeta in K. rewrite Hmoved. nra.
      * rewrite Hmoved. nra.
  - intros (L & U) Hslow.
    assert (Eacc : acc = a_raw) by (apply B3; lra).
    rewrite Eacc in Hmoved.
    assert (Hnf : Rltb 0 a_raw && Rltb (Rabs (Vehicle.v veh - vi) / a_raw) tick = false).
    { destruct Hslow as [S | S].
      - replace (Rltb 0 a_raw) with false by (symmetry; apply Rltb_false; lra). reflexivity.
      - replace (Rltb (Rabs (Vehicle.v veh - vi) / a_raw) tick) with false
          by (symmetry; apply Rltb_false; lra).
        apply andb_false_r. }
    rewrite Hnf in Hmoved. rewrite Hmoved, Ec. reflexivity.
Qed.

(** At cruise speed [14], heading for a face [0.7] away: the deceleration
    needed is [-140], the clipping bound is [-7], and the vehicle ends
    beyond the face. *)
Lemma move_overshoot_witness :
  exists veh' moved g',
    Vehicle.move fast_car zone07 0.05 still = Ok (veh', moved, g') /\
    0.7 / 1 < moved.
Proof.
  assert (Hwf : Vehicle.wf fast_car) by (unfold Vehicle.wf, fast_car; simpl; lra).
  assert (Hvi : 0 <= Vehicle.speed fast_car) by (unfold fast_car; simpl; lra).
  destruct (move_total fast_car zone07 0.05 still (conj Hwf Hvi) zone07_positive)
    as (veh' & moved & g' & M).
  exists veh', moved, g'. split; [exact M |].
  assert (Hc : Zone.constraint zone07
                 (fst (jitter (Vehicle.direction fast_car)
                         (Vehicle.tick fast_car * 0.05) still)) = Some (Fin (0.7 / 1))).
  { rewrite jitter_zero_samples by reflexivity. exact zone07_constraint_x. }
  destruct (move_overshoot fast_car veh' zone07 0.05 moved (0.7 / 1) still g' Hwf Hvi Hc M)
    as (Hiff & _).
  cbn [fast_car Vehicle.speed Vehicle.tick Vehicle.a] in Hiff.
  destruct (Rle_dec moved (0.7 / 1)) as [L | L]; [exfalso | lra].
  apply Hiff in L.
  assert (Hmin : Rmin (14 / 0.1) 7 = 7) by (apply Rmin_right; lra).
  rewrite Hmin in L. cbn [pow] in L.
  assert (E : 2 / (0.1 * (0.1 * 1)) * (0.7 / 1 - 14 * 0.1) = - 140) by (field_simplify; lra).
  lra.
Defined.

(** X8: a vehicle not above its cruise speed stays so.  If
    [0 <= speed <= v] before a call of [move] that returns, then
    [0 <= speed <= v] after it, and the distance moved is at most
    [boundary = v * tick]. *)
Theorem move_within_cruise (veh veh' : Vehicle.t) (zone : Zone.t) (randomness moved : R)
  (g g' : Rng) :
  Vehicle.wf veh ->
  0 <= Vehicle.speed veh <= Vehicle.v veh ->
  Vehicle.move veh zone randomness g = Ok (veh', moved, g') ->
  0 <= Vehicle.speed veh' <= Vehicle.v veh' /\
  0 <= moved <= Vehicle.boundary veh.
Proof.
  intros Hwf (Hvi & Hvv) M.
  destruct (move_inversion _ _ _ _ _ _ _ Hwf Hvi M)
    as (constraint & acc & _ & _ & Hclip & Hmoved & Hspeed).
  destruct (move_fields _ _ _ _ _ _ _ M) as (_ & Fv & _).
  pose proof (move_roadworthy veh zone randomness g (conj Hwf Hvi)) as Hr.
  rewrite M in Hr. destruct Hr as ((_ & Hs0) & Hm0 & _).
  pose proof Hwf as (Hv & Ha & Hp & Ht).
  rewrite Fv. unfold Vehicle.boundary.
  set (vi := Vehicle.speed veh) in *. set (v := Vehicle.v veh) in *.
  set (tick := Vehicle.tick veh) in *.
  destruct (Rltb 0 acc && Rltb (Rabs (v - vi) / acc) tick) eqn:F.
  - destruct (fast_time _ _ _ _ F) as (Hacc0 & Ht0 & Htt).
    set (t := Rabs (v - vi) / acc) in *.
    assert (E : Rabs (v - vi) = acc * t) by (unfold t; field; lra).
    rewrite Rabs_pos_eq in E by lra.
    split; [rewrite Hspeed; lra |]. split; [exact Hm0 |].
    rewrite Hmoved. cbn [pow].
    assert (vi * t + 1 / 2 * acc * (t * (t * 1)) <= v * t) by nra.
    nra.
  - assert (Hle : vi + acc * tick <= v).
    { apply andb_false_iff in F. destruct F as [F | F]; apply Rltb_false in F.
      - nra.
      - destruct (Rle_dec acc 0) as [N | N]; [nra |].
        assert (Hacc0 : 0 < acc) by lra.
        rewrite Rabs_pos_eq in F by lra.
        assert (E : (v - vi) / acc * acc = v - vi) by (field; lra).
        nra. }
    split.
    + rewrite Hspeed. split; [apply Rmax_r |]. apply Rmax_lub; lra.
    + split; [exact Hm0 |]. rewrite Hmoved. cbn [pow]. nra.
Qed.

Lemma move_within_cruise_witness :
  exists veh' moved g',
    Vehicle.move fast_car zone07 0.05 still = Ok (veh', moved, g') /\
    0 <= Vehicle.speed veh' <= Vehicle.v veh' /\
    0 <= moved <= Vehicle.boundary fast_car.
Proof.
  assert (Hwf : Vehicle.wf fast_car) by (unfold Vehicle.wf, fast_car; simpl; lra).
  assert (Hvi : 0 <= Vehicle.speed fast_car <= Vehicle.v fast_car)
    by (unfold fast_car; simpl; lra).
  destruct (move_total fast_car zone07 0.05 still (conj Hwf (proj1 Hvi)) zone07_positive)
    as (veh' & moved & g' & M).
  exists veh', moved, g'. split; [exact M |].
  exact (move_within_cruise fast_car veh' zone07 0.05 moved still g' Hwf Hvi M).
Defined.

(** X9: acceleration towards cruise speed.  When the constraint is far
    enough for full acceleration ([+inf], or at least
    [vi*tick + 1/2*a*tick^2]) and the vehicle is not above cruise speed,
    a call of [move] that returns leaves the speed at
    [min(v, vi + a*tick)]: it never decreases and it reaches [v] without
    passing it. *)
Theorem move_unconstrained (veh veh' : Vehicle.t) (zone : Zone.t) (randomness moved : R)
  (g g' : Rng) (constraint : float64) :
  Vehicle.wf veh ->
  0 <= Vehicle.speed veh <= Vehicle.v veh ->
  Zone.constraint zone
    (fst (jitter (Vehicle.direction veh) (Vehicle.tick veh * randomness) g)) = Some constraint ->
  match constraint with
  | Fin c => Vehicle.speed veh * Vehicle.tick veh
             + 1 / 2 * Vehicle.a veh * Vehicle.tick veh ^ 2 <= c
  | PInf => True
  | _ => False
  end ->
  Vehicle.move veh zone randomness g = Ok (veh', moved, g') ->
  Vehicle.speed veh' = Rmin (Vehicle.v veh) (Vehicle.speed veh + Vehicle.a veh * Vehicle.tick veh) /\
  Vehicle.speed veh <= Vehicle.speed veh'.
Proof.
  intros Hwf (Hvi & Hvv) Hc Hfar M.
  destruct (move_inversion _ _ _ _ _ _ _ Hwf Hvi M)
    as (constraint' & acc & Hc' & _ & Hclip & _ & Hspeed).
  rewrite Hc in Hc'. injection Hc' as <-.
  pose proof Hwf as (Hv & Ha & Hp & Ht).
  set (vi := Vehicle.speed veh) in *. set (v := Vehicle.v veh) in *.
  set (tick := Vehicle.tick veh) in *. set (a := Vehicle.a veh) in *.
  assert (Eacc : acc = a).
  { destruct constraint as [c | | |]; try contradiction.
    - rewrite raw_acceleration_fin in Hclip.
      destruct Hclip as (_ & _ & B2 & B3).
      assert (Ht2 : 0 < tick ^ 2) by (apply pow_lt; exact Ht).
      assert (Hraw : a <= 2 / tick ^ 2 * (c - vi * tick)).
      { assert (E : 2 / tick ^ 2 * (c - vi * tick) * tick ^ 2 = 2 * (c - vi * tick))
          by (field; lra).
        nra. }
      pose proof (lower_bound_nonpos vi tick a Hvi Ht Ha) as Hlo.
      destruct (Rle_dec (2 / tick ^ 2 * (c - vi * tick)) a) as [U | U].
      + rewrite B3 by lra. lra.
      + apply B2. lra.
    - unfold raw_acceleration in Hclip. cbn [fsub fscale] in Hclip.
      pose proof (two_over_sqr_pos tick Ht) as Hk.
      destruct (Rlt_dec 0 (2 / tick ^ 2)) as [_ | N]; [| contradiction].
      destruct Hclip as (_ & E). exact E. }
  subst acc.
  replace (Rltb 0 a) with true in Hspeed by (symmetry; apply Rltb_true; exact Ha).
  cbn [andb] in Hspeed.
  rewrite Rabs_pos_eq in Hspeed by lra.
  assert (E : (v - vi) / a * a = v - vi) by (field; lra).
  destruct (Rltb ((v - vi) / a) tick) eqn:F.
  - apply Rltb_true in F. rewrite Hspeed.
    rewrite Rmin_left by nra. split; [reflexivity | lra].
  - apply Rltb_false in F. rewrite Hspeed.
    rewrite Rmin_right by nra. rewrite Rmax_left by nra.
    split; [reflexivity | nra].
Qed.

Lemma move_unconstrained_witness :
  exists veh' moved g',
    Vehicle.move test_car zone07 0.05 still = Ok (veh', moved, g') /\
    Vehicle.speed veh' = Rmin 14 (0 + 7 * 0.1).
Proof.
  assert (Hvi : 0 <= Vehicle.speed test_car <= Vehicle.v test_car)
    by (unfold test_car; simpl; lra).
  destruct (move_total test_car zone07 0.05 still (conj test_car_wf (proj1 Hvi)) zone07_positive)
    as (veh' & moved & g' & M).
  exists veh', moved, g'. split; [exact M |].
  assert (Hc : Zone.constraint zone07
                 (fst (jitter (Vehicle.direction test_car)
                         (Vehicle.tick test_car * 0.05) still)) = Some (Fin (0.7 / 1))).
  { rewrite jitter_zero_samples by reflexivity. exact zone07_constraint_x. }
  apply (move_unconstrained test_car veh' zone07 0.05 moved still g' (Fin (0.7 / 1))
           test_car_wf Hvi Hc).
  - unfold test_car. cbn [Vehicle.speed Vehicle.tick Vehicle.a pow]. lra.
  - exact M.
Defined.

(** ** More on the scans *)

Ltac split_if :=
  match goal with
  | |- context [if ?c then _ else _] => let E := fresh "E" in destruct c eqn:E
  end.

Lemma fold_left_invariant {A B : Type} (f : A -> B -> A) (P : A -> Prop) (l : list B) :
  (forall a b, In b l -> P a -> P (f a b)) ->
  forall a, P a -> P (fold_left f l a).
Proof.
  induction l as [| b l IH]; intros Hstep a Ha; simpl; [exact Ha |].
  apply IH.
  - intros a' b' Hb'. apply Hstep. simpl. auto.
  - apply Hstep; [simpl; auto | exact Ha].
Qed.

(** What holds before the scans and is kept by every iteration of the two
    loops holds after them. *)
Lemma scan_induction (P : Scenario.Scan -> Prop) (vs : list Vehicle.t) (hs : list Human.t)
  (k : nat) (vehicle : Vehicle.t) (base : R) (off : list nat) :
  P (Scenario.scan_init k vehicle base off) ->
  (forall st other, In other (Scenario.others k vs) -> P st ->
                    P (Scenario.see_vehicle k vehicle st other)) ->
  (forall st human, In human hs -> P st -> P (Scenario.see_human k vehicle st human)) ->
  P (Scenario.scan vs hs k vehicle base off).
Proof.
  intros Hinit Hv Hh. unfold Scenario.scan, Scenario.scan_vehicles.
  apply fold_left_invariant; [exact Hh |].
  apply fold_left_invariant; [exact Hv | exact Hinit].
Qed.

Lemma magnitude_nonneg (p : Vec) : 0 <= Vector3.magnitude p.
Proof. unfold Vector3.magnitude. apply sqrt_pos. Qed.

(** The reward is only ever multiplied by a factor between [0.9] and [1]. *)
Lemma scan_reward_bounds (vs : list Vehicle.t) (hs : list Human.t) (k : nat)
  (vehicle : Vehicle.t) (base : R) (off : list nat) :
  0 <= Scenario.reward (Scenario.scan_init k vehicle base off) ->
  0 <= Scenario.reward (Scenario.scan vs hs k vehicle base off)
    <= Scenario.reward (Scenario.scan_init k vehicle base off).
Proof.
  intros H0.
  apply (scan_induction
           (fun st => 0 <= Scenario.reward st
                      <= Scenario.reward (Scenario.scan_init k vehicle base off))).
  - lra.
  - intros st other _ Hst. unfold Scenario.see_vehicle.
    destruct (Vehicle.offline other); [exact Hst |].
    destruct (_ || _); [exact Hst |].
    destruct (Rltb _ 1); [exact Hst |].
    destruct (_ && _); [exact Hst |].
    destruct (Rltb _ 10) eqn:E10; cbn [andb]; [| exact Hst].
    destruct (_ && _); [| exact Hst].
    cbn [Scenario.reward]. apply Rltb_true in E10.
    pose proof (magnitude_nonneg
                  (Vector3.sub (Vehicle.position other) (Vehicle.position vehicle))).
    nra.
  - intros st human _ Hst. unfold Scenario.see_human.
    destruct (_ || _); [exact Hst |].
    destruct (Rltb _ 1); [exact Hst |].
    destruct (_ && _); [exact Hst |].
    destruct (Rltb _ 10) eqn:E10; cbn [andb]; [| exact Hst].
    destruct (Rltb 5 _); [| exact Hst].
    cbn [Scenario.reward]. apply Rltb_true in E10.
    pose proof (magnitude_nonneg
                  (Vector3.sub (Human.position human) (Vehicle.position vehicle))).
    nra.
Qed.

(** A warning, once set, is [speed / v] of a vehicle faster than [1]. *)
Lemma scan_warning_value (vs : list Vehicle.t) (hs : list Human.t) (k : nat)
  (vehicle : Vehicle.t) (base : R) (off : list nat) :
  let st := Scenario.scan vs hs k vehicle base off in
  Scenario.warning st = 0 \/
  (Scenario.warning st = Vehicle.speed vehicle / Vehicle.v vehicle /\
   1 < Vehicle.speed vehicle).
Proof.
  apply (scan_induction
           (fun st => Scenario.warning st = 0 \/
                      (Scenario.warning st = Vehicle.speed vehicle / Vehicle.v vehicle /\
                       1 < Vehicle.speed vehicle))).
  - left. cbn [Scenario.scan_init Scenario.warning]. lra.
  - intros st other _ Hst. unfold Scenario.see_vehicle.
    split_if; [exact Hst |]. split_if; [exact Hst |]. split_if; [exact Hst |].
    split_if.
    + right. cbn [Scenario.warning]. split; [reflexivity |].
      apply andb_true_iff in E2. destruct E2 as (_ & E2). apply Rltb_true in E2. exact E2.
    + split_if; exact Hst.
  - intros st human _ Hst. unfold Scenario.see_human.
    split_if; [exact Hst |]. split_if; [exact Hst |].
    split_if.
    + right. cbn [Scenario.warning]. split; [reflexivity |].
      apply andb_true_iff in E1. destruct E1 as (_ & E1). apply Rltb_true in E1. exact E1.
    + split_if; exact Hst.
Qed.

(** No crash without contact. *)
Lemma crash_needs_contact (vs : list Vehicle.t) (hs : list Human.t) (k : nat)
  (vehicle : Vehicle.t) (base : R) (off : list nat) :
  Scenario.crashed (Scenario.scan vs hs k vehicle base off) = true ->
  contact vs hs k vehicle.
Proof.
  apply (scan_induction
           (fun st => Scenario.crashed st = true -> contact vs hs k vehicle)).
  - cbn [Scenario.scan_init Scenario.crashed]. discriminate.
  - intros st other Hin Hst. unfold Scenario.see_vehicle.
    destruct (Vehicle.offline other) eqn:Hoff; [exact Hst |].
    destruct (_ || _); [exact Hst |].
    destruct (Rltb _ 1) eqn:E1.
    + intros _. left. exists other. apply Rltb_true in E1. auto.
    + destruct (_ && _); [exact Hst |]. destruct (_ && _); exact Hst.
  - intros st human Hin Hst. unfold Scenario.see_human.
    destruct (_ || _); [exact Hst |].
    destruct (Rltb _ 1) eqn:E1.
    + intros _. right. exists human. apply Rltb_true in E1. auto.
    + destruct (_ && _); [exact Hst |]. destruct (_ && _); exact Hst.
Qed.

(** With every online other vehicle and every human at ten units or more,
    the scans change nothing but the observation. *)
Lemma far_scan (vs : list Vehicle.t) (hs : list Human.t) (k : nat)
  (vehicle : Vehicle.t) (base : R) (off : list nat) :
  (forall other, In other (Scenario.others k vs) -> Vehicle.offline other = false ->
     10 <= Vector3.magnitude (Vector3.sub (Vehicle.position other) (Vehicle.position vehicle))) ->
  (forall human, In human hs ->
     10 <= Vector3.magnitude (Vector3.sub (Human.position human) (Vehicle.position vehicle))) ->
  frozen (Scenario.scan_init k vehicle base off) (Scenario.scan vs hs k vehicle base off).
Proof.
  intros Hv Hh.
  apply (scan_induction (fun st => frozen (Scenario.scan_init k vehicle base off) st)).
  - unfold frozen. auto.
  - intros st other Hin Hst. unfold Scenario.see_vehicle.
    destruct (Vehicle.offline other) eqn:Hoff; [exact Hst |].
    destruct (_ || _); [exact Hst |].
    specialize (Hv other Hin Hoff).
    replace (Rltb (Vector3.magnitude
                     (Vector3.sub (Vehicle.position other) (Vehicle.position vehicle))) 1)
      with false by (symmetry; apply Rltb_false; lra).
    replace (Rltb (Vector3.magnitude
                     (Vector3.sub (Vehicle.position other) (Vehicle.position vehicle))) 3)
      with false by (symmetry; apply Rltb_false; lra).
    replace (Rltb (Vector3.magnitude
                     (Vector3.sub (Vehicle.position other) (Vehicle.position vehicle))) 10)
      with false by (symmetry; apply Rltb_false; lra).
    exact Hst.
  - intros st human Hin Hst. unfold Scenario.see_human.
    destruct (_ || _); [exact Hst |].
    specialize (Hh human Hin).
    replace (Rltb (Vector3.magnitude
                     (Vector3.sub (Human.position human) (Vehicle.position vehicle))) 1)
      with false by (symmetry; apply Rltb_false; lra).
    replace (Rltb (Vector3.magnitude
                     (Vector3.sub (Human.position human) (Vehicle.position vehicle))) 3)
      with false by (symmetry; apply Rltb_false; lra).
    replace (Rltb (Vector3.magnitude
                     (Vector3.sub (Human.position human) (Vehicle.position vehicle))) 10)
      with false by (symmetry; apply Rltb_false; lra).
    exact Hst.
Qed.

(** A human within three units of a vehicle faster than [1] ends the
    scans with a crash or a warning. *)
Lemma feared_stops (vs : list Vehicle.t) (hs : list Human.t) (k : nat)
  (vehicle : Vehicle.t) (base : R) (off : list nat) (human : Human.t) :
  0 < Vehicle.v vehicle ->
  In human hs ->
  Scenario.feared vehicle human = true ->
  let st := Scenario.scan vs hs k vehicle base off in
  Scenario.truthy (Scenario.warning st) || Scenario.crashed st = true.
Proof.
  intros Hv Hin Hf st. unfold st, Scenario.scan.
  destruct (in_split _ _ Hin) as (l1 & l2 & ->).
  rewrite fold_left_app. cbn [fold_left].
  set (before := fold_left (Scenario.see_human k vehicle) l1
                   (Scenario.scan_vehicles vs k vehicle base off)).
  assert (Hafter : Scenario.truthy (Scenario.warning (Scenario.see_human k vehicle before human))
                   || Scenario.crashed (Scenario.see_human k vehicle before human) = true).
  { unfold Scenario.see_human.
    destruct (Scenario.truthy (Scenario.warning before) || Scenario.crashed before) eqn:S;
      [exact S |].
    destruct (Rltb _ 1); [cbn [Scenario.crashed]; apply orb_true_r |].
    unfold Scenario.feared in Hf. rewrite Hf.
    cbn [Scenario.warning Scenario.crashed].
    apply andb_true_iff in Hf. destruct Hf as (_ & Hs). apply Rltb_true in Hs.
    apply orb_true_iff. left. apply truthy_true.
    unfold Rdiv. apply Rmult_integral_contrapositive_currified; [lra |].
    apply Rinv_neq_0_compat. lra. }
  eapply frozen_stop; [| exact Hafter].
  apply see_humans_frozen. exact Hafter.
Qed.

(** ** More on the tick *)

Lemma wander_nth (hs : list Human.t) :
  forall g k h, nth_error hs k = Some h ->
    exists g0, nth_error (fst (Scenario.wander hs g)) k = Some (fst (Human.move h 0.5 g0)).
Proof.
  induction hs as [| h0 hs IH]; intros g k h Hk; [destruct k; discriminate |].
  cbn [Scenario.wander].
  destruct (Human.move h0 0.5 g) as (h0', g1) eqn:M.
  specialize (IH g1). destruct (Scenario.wander hs g1) as (hs', g2).
  cbn [fst] in *.
  destruct k as [| k]; simpl in Hk.
  - injection Hk as <-. exists g. rewrite M. reflexivity.
  - destruct (IH k h Hk) as (g0 & E). exists g0. exact E.
Qed.

Lemma human_move_make (h : Human.t) (randomness : R) (g : Rng) :
  Human.v (fst (Human.move h randomness g)) = Human.v h /\
  Human.tick (fst (Human.move h randomness g)) = Human.tick h.
Proof.
  unfold Human.move. destruct (jitter _ _ _) as (rotated, g1). split; reflexivity.
Qed.

Lemma step_frame (s s' : Scenario.t) (zones : list Zone.t) (g g' : Rng)
  (ys : list Scenario.Yield) :
  Scenario.step s zones g = (ys, Ok (s', g')) ->
  Scenario.elapsed s' = S (Scenario.elapsed s) /\
  Scenario.tick s' = Scenario.tick s /\
  (forall k veh, nth_error (Scenario.vehicles s) k = Some veh ->
     exists veh', nth_error (Scenario.vehicles s') k = Some veh' /\
                  same_make veh veh' /\
                  (Vehicle.offline veh = true -> Vehicle.offline veh' = true)) /\
  (forall k h, nth_error (Scenario.humans s) k = Some h ->
     exists h', nth_error (Scenario.humans s') k = Some h' /\
                Human.v h' = Human.v h /\ Human.tick h' = Human.tick h).
Proof.
  intros Hstep.
  destruct (step_ok _ _ _ _ _ _ Hstep) as (vs1 & rewards & g1 & A & Hh & L & Hall).
  destruct (advance_spec _ _ _ _ _ _ A) as (_ & _ & Hadv).
  assert (Hmeta : Scenario.elapsed s' = S (Scenario.elapsed s) /\
                  Scenario.tick s' = Scenario.tick s).
  { rewrite step_unfold, A in Hstep. cbv zeta in Hstep.
    destruct (snd (Scenario.observe_from _ _ _ _ _ _)); [| discriminate].
    injection Hstep as _ <- _. split; reflexivity. }
  destruct Hmeta as (He & Ht).
  split; [exact He |]. split; [exact Ht |]. split.
  - intros k veh Hk.
    destruct (Hadv k veh Hk) as (veh1 & B1 & B2 & B3 & _ & B4 & B5).
    destruct (Hall k veh1 B1) as (base & _ & _ & C).
    assert (Hmake : same_make veh veh1 /\ Vehicle.offline veh1 = Vehicle.offline veh).
    { split; [| exact B2].
      destruct (Vehicle.offline veh) eqn:Hoff.
      - rewrite (B3 eq_refl). unfold same_make. auto.
      - destruct (Nat.le_gt_cases (length zones) k) as [Hge | Hlt].
        + destruct (B4 Hge) as (-> & _). unfold same_make. auto.
        + destruct (B5 eq_refl Hlt) as (zone & moved & g0 & g0' & _ & M & _).
          destruct (move_fields _ _ _ _ _ _ _ M) as (_ & F1 & F2 & F3 & F4 & _).
          unfold same_make. auto. }
    destruct Hmake as (Hm & Ho).
    eexists. split; [exact C |].
    destruct (goes_offline _ _ _ _ _); (split; [exact Hm |]).
    + intros _. reflexivity.
    + intros H. congruence.
  - intros k h Hk. rewrite Hh.
    destruct (wander_nth (Scenario.humans s) g1 k h Hk) as (g0 & E).
    eexists. split; [exact E |]. apply human_move_make.
Qed.

(** X10: what a run of completed ticks never changes.  After [n] ticks
    [elapsed] has grown by [n]; the scenario's tick, the number of vehicles
    and the number of humans are the same; every vehicle has kept its [v],
    [a], [priority] and [tick] and, if it was offline, is still offline;
    every human has kept its [v] and [tick]. *)
Theorem run_frame (ticks : list (list Zone.t)) :
  forall (s s' : Scenario.t) (g g' : Rng) (yss : list (list Scenario.Yield)),
    Scenario.run s ticks g = (yss, Ok (s', g')) ->
    Scenario.elapsed s' = (Scenario.elapsed s + length ticks)%nat /\
    Scenario.tick s' = Scenario.tick s /\
    length (Scenario.vehicles s') = length (Scenario.vehicles s) /\
    length (Scenario.humans s') = length (Scenario.humans s) /\
    (forall k veh, nth_error (Scenario.vehicles s) k = Some veh ->
       exists veh', nth_error (Scenario.vehicles s') k = Some veh' /\
                    same_make veh veh' /\
                    (Vehicle.offline veh = true -> Vehicle.offline veh' = true)) /\
    (forall k h, nth_error (Scenario.humans s) k = Some h ->
       exists h', nth_error (Scenario.humans s') k = Some h' /\
                  Human.v h' = Human.v h /\ Human.tick h' = Human.tick h).
Proof.
  induction ticks as [| zones ticks IH]; intros s s' g g' yss Hrun.
  - simpl in Hrun. injection Hrun as <- <- <-.
    split; [simpl; lia |]. split; [reflexivity |]. split; [reflexivity |].
    split; [reflexivity |]. split.
    + intros k veh Hk. exists veh. unfold same_make. repeat split; auto.
    + intros k h Hk. exists h. auto.
  - simpl in Hrun.
    destruct (Scenario.step s zones g) as (ys0, [(s1, g1) | e]) eqn:Hstep; [| discriminate].
    destruct (Scenario.run s1 ticks g1) as (yss1, r1) eqn:Hrest.
    injection Hrun as <- ->.
    destruct (step_frame _ _ _ _ _ _ Hstep) as (E1 & T1 & V1 & H1).
    destruct (step_lengths _ _ _ _ _ _ Hstep) as (Lv & Lh & _).
    destruct (IH _ _ _ _ _ Hrest) as (E2 & T2 & Lv2 & Lh2 & V2 & H2).
    split; [simpl; lia |]. split; [congruence |]. split; [congruence |].
    split; [congruence |]. split.
    + intros k veh Hk.
      destruct (V1 k veh Hk) as (veh1 & A1 & (M1 & M2 & M3 & M4) & O1).
      destruct (V2 k veh1 A1) as (veh2 & A2 & (N1 & N2 & N3 & N4) & O2).
      exists veh2. split; [exact A2 |]. split; [unfold same_make; repeat split; congruence |].
      auto.
    + intros k h Hk.
      destruct (H1 k h Hk) as (h1 & A1 & B1 & C1).
      destruct (H2 k h1 A1) as (h2 & A2 & B2 & C2).
      exists h2. split; [exact A2 |]. split; congruence.
Qed.

Lemma run_frame_witness :
  exists yss s' g',
    Scenario.run pair_scene [[zone07; zone07]; [zone07; zone07]; [zone07; zone07]] still =
      (yss, Ok (s', g')) /\
    Scenario.elapsed s' = 3%nat /\
    length (Scenario.vehicles s') = 2%nat.
Proof.
  destruct (run_total [[zone07; zone07]; [zone07; zone07]; [zone07; zone07]]
              pair_scene still pair_scene_roadworthy)
    as (yss & s' & g' & Hrun).
  { repeat constructor; simpl; try lia; apply zone07_positive. }
  exists yss, s', g'. split; [exact Hrun |].
  destruct (run_frame _ _ _ _ _ _ Hrun) as (E & _ & L & _).
  split; [exact E | exact L].
Defined.

(** X11: how a vehicle goes offline.  After a completed tick each vehicle
    is what phase 1 left of it, with at most its flag [offline] set.  A
    vehicle still online has an odometer below [20]; a vehicle that was
    online and is now offline has an odometer of at least [20] or was, in
    the positions after the moves, less than one unit from an online
    vehicle or from a human. *)
Theorem offline_transitions (s s' : Scenario.t) (zones : list Zone.t) (g g' : Rng)
  (ys : list Scenario.Yield) :
  Scenario.step s zones g = (ys, Ok (s', g')) ->
  exists vs1 rewards g1,
    Scenario.advance (Scenario.vehicles s) zones g = Ok (vs1, rewards, g1) /\
    forall k veh1, nth_error vs1 k = Some veh1 ->
      exists veh',
        nth_error (Scenario.vehicles s') k = Some veh' /\
        (veh' = veh1 \/ veh' = Vehicle.switch_off veh1) /\
        (Vehicle.offline veh' = false -> Vehicle.odometer veh' < 20) /\
        (Vehicle.offline veh1 = false -> Vehicle.offline veh' = true ->
         20 <= Vehicle.odometer veh1 \/ contact vs1 (Scenario.humans s') k veh1).
Proof.
  intros Hstep.
  destruct (step_ok _ _ _ _ _ _ Hstep) as (vs1 & rewards & g1 & A & Hh & L & Hall).
  exists vs1, rewards, g1. split; [exact A |].
  intros k veh1 Hk. destruct (Hall k veh1 Hk) as (base & _ & _ & C).
  eexists. split; [exact C |].
  unfold goes_offline.
  destruct (Vehicle.offline veh1) eqn:Hoff; cbn [negb andb].
  - split; [auto |]. split; [congruence | discriminate].
  - destruct (Scenario.finished veh1) eqn:Hfin; cbn [orb].
    + split; [auto |]. split; [cbn; discriminate |].
      intros _ _. left. unfold Scenario.finished in Hfin. apply Rleb_true in Hfin. exact Hfin.
    + destruct (Scenario.crashed _) eqn:Hcr.
      * split; [auto |]. split; [cbn; discriminate |].
        intros _ _. right. eapply crash_needs_contact. exact Hcr.
      * split; [auto |]. split; [| congruence].
        intros _. unfold Scenario.finished in Hfin. apply Rleb_false in Hfin. exact Hfin.
Qed.

Lemma offline_transitions_witness :
  exists ys s' g' vs1 rewards g1,
    Scenario.step pair_scene [zone07; zone07] still = (ys, Ok (s', g')) /\
    Scenario.advance (Scenario.vehicles pair_scene) [zone07; zone07] still =
      Ok (vs1, rewards, g1).
Proof.
  destruct (step_total pair_scene [zone07; zone07] still pair_scene_roadworthy)
    as (ys & s' & g' & Hstep & _).
  { repeat constructor; apply zone07_positive. }
  { simpl; lia. }
  destruct (offline_transitions pair_scene s' [zone07; zone07] still g' ys Hstep)
    as (vs1 & rewards & g1 & A & _).
  exists ys, s', g', vs1, rewards, g1. split; assumption.
Defined.

(** X12: a tuple with [done = true] is final.  In a completed tick every
    vehicle whose tuple says [done] is offline afterwards, so on every
    later tick it yields zeros. *)
Theorem done_means_offline (s s' : Scenario.t) (zones : list Zone.t) (g g' : Rng)
  (ys : list Scenario.Yield) (k : nat) (obs : list Scenario.obsval) (r : R) :
  Scenario.step s zones g = (ys, Ok (s', g')) ->
  nth_error ys k = Some (obs, r, true) ->
  exists veh', nth_error (Scenario.vehicles s') k = Some veh' /\
               Vehicle.offline veh' = true.
Proof.
  intros Hstep Hy.
  destruct (step_ok _ _ _ _ _ _ Hstep) as (vs1 & rewards & g1 & A & Hh & L & Hall).
  assert (Hk : (k < length vs1)%nat) by (rewrite <- L; apply nth_error_Some; congruence).
  destruct (nth_error vs1 k) as [veh1 |] eqn:N; [| apply nth_error_None in N; lia].
  destruct (Hall k veh1 N) as (base & _ & Y & C).
  rewrite Hy in Y. injection Y as Y.
  eexists. split; [exact C |].
  unfold goes_offline, yield_of in *.
  destruct (Vehicle.offline veh1) eqn:Hoff; cbn [negb andb]; [exact Hoff |].
  unfold Scenario.verdict in Y.
  destruct (Scenario.crashed _) eqn:Hcr.
  - rewrite orb_true_r. reflexivity.
  - destruct (Scenario.truthy _); [discriminate |].
    injection Y as _ _ Hfin. rewrite <- Hfin. reflexivity.
Qed.

Lemma done_means_offline_witness :
  exists ys s' g' obs veh',
    Scenario.step wreck_scene [zone07; zone07] still = (ys, Ok (s', g')) /\
    nth_error ys 0 = Some (obs, 0, true) /\
    nth_error (Scenario.vehicles s') 0 = Some veh' /\
    Vehicle.offline veh' = true.
Proof.
  destruct (step_total wreck_scene [zone07; zone07] still wreck_scene_roadworthy)
    as (ys & s' & g' & Hstep & _).
  { repeat constructor; apply zone07_positive. }
  { simpl; lia. }
  destruct (step_offline_stays wreck_scene s' [zone07; zone07] still g' ys 0
              (car 1 21 0 Vector3.zero true) Hstep eq_refl eq_refl) as (_ & Y & _).
  destruct (done_means_offline _ _ _ _ _ _ _ _ _ Hstep Y) as (veh' & V & O).
  eexists ys, s', g', _, veh'. split; [exact Hstep |]. split; [exact Y |].
  split; [exact V | exact O].
Defined.

(** ** Rewards *)

Lemma advanced_roadworthy (zones : list Zone.t) (rewards : list R) (k : nat)
  (veh veh1 : Vehicle.t) (base : R) :
  roadworthy veh ->
  advanced zones rewards k veh veh1 ->
  nth_error rewards k = Some base ->
  roadworthy veh1 /\ 0 <= base.
Proof.
  intros Hr (B2 & B3 & B3' & B4 & B5) Hb.
  destruct (Nat.le_gt_cases (length zones) k) as [Hge | Hlt].
  - destruct (B4 Hge) as (_ & N). congruence.
  - destruct (Vehicle.offline veh) eqn:Hoff.
    + rewrite (B3 eq_refl). rewrite (B3' eq_refl Hlt) in Hb. injection Hb as <-.
      split; [exact Hr | lra].
    + destruct (B5 eq_refl Hlt) as (zone & moved & g0 & g0' & _ & M & Hb').
      pose proof (move_roadworthy veh zone 0.05 g0 Hr) as Hm. rewrite M in Hm.
      destruct Hm as (Hr1 & Hm0 & _).
      rewrite Hb in Hb'. injection Hb' as ->.
      split; [exact Hr1 |].
      destruct Hr1 as ((_ & _ & Hp & _) & _). nra.
Qed.

Lemma nth_error_Forall {A : Type} (P : A -> Prop) (l : list A) (k : nat) (a : A) :
  Forall P l -> nth_error l k = Some a -> P a.
Proof.
  intros H Hk. rewrite Forall_forall in H. apply H. eapply nth_error_In. exact Hk.
Qed.

(** Every tuple yielded by a tick of roadworthy vehicles, seen from the
    state after phase 1. *)
Lemma step_yield_roadworthy (s : Scenario.t) (zones : list Zone.t) (g : Rng) (k : nat)
  (y : Scenario.Yield) :
  Forall roadworthy (Scenario.vehicles s) ->
  nth_error (fst (Scenario.step s zones g)) k = Some y ->
  exists vs1 rewards g1 vehicle base,
    Scenario.advance (Scenario.vehicles s) zones g = Ok (vs1, rewards, g1) /\
    nth_error vs1 k = Some vehicle /\
    nth_error rewards k = Some base /\
    roadworthy vehicle /\ 0 <= base /\
    y = yield_of vs1 (fst (Scenario.wander (Scenario.humans s) g1)) base k vehicle.
Proof.
  intros Hr Hy.
  destruct (step_yield s zones g k y Hy) as (vs1 & rewards & g1 & veh & base & A & N & B & E).
  destruct (advance_spec _ _ _ _ _ _ A) as (Hlen & _ & Hadv).
  assert (Hk : (k < length (Scenario.vehicles s))%nat).
  { rewrite <- Hlen. apply nth_error_Some. congruence. }
  destruct (nth_error (Scenario.vehicles s) k) as [veh0 |] eqn:N0;
    [| apply nth_error_None in N0; lia].
  destruct (Hadv k veh0 N0) as (veh1 & N1 & Hadv1).
  rewrite N in N1. injection N1 as <-.
  destruct (advanced_roadworthy _ _ _ _ _ _ (nth_error_Forall _ _ _ _ Hr N0) Hadv1 B)
    as (Hr1 & Hb).
  exists vs1, rewards, g1, veh, base. auto 10.
Qed.

(** X13: the range of the rewards.  In a tick of vehicles that satisfy the
    constructor's assertions and have a speed [>= 0], the base reward
    [moved * priority] is non-negative; an offline vehicle is yielded [0];
    a vehicle that is not offline is yielded [-5.0], or [-speed/v < 0] with
    [speed > 1], or a reward between [0] and its base reward
    ([5.0 * priority] if its odometer has reached [20]): the proximity
    discounts only ever lower a reward and never change its sign. *)
Theorem reward_range (s : Scenario.t) (zones : list Zone.t) (g : Rng) (k : nat)
  (obs : list Scenario.obsval) (r : R) (done : bool) :
  Forall roadworthy (Scenario.vehicles s) ->
  nth_error (fst (Scenario.step s zones g)) k = Some (obs, r, done) ->
  exists vs1 rewards g1 vehicle base,
    Scenario.advance (Scenario.vehicles s) zones g = Ok (vs1, rewards, g1) /\
    nth_error vs1 k = Some vehicle /\
    nth_error rewards k = Some base /\
    0 <= base /\
    (Vehicle.offline vehicle = true -> r = 0) /\
    (Vehicle.offline vehicle = false ->
     r = -5.0 \/
     (r = - (Vehicle.speed vehicle / Vehicle.v vehicle) /\ 1 < Vehicle.speed vehicle /\ r < 0) \/
     0 <= r <= (if Scenario.finished vehicle then 5.0 * Vehicle.priority vehicle else base)).
Proof.
  intros Hr Hy.
  destruct (step_yield_roadworthy s zones g k _ Hr Hy)
    as (vs1 & rewards & g1 & veh & base & A & N & B & Hr1 & Hb & E).
  exists vs1, rewards, g1, veh, base.
  split; [exact A |]. split; [exact N |]. split; [exact B |]. split; [exact Hb |].
  unfold yield_of in E.
  set (hs1 := fst (Scenario.wander (Scenario.humans s) g1)) in *.
  destruct (Vehicle.offline veh) eqn:Hoff.
  - split; [| discriminate]. intros _. injection E as _ -> _.
    destruct (advance_spec _ _ _ _ _ _ A) as (Hlen & _ & Hadv).
    assert (Hk : (k < length (Scenario.vehicles s))%nat).
    { rewrite <- Hlen. apply nth_error_Some. congruence. }
    destruct (nth_error (Scenario.vehicles s) k) as [veh0 |] eqn:N0;
      [| apply nth_error_None in N0; lia].
    destruct (Hadv k veh0 N0) as (veh1 & N1 & B2 & _ & B3 & B4 & _).
    rewrite N in N1. injection N1 as <-.
    destruct (Nat.le_gt_cases (length zones) k) as [Hge | Hlt].
    + destruct (B4 Hge) as (_ & X). congruence.
    + rewrite B3 in B by congruence. congruence.
  - split; [discriminate |]. intros _.
    destruct Hr1 as ((Hv & _ & Hp & _) & Hs).
    unfold Scenario.verdict in E.
    destruct (Scenario.crashed _) eqn:Hcr.
    + left. congruence.
    + destruct (Scenario.truthy _) eqn:Hw.
      * right. left. injection E as _ -> _.
        apply truthy_true in Hw.
        destruct (scan_warning_value vs1 hs1 k veh base []) as [W | (W & S)];
          [contradiction |].
        rewrite W. split; [reflexivity |]. split; [exact S |].
        assert (0 < Vehicle.speed veh / Vehicle.v veh).
        { apply Rdiv_lt_0_compat; lra. }
        lra.
      * right. right. injection E as _ -> _.
        pose proof (scan_reward_bounds vs1 hs1 k veh base []) as Hb2.
        cbn [Scenario.scan_init Scenario.reward] in Hb2.
        apply Hb2. destruct (Scenario.finished veh); lra.
Qed.

Lemma reward_range_witness :
  exists obs r done base,
    nth_error (fst (Scenario.step pair_scene [zone07; zone07] still)) 1 = Some (obs, r, done) /\
    0 <= base.
Proof.
  destruct (step_total pair_scene [zone07; zone07] still pair_scene_roadworthy)
    as (ys & s' & g' & Hstep & _).
  { repeat constructor; apply zone07_positive. }
  { simpl; lia. }
  destruct (step_lengths _ _ _ _ _ _ Hstep) as (_ & _ & L).
  destruct ys as [| y0 [| ((obs, r), done) ys]]; try discriminate.
  assert (H : nth_error (fst (Scenario.step pair_scene [zone07; zone07] still)) 1 =
              Some (obs, r, done)) by (rewrite Hstep; reflexivity).
  destruct (reward_range pair_scene [zone07; zone07] still 1 obs r done
              pair_scene_roadworthy H)
    as (vs1 & rewards & g1 & vehicle & base & _ & _ & _ & Hb & _).
  exists obs, r, done, base. split; assumption.
Defined.

(** Phase 1 on a single vehicle with the zero direction. *)
Lemma lone_parked_advance (veh : Vehicle.t) (zone : Zone.t) (g g1 : Rng)
  (vs1 : list Vehicle.t) (rewards : list R) :
  Vehicle.direction veh = Vector3.zero ->
  Vehicle.offline veh = false ->
  Scenario.advance [veh] [zone] g = Ok (vs1, rewards, g1) ->
  exists veh1 moved,
    Vehicle.move veh zone 0.05 g = Ok (veh1, moved, g1) /\
    vs1 = [veh1] /\
    rewards = [moved * Vehicle.priority veh1] /\
    Vehicle.position veh1 = Vehicle.position veh /\
    Vehicle.offline veh1 = false.
Proof.
  intros Hd Hoff A. cbn [Scenario.advance] in A. rewrite Hoff in A.
  destruct (Vehicle.move veh zone 0.05 g) as [((veh1, moved), g') | e] eqn:M;
    cbn [bind] in A; [| discriminate].
  injection A as <- <- <-.
  destruct (parked_stays _ _ _ _ _ _ _ M Hd) as (P & _).
  destruct (move_fields _ _ _ _ _ _ _ M) as (F & _).
  exists veh1, moved. repeat split; auto. congruence.
Qed.

Lemma walkers_stay (ps : list Vec) :
  forall g, fst (Scenario.wander (map walker ps) g) = map walker ps.
Proof.
  induction ps as [| p ps IH]; intros g; [reflexivity |].
  cbn [map Scenario.wander].
  pose proof (walker_stays p 0.5 g) as W.
  destruct (Human.move (walker p) 0.5 g) as (h', g1).
  specialize (IH g1). destruct (Scenario.wander (map walker ps) g1) as (hs', g2).
  cbn [fst] in *. congruence.
Qed.

(** X14: a frightened human always costs.  If, in the positions after the
    moves, some human is within three units of a vehicle that is not
    offline and is faster than [1] (the human's flag [feared] in the
    observation is true), the reward yielded to that vehicle is negative:
    [-5.0] or minus its warning. *)
Theorem feared_costs (s : Scenario.t) (zones : list Zone.t) (g : Rng) (k : nat)
  (obs : list Scenario.obsval) (r : R) (done : bool) :
  Forall roadworthy (Scenario.vehicles s) ->
  nth_error (fst (Scenario.step s zones g)) k = Some (obs, r, done) ->
  exists vs1 rewards g1 vehicle,
    Scenario.advance (Scenario.vehicles s) zones g = Ok (vs1, rewards, g1) /\
    nth_error vs1 k = Some vehicle /\
    (Vehicle.offline vehicle = false ->
     (exists human, In human (fst (Scenario.wander (Scenario.humans s) g1)) /\
                    Scenario.feared vehicle human = true) ->
     r < 0).
Proof.
  intros Hr Hy.
  destruct (step_yield_roadworthy s zones g k _ Hr Hy)
    as (vs1 & rewards & g1 & veh & base & A & N & B & Hr1 & Hb & E).
  exists vs1, rewards, g1, veh. split; [exact A |]. split; [exact N |].
  intros Hoff (human & Hin & Hf).
  set (hs1 := fst (Scenario.wander (Scenario.humans s) g1)) in *.
  destruct Hr1 as ((Hv & _ & Hp & _) & Hs).
  pose proof (feared_stops vs1 hs1 k veh base [] human Hv Hin Hf) as Hstop.
  cbv zeta in Hstop.
  unfold yield_of in E. rewrite Hoff in E. unfold Scenario.verdict in E.
  destruct (Scenario.crashed _) eqn:Hcr.
  - injection E as _ -> _. lra.
  - rewrite orb_false_r in Hstop. rewrite Hstop in E. injection E as _ -> _.
    apply truthy_true in Hstop.
    destruct (scan_warning_value vs1 hs1 k veh base []) as [W | (W & S)];
      [contradiction |].
    rewrite W.
    assert (0 < Vehicle.speed veh / Vehicle.v veh) by (apply Rdiv_lt_0_compat; lra).
    lra.
Qed.

Lemma feared_costs_witness :
  exists obs r done,
    nth_error (fst (Scenario.step solo_scene [zone07] still)) 0 = Some (obs, r, done) /\
    r < 0.
Proof.
  destruct (step_total solo_scene [zone07] still solo_scene_roadworthy)
    as (ys & s' & g' & Hstep & _).
  { repeat constructor; apply zone07_positive. }
  { simpl; lia. }
  destruct (step_lengths _ _ _ _ _ _ Hstep) as (_ & _ & L).
  destruct ys as [| ((obs, r), done) ys]; try discriminate.
  assert (H : nth_error (fst (Scenario.step solo_scene [zone07] still)) 0 =
              Some (obs, r, done)) by (rewrite Hstep; reflexivity).
  exists obs, r, done. split; [exact H |].
  destruct (feared_costs solo_scene [zone07] still 0 obs r done solo_scene_roadworthy H)
    as (vs1 & rewards & g1 & vehicle & A & N & Hcost).
  destruct (lone_parked_advance (car 1 19.9 14 Vector3.zero false) zone07 still g1
              vs1 rewards eq_refl eq_refl A)
    as (veh1 & moved & M & -> & _ & P & O).
  injection N as <-.
  assert (Hprio : 0 < Vehicle.priority (car 1 19.9 14 Vector3.zero false))
    by (simpl; lra).
  destruct (cruising_bounds (car 1 19.9 14 Vector3.zero false) veh1 zone07 0.05 moved
              still g1 eq_refl eq_refl eq_refl eq_refl Hprio M) as (_ & Hsp).
  apply Hcost; [exact O |].
  exists (walker (Vector3.mk 2 0 0)). split.
  - change (Scenario.humans solo_scene)
      with (map walker [Vector3.mk 2 0 0; Vector3.mk 0.5 0 0]).
    rewrite walkers_stay. simpl. auto.
  - unfold Scenario.feared. cbn [walker Human.position].
    rewrite P. cbn [car Vehicle.position].
    rewrite magnitude_along_x by lra.
    apply andb_true_iff. split; apply Rltb_true; lra.
Defined.

(** X15: alone on the road.  If, in the positions after the moves, every
    other online vehicle and every human is at ten units or more from a
    vehicle that is not offline, that vehicle is yielded its base reward
    untouched ([5.0 * priority] if its odometer has reached [20]), with
    [done] true exactly when the odometer has reached [20]: no crash, no
    warning, no discount. *)
Theorem far_agents_plain_reward (s : Scenario.t) (zones : list Zone.t) (g : Rng) (k : nat)
  (y : Scenario.Yield) :
  nth_error (fst (Scenario.step s zones g)) k = Some y ->
  exists vs1 rewards g1 vehicle base,
    Scenario.advance (Scenario.vehicles s) zones g = Ok (vs1, rewards, g1) /\
    nth_error vs1 k = Some vehicle /\
    nth_error rewards k = Some base /\
    let hs1 := fst (Scenario.wander (Scenario.humans s) g1) in
    (Vehicle.offline vehicle = false ->
     (forall other, In other (Scenario.others k vs1) -> Vehicle.offline other = false ->
        10 <= Vector3.magnitude
                (Vector3.sub (Vehicle.position other) (Vehicle.position vehicle))) ->
     (forall human, In human hs1 ->
        10 <= Vector3.magnitude
                (Vector3.sub (Human.position human) (Vehicle.position vehicle))) ->
     y = (layout vs1 hs1 k vehicle,
          (if Scenario.finished vehicle then 5.0 * Vehicle.priority vehicle else base),
          Scenario.finished vehicle)).
Proof.
  intros Hy.
  destruct (step_yield s zones g k y Hy) as (vs1 & rewards & g1 & veh & base & A & N & B & E).
  exists vs1, rewards, g1, veh, base.
  split; [exact A |]. split; [exact N |]. split; [exact B |].
  intros hs1 Hoff Hv Hh. fold hs1 in E.
  destruct (far_scan vs1 hs1 k veh base [] Hv Hh) as (F1 & F2 & F3 & _).
  cbn [Scenario.scan_init Scenario.reward Scenario.crashed Scenario.warning] in F1, F2, F3.
  rewrite E. unfold yield_of. rewrite Hoff. unfold Scenario.verdict.
  rewrite F2, F3, truthy_zero, F1, scan_obs. reflexivity.
Qed.

Lemma far_agents_plain_reward_witness :
  exists y vehicle base,
    nth_error (fst (Scenario.step far_scene [zone07] still)) 0 = Some y /\
    snd (fst y) =
      (if Scenario.finished vehicle then 5.0 * Vehicle.priority vehicle else base) /\
    snd y = Scenario.finished vehicle.
Proof.
  assert (Hr : Forall roadworthy (Scenario.vehicles far_scene))
    by (repeat constructor; simpl; lra).
  destruct (step_total far_scene [zone07] still Hr) as (ys & s' & g' & Hstep & _).
  { repeat constructor; apply zone07_positive. }
  { simpl; lia. }
  destruct (step_lengths _ _ _ _ _ _ Hstep) as (_ & _ & L).
  destruct ys as [| y ys]; try discriminate.
  assert (H : nth_error (fst (Scenario.step far_scene [zone07] still)) 0 = Some y)
    by (rewrite Hstep; reflexivity).
  destruct (far_agents_plain_reward far_scene [zone07] still 0 y H)
    as (vs1 & rewards & g1 & vehicle & base & A & N & B & Hplain).
  cbv zeta in Hplain.
  destruct (lone_parked_advance (car 1 0 14 Vector3.zero false) zone07 still g1
              vs1 rewards eq_refl eq_refl A)
    as (veh1 & moved & M & -> & _ & P & O).
  injection N as <-.
  exists y, veh1, base. split; [exact H |].
  rewrite Hplain; [split; reflexivity | exact O | |].
  - intros other []. 
  - change (Scenario.humans far_scene) with (map walker [Vector3.mk 40 0 0]).
    rewrite walkers_stay. intros human [<- | []].
    cbn [walker Human.position]. rewrite P. cbn [car Vehicle.position].
    rewrite magnitude_along_x by lra. lra.
Defined.

(** ** Scenario.reset *)

Lemma init_ok (v a priority tick : R) :
  0 < v -> 0 < a -> 0 < priority -> 0 < tick ->
  Vehicle.init v a priority tick =
  Some (Vehicle.mk v a priority tick 0.0 Vector3.zero Vector3.zero 0 false).
Proof.
  intros Hv Ha Hp Ht. unfold Vehicle.init.
  rewrite !(proj2 (Rltb_true 0 _)) by assumption. reflexivity.
Qed.

Lemma fresh_vehicle_ok (tick : R) (d : Scenario.Draws) (k : nat) :
  0 < tick -> 0 < Scenario.drawn_priority d k ->
  Scenario.fresh_vehicle tick d k = Some (fresh tick d k).
Proof.
  intros Ht Hp. unfold Scenario.fresh_vehicle.
  rewrite init_ok by (try assumption; lra). reflexivity.
Qed.

Lemma fresh_vehicles_ok (tick : R) (d : Scenario.Draws) (n : nat) :
  0 < tick ->
  forall k, (forall j, (k <= j < k + n)%nat -> 0 < Scenario.drawn_priority d j) ->
    Scenario.fresh_vehicles tick d k n = Some (map (fresh tick d) (seq k n)).
Proof.
  intros Ht. induction n as [| n IH]; intros k Hp; [reflexivity |].
  cbn [Scenario.fresh_vehicles seq map].
  rewrite fresh_vehicle_ok by (try assumption; apply Hp; lia).
  rewrite IH by (intros j Hj; apply Hp; lia). reflexivity.
Qed.

Lemma others_incl (vs : list Vehicle.t) :
  forall i x, In x (Scenario.others i vs) -> In x vs.
Proof.
  unfold Scenario.others.
  induction vs as [| v vs IH]; intros i x H.
  - destruct i; simpl in H; destruct H.
  - destruct i as [| i]; simpl in H.
    + right. exact H.
    + destruct H as [H | H]; [left; exact H | right; apply (IH i), H].
Qed.

Lemma first_sight_layout (vs : list Vehicle.t) (hs : list Human.t) (i : nat)
  (vehicle : Vehicle.t) :
  Forall (fun other => Vehicle.offline other = false) vs ->
  Scenario.first_sight vs hs i vehicle = layout vs hs i vehicle.
Proof.
  intros Hon. unfold Scenario.first_sight, layout.
  assert (Ho : Forall (fun other => Vehicle.offline other = false) (Scenario.others i vs)).
  { apply Forall_forall. intros x Hx. rewrite Forall_forall in Hon.
    apply Hon. eapply others_incl. exact Hx. }
  assert (Hv : forall l init,
             Forall (fun other => Vehicle.offline other = false) l ->
             fold_left (fun obs other => obs ++ Scenario.vehicle_info vehicle other) l init =
             init ++ flat_map (vehicle_block vehicle) l).
  { induction l as [| o l IH]; intros init Hl; simpl; [symmetry; apply app_nil_r |].
    inversion Hl as [| ? ? Hoff Hl']; subst.
    rewrite IH by exact Hl'. rewrite <- app_assoc. f_equal. f_equal.
    unfold vehicle_block. rewrite Hoff. reflexivity. }
  assert (Hh : forall l init,
             fold_left (fun obs human => obs ++ Scenario.human_info vehicle human) l init =
             init ++ flat_map (human_block vehicle) l).
  { induction l as [| h l IH]; intros init; simpl; [symmetry; apply app_nil_r |].
    rewrite IH. rewrite <- app_assoc. reflexivity. }
  rewrite Hh, Hv by exact Ho. rewrite <- app_assoc. reflexivity.
Qed.

Lemma first_sights_nth (vs : list Vehicle.t) (hs : list Human.t) :
  forall todo i k,
    nth_error (Scenario.first_sights vs hs i todo) k =
    option_map (Scenario.first_sight vs hs (i + k)) (nth_error todo k).
Proof.
  induction todo as [| veh todo IH]; intros i k; [destruct k; reflexivity |].
  destruct k as [| k]; simpl.
  - rewrite Nat.add_0_r. reflexivity.
  - rewrite IH, Nat.add_succ_r. reflexivity.
Qed.

Lemma first_sights_length (vs : list Vehicle.t) (hs : list Human.t) :
  forall todo i, length (Scenario.first_sights vs hs i todo) = length todo.
Proof. induction todo as [| veh todo IH]; intros i; simpl; auto. Qed.

(** X16: [reset] and [step] agree on the observation.  With a positive
    tick and positive priorities drawn, [reset(vehicles, humans)] yields
    one observation per vehicle, each of length
    [4 + 8*(vehicles-1) + 4*humans] and laid out field by field as [step]
    lays out the observation of an online vehicle; it leaves [elapsed] at
    0, the tick as it was, and the new vehicles and humans in place of the
    former ones. *)
Theorem reset_observations (s : Scenario.t) (vehicles humans : nat) (d : Scenario.Draws) :
  0 < Scenario.tick s ->
  (forall k, (k < vehicles)%nat -> 0 < Scenario.drawn_priority d k) ->
  exists obss s',
    Scenario.reset s vehicles humans d = Some (obss, s') /\
    Scenario.vehicles s' = map (fresh (Scenario.tick s) d) (seq 0 vehicles) /\
    Scenario.humans s' = map (Scenario.fresh_human (Scenario.tick s) d) (seq 0 humans) /\
    Scenario.elapsed s' = 0%nat /\
    Scenario.tick s' = Scenario.tick s /\
    length obss = vehicles /\
    forall k obs, nth_error obss k = Some obs ->
      length obs = (4 + 8 * (vehicles - 1) + 4 * humans)%nat /\
      exists vehicle,
        nth_error (Scenario.vehicles s') k = Some vehicle /\
        obs = layout (Scenario.vehicles s') (Scenario.humans s') k vehicle.
Proof.
  intros Ht Hp. unfold Scenario.reset.
  rewrite fresh_vehicles_ok by (try assumption; intros j Hj; apply Hp; lia).
  set (vs := map (fresh (Scenario.tick s) d) (seq 0 vehicles)).
  set (hs := map (Scenario.fresh_human (Scenario.tick s) d) (seq 0 humans)).
  assert (Lv : length vs = vehicles) by (unfold vs; rewrite length_map, length_seq; reflexivity).
  assert (Lh : length hs = humans) by (unfold hs; rewrite length_map, length_seq; reflexivity).
  assert (Hon : Forall (fun other => Vehicle.offline other = false) vs).
  { apply Forall_forall. intros x Hx. unfold vs in Hx. apply in_map_iff in Hx.
    destruct Hx as (j & <- & _). reflexivity. }
  eexists. eexists. split; [reflexivity |]. cbn [Scenario.vehicles Scenario.humans
    Scenario.elapsed Scenario.tick].
  repeat (split; [reflexivity |]).
  split; [rewrite first_sights_length; exact Lv |].
  intros k obs Hk. rewrite first_sights_nth in Hk. cbn [plus] in Hk.
  destruct (nth_error vs k) as [veh |] eqn:N; [| discriminate].
  cbn [option_map] in Hk. injection Hk as <-.
  rewrite first_sight_layout by exact Hon.
  split.
  - rewrite layout_length by (apply nth_error_Some; congruence).
    rewrite Lv, Lh. reflexivity.
  - exists veh. split; reflexivity.
Qed.

Lemma reset_observations_witness :
  exists obss s',
    Scenario.reset pair_scene 2 1 test_draws = Some (obss, s') /\
    length obss = 2%nat /\
    Scenario.elapsed s' = 0%nat.
Proof.
  destruct (reset_observations pair_scene 2 1 test_draws)
    as (obss & s' & E & _ & _ & He & _ & L & _).
  - simpl. lra.
  - intros k _. simpl. lra.
  - exists obss, s'. auto.
Defined.

(** X17: after [reset] every vehicle faces the origin.  For a start
    position other than the origin, the direction set by [reset] has unit
    length, and going the distance to the origin along it leads exactly
    there. *)
Theorem reset_faces_origin (tick : R) (d : Scenario.Draws) (k : nat) (vehicle : Vehicle.t) :
  Scenario.start d k <> Vector3.zero ->
  Scenario.fresh_vehicle tick d k = Some vehicle ->
  Vehicle.position vehicle = Scenario.start d k /\
  Vector3.magnitude (Vehicle.direction vehicle) = 1 /\
  Vector3.add (Vehicle.position vehicle)
    (Vector3.scale (Vehicle.direction vehicle)
       (Vector3.magnitude (Vehicle.position vehicle))) = Vector3.zero.
Proof.
  intros Hne E. unfold Scenario.fresh_vehicle in E.
  destruct (Vehicle.init 14 7 (Scenario.drawn_priority d k) tick) as [veh0 |]; [| discriminate].
  injection E as <-. cbn [Vehicle.position Vehicle.direction].
  set (p := Scenario.start d k) in *.
  assert (Hdot : 0 < dot p p).
  { destruct (Req_dec_T (dot p p) 0) as [Z | Z].
    - exfalso. apply Hne. unfold dot in Z. apply vec_eq; simpl; nra.
    - pose proof (dot_self_nonneg p). lra. }
  assert (Hm : 0 < Vector3.magnitude p) by (rewrite magnitude_dot; apply sqrt_lt_R0; exact Hdot).
  assert (Hsq : Vector3.magnitude p * Vector3.magnitude p = dot p p).
  { rewrite magnitude_dot. apply sqrt_sqrt. lra. }
  split; [reflexivity |]. split.
  - rewrite magnitude_dot.
    replace (dot (Vector3.neg (Vector3.normalized p)) (Vector3.neg (Vector3.normalized p)))
      with 1; [apply sqrt_1 |].
    unfold dot, Vector3.neg, Vector3.normalized. cbn [Vector3.x Vector3.y Vector3.z].
    transitivity (dot p p / (Vector3.magnitude p * Vector3.magnitude p)).
    + rewrite Hsq. field. lra.
    + unfold dot. field. lra.
  - apply vec_eq; unfold Vector3.add, Vector3.scale, Vector3.neg, Vector3.normalized,
      Vector3.zero; cbn [Vector3.x Vector3.y Vector3.z]; field; lra.
Qed.

Lemma reset_faces_origin_witness :
  Vector3.magnitude (Vehicle.direction (fresh 0.1 test_draws 0)) = 1.
Proof.
  apply (reset_faces_origin 0.1 test_draws 0 (fresh 0.1 test_draws 0)).
  - intros E. apply (f_equal Vector3.x) in E. simpl in E. lra.
  - apply fresh_vehicle_ok; simpl; lra.
Defined.

(** ** More on runs *)

Lemma step_directions (s s' : Scenario.t) (zones : list Zone.t) (g g' : Rng)
  (ys : list Scenario.Yield) :
  Scenario.step s zones g = (ys, Ok (s', g')) ->
  (forall k veh, nth_error (Scenario.vehicles s) k = Some veh ->
     exists veh', nth_error (Scenario.vehicles s') k = Some veh' /\
                  Vector3.magnitude (Vehicle.direction veh') =
                  Vector3.magnitude (Vehicle.direction veh)) /\
  (forall k h, nth_error (Scenario.humans s) k = Some h ->
     exists h', nth_error (Scenario.humans s') k = Some h' /\
                Vector3.magnitude (Human.direction h') =
                Vector3.magnitude (Human.direction h)).
Proof.
  intros Hstep.
  destruct (step_ok _ _ _ _ _ _ Hstep) as (vs1 & rewards & g1 & A & Hh & L & Hall).
  destruct (advance_spec _ _ _ _ _ _ A) as (_ & _ & Hadv).
  split.
  - intros k veh Hk.
    destruct (Hadv k veh Hk) as (veh1 & B1 & B2 & B3 & _ & B4 & B5).
    destruct (Hall k veh1 B1) as (base & _ & _ & C).
    assert (Hd : Vector3.magnitude (Vehicle.direction veh1) =
                 Vector3.magnitude (Vehicle.direction veh)).
    { destruct (Vehicle.offline veh) eqn:Hoff.
      - rewrite (B3 eq_refl). reflexivity.
      - destruct (Nat.le_gt_cases (length zones) k) as [Hge | Hlt].
        + destruct (B4 Hge) as (-> & _). reflexivity.
        + destruct (B5 eq_refl Hlt) as (zone & moved & g0 & g0' & _ & M & _).
          destruct (move_fields _ _ _ _ _ _ _ M) as (_ & _ & _ & _ & _ & _ & _ & D).
          rewrite D. apply jitter_magnitude. }
    eexists. split; [exact C |].
    destruct (goes_offline _ _ _ _ _); exact Hd.
  - intros k h Hk. rewrite Hh.
    destruct (wander_nth (Scenario.humans s) g1 k h Hk) as (g0 & E).
    eexists. split; [exact E |].
    unfold Human.move.
    pose proof (jitter_magnitude (Human.direction h) (Human.tick h * 0.5) g0) as J.
    destruct (jitter _ _ _) as (rotated, g2). exact J.
Qed.

(** X18: directions keep their length.  Over any run of completed ticks
    the direction of every vehicle and of every human has the magnitude it
    started with: unit directions stay unit directions, and the zero
    direction stays zero. *)
Theorem run_directions (ticks : list (list Zone.t)) :
  forall (s s' : Scenario.t) (g g' : Rng) (yss : list (list Scenario.Yield)),
    Scenario.run s ticks g = (yss, Ok (s', g')) ->
    (forall k veh, nth_error (Scenario.vehicles s) k = Some veh ->
       exists veh', nth_error (Scenario.vehicles s') k = Some veh' /\
                    Vector3.magnitude (Vehicle.direction veh') =
                    Vector3.magnitude (Vehicle.direction veh)) /\
    (forall k h, nth_error (Scenario.humans s) k = Some h ->
       exists h', nth_error (Scenario.humans s') k = Some h' /\
                  Vector3.magnitude (Human.direction h') =
                  Vector3.magnitude (Human.direction h)).
Proof.
  induction ticks as [| zones ticks IH]; intros s s' g g' yss Hrun.
  - simpl in Hrun. injection Hrun as <- <- <-. split; eauto.
  - simpl in Hrun.
    destruct (Scenario.step s zones g) as (ys0, [(s1, g1) | e]) eqn:Hstep; [| discriminate].
    destruct (Scenario.run s1 ticks g1) as (yss1, r1) eqn:Hrest.
    injection Hrun as <- ->.
    destruct (step_directions _ _ _ _ _ _ Hstep) as (V1 & H1).
    destruct (IH _ _ _ _ _ Hrest) as (V2 & H2).
    split.
    + intros k veh Hk. destruct (V1 k veh Hk) as (veh1 & A1 & E1).
      destruct (V2 k veh1 A1) as (veh2 & A2 & E2).
      exists veh2. split; [exact A2 | congruence].
    + intros k h Hk. destruct (H1 k h Hk) as (h1 & A1 & E1).
      destruct (H2 k h1 A1) as (h2 & A2 & E2).
      exists h2. split; [exact A2 | congruence].
Qed.

Lemma run_directions_witness :
  exists yss s' g' veh',
    Scenario.run pair_scene [[zone07; zone07]; [zone07; zone07]] still = (yss, Ok (s', g')) /\
    nth_error (Scenario.vehicles s') 0 = Some veh' /\
    Vector3.magnitude (Vehicle.direction veh') = Vector3.magnitude Vector3.zero.
Proof.
  destruct (run_total [[zone07; zone07]; [zone07; zone07]] pair_scene still
              pair_scene_roadworthy)
    as (yss & s' & g' & Hrun).
  { repeat constructor; simpl; try lia; apply zone07_positive. }
  destruct (run_directions _ _ _ _ _ _ Hrun) as (V & _).
  destruct (V 0%nat _ eq_refl) as (veh' & A & E).
  exists yss, s', g', veh'. split; [exact Hrun |]. split; [exact A | exact E].
Defined.

Lemma step_odometers (s s' : Scenario.t) (zones : list Zone.t) (g g' : Rng)
  (ys : list Scenario.Yield) :
  Forall roadworthy (Scenario.vehicles s) ->
  Scenario.step s zones g = (ys, Ok (s', g')) ->
  Forall roadworthy (Scenario.vehicles s') /\
  forall k veh, nth_error (Scenario.vehicles s) k = Some veh ->
    exists veh', nth_error (Scenario.vehicles s') k = Some veh' /\
                 Vehicle.odometer veh <= Vehicle.odometer veh'.
Proof.
  intros Hr Hstep.
  destruct (step_ok _ _ _ _ _ _ Hstep) as (vs1 & rewards & g1 & A & Hh & L & Hall).
  destruct (advance_spec _ _ _ _ _ _ A) as (Hlen & _ & Hadv).
  destruct (step_lengths _ _ _ _ _ _ Hstep) as (Lv & _ & _).
  assert (Hone : forall k veh, nth_error (Scenario.vehicles s) k = Some veh ->
            exists veh', nth_error (Scenario.vehicles s') k = Some veh' /\
                         roadworthy veh' /\ Vehicle.odometer veh <= Vehicle.odometer veh').
  { intros k veh Hk.
    pose proof (nth_error_Forall _ _ _ _ Hr Hk) as Hrv.
    destruct (Hadv k veh Hk) as (veh1 & B1 & B2 & B3 & _ & B4 & B5).
    destruct (Hall k veh1 B1) as (base & _ & _ & C).
    assert (H1 : roadworthy veh1 /\ Vehicle.odometer veh <= Vehicle.odometer veh1).
    { destruct (Vehicle.offline veh) eqn:Hoff.
      - rewrite (B3 eq_refl). split; [exact Hrv | lra].
      - destruct (Nat.le_gt_cases (length zones) k) as [Hge | Hlt].
        + destruct (B4 Hge) as (-> & _). split; [exact Hrv | lra].
        + destruct (B5 eq_refl Hlt) as (zone & moved & g0 & g0' & _ & M & _).
          pose proof (move_roadworthy veh zone 0.05 g0 Hrv) as Hm. rewrite M in Hm.
          destruct Hm as (Hr1 & Hm0 & Ho & _). split; [exact Hr1 | lra]. }
    eexists. split; [exact C |].
    destruct (goes_offline _ _ _ _ _); exact H1. }
  split.
  - apply Forall_forall. intros x Hx. apply In_nth_error in Hx. destruct Hx as (k & Hk).
    assert (Hlt : (k < length (Scenario.vehicles s))%nat).
    { rewrite <- Lv. apply nth_error_Some. congruence. }
    destruct (nth_error (Scenario.vehicles s) k) as [veh |] eqn:N;
      [| apply nth_error_None in N; lia].
    destruct (Hone k veh N) as (veh' & E & Hr' & _). congruence.
  - intros k veh Hk. destruct (Hone k veh Hk) as (veh' & E & _ & Ho). eauto.
Qed.

(** X19: odometers never run backwards.  In a run of completed ticks that
    starts with vehicles satisfying the constructor's assertions and
    having a speed [>= 0], every vehicle still satisfies them at the end,
    still has a speed [>= 0], and has an odometer at least what it was. *)
Theorem run_odometers (ticks : list (list Zone.t)) :
  forall (s s' : Scenario.t) (g g' : Rng) (yss : list (list Scenario.Yield)),
    Forall roadworthy (Scenario.vehicles s) ->
    Scenario.run s ticks g = (yss, Ok (s', g')) ->
    Forall roadworthy (Scenario.vehicles s') /\
    forall k veh, nth_error (Scenario.vehicles s) k = Some veh ->
      exists veh', nth_error (Scenario.vehicles s') k = Some veh' /\
                   Vehicle.odometer veh <= Vehicle.odometer veh'.
Proof.
  induction ticks as [| zones ticks IH]; intros s s' g g' yss Hr Hrun.
  - simpl in Hrun. injection Hrun as <- <- <-. split; [exact Hr |].
    intros k veh Hk. exists veh. split; [exact Hk | lra].
  - simpl in Hrun.
    destruct (Scenario.step s zones g) as (ys0, [(s1, g1) | e]) eqn:Hstep; [| discriminate].
    destruct (Scenario.run s1 ticks g1) as (yss1, r1) eqn:Hrest.
    injection Hrun as <- ->.
    destruct (step_odometers _ _ _ _ _ _ Hr Hstep) as (Hr1 & O1).
    destruct (IH _ _ _ _ _ Hr1 Hrest) as (Hr2 & O2).
    split; [exact Hr2 |].
    intros k veh Hk. destruct (O1 k veh Hk) as (veh1 & A1 & E1).
    destruct (O2 k veh1 A1) as (veh2 & A2 & E2).
    exists veh2. split; [exact A2 | lra].
Qed.

Lemma run_odometers_witness :
  exists yss s' g' veh',
    Scenario.run pair_scene [[zone07; zone07]; [zone07; zone07]] still = (yss, Ok (s', g')) /\
    nth_error (Scenario.vehicles s') 1 = Some veh' /\
    0 <= Vehicle.odometer veh'.
Proof.
  destruct (run_total [[zone07; zone07]; [zone07; zone07]] pair_scene still
              pair_scene_roadworthy)
    as (yss & s' & g' & Hrun).
  { repeat constructor; simpl; try lia; apply zone07_positive. }
  destruct (run_odometers _ _ _ _ _ _ pair_scene_roadworthy Hrun) as (_ & O).
  destruct (O 1%nat _ eq_refl) as (veh' & A & E).
  exists yss, s', g', veh'. split; [exact Hrun |]. split; [exact A | exact E].
Defined.

(** X20: a vehicle whose direction was never set.  [Vehicle.__init__]
    leaves the direction at zero, and [move] keeps it there.  In a zone all
    of whose bounds are positive such a vehicle moves without changing
    place: the position is unchanged while the odometer grows by the
    distance returned.  In a zone all of whose bounds are zero [move]
    raises the [ValueError] of [Zone.constraint]. *)
Theorem move_without_direction (veh : Vehicle.t) (zone : Zone.t) (randomness : R) (g : Rng) :
  Vehicle.wf veh ->
  0 <= Vehicle.speed veh ->
  Vehicle.direction veh = Vector3.zero ->
  (positive zone ->
   exists veh' moved g',
     Vehicle.move veh zone randomness g = Ok (veh', moved, g') /\
     Vehicle.position veh' = Vehicle.position veh /\
     Vehicle.direction veh' = Vector3.zero /\
     Vehicle.odometer veh' = Vehicle.odometer veh + moved /\
     0 <= moved) /\
  (Zone.lo_x zone = 0 -> Zone.hi_x zone = 0 ->
   Zone.lo_y zone = 0 -> Zone.hi_y zone = 0 ->
   Zone.lo_z zone = 0 -> Zone.hi_z zone = 0 ->
   Vehicle.move veh zone randomness g = Raise ValueError).
Proof.
  intros Hwf Hvi Hd. split.
  - intros Hp.
    destruct (move_total veh zone randomness g (conj Hwf Hvi) Hp) as (veh' & moved & g' & M).
    pose proof (move_roadworthy veh zone randomness g (conj Hwf Hvi)) as Hm.
    rewrite M in Hm. destruct Hm as (_ & Hm0 & Ho & _).
    destruct (parked_stays _ _ _ _ _ _ _ M Hd) as (P & D).
    exists veh', moved, g'. auto.
  - intros X1 X2 Y1 Y2 Z1 Z2.
    pose proof (move_unfold veh zone randomness g Hwf Hvi) as H. cbv zeta in H.
    rewrite Hd, jitter_zero_direction in H.
    assert (E : Zone.constraint zone Vector3.zero = None).
    { unfold Zone.constraint, Zone.constraints, Zone.constraints_x, Zone.constraints_y,
        Zone.constraints_z, Vector3.zero.
      cbn [Vector3.x Vector3.y Vector3.z app].
      rewrite X1, X2, Y1, Y2, Z1, Z2.
      assert (N : np_div 0 0 = NaN).
      { unfold np_div. destruct (Req_dec_T 0 0) as [_ | N]; [| contradiction N; reflexivity].
        destruct (Rlt_dec 0 0); [lra | reflexivity]. }
      replace (- 0) with 0 by ring. rewrite N. reflexivity. }
    rewrite E in H. exact H.
Qed.

Lemma move_without_direction_witness :
  (exists veh' moved g',
     Vehicle.move (car 1 0 0 (Vector3.mk 3 4 5) false) zone07 0.05 still =
       Ok (veh', moved, g') /\
     Vehicle.position veh' = Vector3.mk 3 4 5) /\
  Vehicle.move (car 1 0 0 (Vector3.mk 3 4 5) false) (Zone.mk 0 0 0 0 0 0) 0.05 still =
    Raise ValueError.
Proof.
  destruct (move_without_direction (car 1 0 0 (Vector3.mk 3 4 5) false) zone07 0.05 still)
    as (H1 & _); [unfold Vehicle.wf; simpl; lra | simpl; lra | reflexivity |].
  destruct (move_without_direction (car 1 0 0 (Vector3.mk 3 4 5) false)
              (Zone.mk 0 0 0 0 0 0) 0.05 still)
    as (_ & H2); [unfold Vehicle.wf; simpl; lra | simpl; lra | reflexivity |].
  split.
  - destruct (H1 zone07_positive) as (veh' & moved & g' & M & P & _).
    exists veh', moved, g'. split; [exact M | exact P].
  - apply H2; reflexivity.
Defined.

(** ** Random draws *)

Lemma jitter_rng (d : Vec) (scale : R) (g : Rng) :
  samples (snd (jitter d scale g)) = samples g /\
  cursor (snd (jitter d scale g)) = (3 + cursor g)%nat.
Proof. unfold jitter, normal3. split; reflexivity. Qed.

Lemma move_rng (veh veh' : Vehicle.t) (zone : Zone.t) (randomness moved : R) (g g' : Rng) :
  Vehicle.move veh zone randomness g = Ok (veh', moved, g') ->
  samples g' = samples g /\ cursor g' = (3 + cursor g)%nat.
Proof.
  unfold Vehicle.move.
  pose proof (jitter_rng (Vehicle.direction veh) (Vehicle.tick veh * randomness) g) as J.
  destruct (jitter _ _ _) as (rotated, g1). cbn [snd] in J.
  destruct (Zone.constraint zone rotated) as [c |]; [| discriminate].
  destruct (Vehicle.kinematics veh c) as [(m, vf) | e]; simpl; [| discriminate].
  intros H. injection H as _ _ <-. exact J.
Qed.

Lemma advance_rng :
  forall (vs : list Vehicle.t) (zones : list Zone.t) (g : Rng) vs1 rewards g1,
    Scenario.advance vs zones g = Ok (vs1, rewards, g1) ->
    samples g1 = samples g /\
    cursor g1 = (3 * length (online (firstn (length zones) vs)) + cursor g)%nat.
Proof.
  induction vs as [| vehicle vs IH]; intros zones g vs1 rewards g1 H.
  - simpl in H. injection H as _ _ <-. rewrite firstn_nil. split; reflexivity.
  - destruct zones as [| zone zones].
    + simpl in H. injection H as _ _ <-. split; reflexivity.
    + simpl in H. cbn [length firstn online filter].
      destruct (Vehicle.offline vehicle) eqn:Hoff; cbn [negb].
      * destruct (Scenario.advance vs zones g) as [((vs', rs'), g') | e] eqn:E;
          simpl in H; [| discriminate].
        injection H as _ _ <-. apply (IH _ _ _ _ _ E).
      * destruct (Vehicle.move vehicle zone 0.05 g) as [((veh', moved), g1') | e] eqn:M;
          simpl in H; [| discriminate].
        destruct (Scenario.advance vs zones g1') as [((vs', rs'), g') | e] eqn:E;
          simpl in H; [| discriminate].
        injection H as _ _ <-.
        destruct (move_rng _ _ _ _ _ _ _ M) as (S1 & C1).
        destruct (IH _ _ _ _ _ E) as (S2 & C2).
        split; [congruence |]. unfold online in *. cbn [length]. lia.
Qed.

Lemma wander_rng (hs : list Human.t) :
  forall g, samples (snd (Scenario.wander hs g)) = samples g /\
            cursor (snd (Scenario.wander hs g)) = (3 * length hs + cursor g)%nat.
Proof.
  induction hs as [| h hs IH]; intros g; [split; reflexivity |].
  cbn [Scenario.wander].
  assert (J : samples (snd (Human.move h 0.5 g)) = samples g /\
              cursor (snd (Human.move h 0.5 g)) = (3 + cursor g)%nat).
  { unfold Human.move.
    pose proof (jitter_rng (Human.direction h) (Human.tick h * 0.5) g) as J.
    destruct (jitter _ _ _) as (rotated, g1). exact J. }
  destruct (Human.move h 0.5 g) as (h', g1). cbn [snd] in J.
  specialize (IH g1). destruct (Scenario.wander hs g1) as (hs', g2).
  cbn [snd length] in *. destruct J as (J1 & J2), IH as (I1 & I2).
  split; [congruence | lia].
Qed.

(** X21: what a tick draws from the random source.  A completed tick
    draws three samples for each vehicle that is not offline and three for
    each human, in this order, and nothing else: offline vehicles and the
    whole of phase 2 consume no randomness. *)
Theorem step_draws (s s' : Scenario.t) (zones : list Zone.t) (g g' : Rng)
  (ys : list Scenario.Yield) :
  Scenario.step s zones g = (ys, Ok (s', g')) ->
  samples g' = samples g /\
  cursor g' =
    (cursor g + 3 * length (online (Scenario.vehicles s)) + 3 * length (Scenario.humans s))%nat.
Proof.
  intros Hstep.
  destruct (step_ok _ _ _ _ _ _ Hstep) as (vs1 & rewards & g1 & A & Hh & L & Hall).
  destruct (advance_spec _ _ _ _ _ _ A) as (Hlen & Hrew & _).
  destruct (advance_rng _ _ _ _ _ _ A) as (S1 & C1).
  assert (Hzones : (length (Scenario.vehicles s) <= length zones)%nat).
  { destruct (Nat.le_gt_cases (length (Scenario.vehicles s)) (length zones)) as [Hle | Hgt];
      [exact Hle | exfalso].
    destruct (nth_error vs1 (length zones)) as [veh |] eqn:N.
    - destruct (Hall _ _ N) as (base & B & _).
      assert (length zones < length rewards)%nat by (apply nth_error_Some; congruence).
      lia.
    - apply nth_error_None in N. lia. }
  rewrite firstn_all2 in C1 by exact Hzones.
  assert (Hg : g' = snd (Scenario.wander (Scenario.humans s) g1)).
  { rewrite step_unfold, A in Hstep. cbv zeta in Hstep.
    destruct (snd (Scenario.observe_from _ _ _ _ _ _)); [| discriminate].
    injection Hstep as _ _ <-. reflexivity. }
  destruct (wander_rng (Scenario.humans s) g1) as (S2 & C2).
  rewrite Hg. split; [congruence | lia].
Qed.

Lemma step_draws_witness :
  exists ys s' g',
    Scenario.step wreck_scene [zone07; zone07] still = (ys, Ok (s', g')) /\
    cursor g' = 3%nat.
Proof.
  destruct (step_total wreck_scene [zone07; zone07] still wreck_scene_roadworthy)
    as (ys & s' & g' & Hstep & _).
  { repeat constructor; apply zone07_positive. }
  { simpl; lia. }
  exists ys, s', g'. split; [exact Hstep |].
  destruct (step_draws _ _ _ _ _ _ Hstep) as (_ & C). exact C.
Defined.
